(** * Autonion extension: orchestration core

    A shallow embedding of the background service worker
    ([background.js]: transport client, URL monitor, trigger rules,
    transaction ledger, plan pipeline, step executor, kill switch) and
    of [utils/schema.js] (plan validation, the safety filter and the
    extraction of JSON from a chatbot response), followed by the
    properties of the specification proved about it and by further
    properties of the code. *)

From Stdlib Require Import ZArith QArith Qminmax Lia Bool.
From Stdlib Require Import Strings.String Strings.Ascii DecimalString.
From stdpp Require Import base option list gmap strings.

Set Warnings "-register-all".

Open Scope string_scope.
Open Scope Z_scope.
Open Scope nat_scope.
Open Scope stdpp_scope.
Open Scope list_scope.

(** ** JavaScript values and the built-ins the sources use *)

Module Js.

(** The values that [JSON.parse] produces, plus [undefined] (the result
    of reading a missing property).  Numbers are the integers; an object
    lists its own properties in enumeration order, each key once. *)
Inductive value : Type :=
| VUndef
| VNull
| VBool (b : bool)
| VNum (z : Z)
| VStr (s : string)
| VArr (items : list value)
| VObj (fields : list (string * value)).

(** What a call can throw. *)
Inductive exn : Type :=
| TypeError (msg : string)
| Error (msg : string).

Inductive res (A : Type) : Type :=
| Ok (a : A)
| Throw (e : exn).
Arguments Ok {A} a.
Arguments Throw {A} e.

Definition bind {A B} (m : res A) (k : A -> res B) : res B :=
  match m with
  | Ok a => k a
  | Throw e => Throw e
  end.

(** ToBoolean: [!v] is [negb (truthy v)]. *)
Definition truthy (v : value) : bool :=
  match v with
  | VUndef | VNull => false
  | VBool b => b
  | VNum z => negb (z =? 0)%Z
  | VStr s => negb (String.eqb s "")
  | VArr _ | VObj _ => true
  end.

(** [typeof v === 'object'] *)
Definition typeof_object (v : value) : bool :=
  match v with
  | VNull | VArr _ | VObj _ => true
  | _ => false
  end.

(** [Array.isArray(v)] *)
Definition isArray (v : value) : bool :=
  match v with
  | VArr _ => true
  | _ => false
  end.

(** [a || b] *)
Definition or_else (a b : value) : value := if truthy a then a else b.

Fixpoint lookup_field (k : string) (fields : list (string * value)) : value :=
  match fields with
  | [] => VUndef
  | (k', v) :: rest => if String.eqb k k' then v else lookup_field k rest
  end.

(** [v.k] for the property names the sources read ([steps], [actions],
    [transaction_id], [action], [params], [safety_check], [url]): none of
    them is a member of a prototype, so arrays and primitives answer
    [undefined]; reading a property of [null] or [undefined] throws. *)
Definition get (v : value) (k : string) : res value :=
  match v with
  | VUndef | VNull => Throw (TypeError "Cannot read properties of null or undefined")
  | VObj fields => Ok (lookup_field k fields)
  | _ => Ok VUndef
  end.

(** [v?.k] *)
Definition get_opt (v : value) (k : string) : value :=
  match v with
  | VObj fields => lookup_field k fields
  | _ => VUndef
  end.

Fixpoint update_field (k : string) (x : value) (fields : list (string * value))
  : list (string * value) :=
  match fields with
  | [] => [(k, x)]
  | (k', v) :: rest =>
      if String.eqb k k' then (k, x) :: rest else (k', v) :: update_field k x rest
  end.

(** [v.k = x] in a classic (sloppy-mode) script: an object gets or
    updates its own property, a primitive ignores the write, [null] and
    [undefined] throw.  A write to an array is not tracked: no read of
    the sources can see it. *)
Definition set (v : value) (k : string) (x : value) : res value :=
  match v with
  | VUndef | VNull => Throw (TypeError "Cannot set properties of null or undefined")
  | VObj fields => Ok (VObj (update_field k x fields))
  | _ => Ok v
  end.

(** [a === 'lit'] for a string literal *)
Definition is_str (v : value) (lit : string) : bool :=
  match v with
  | VStr s => String.eqb s lit
  | _ => false
  end.

(** [list.includes(v)] for an array of string literals *)
Definition includes_value (l : list string) (v : value) : bool :=
  match v with
  | VStr s => existsb (String.eqb s) l
  | _ => false
  end.

(** *** Strings *)

Fixpoint starts_with (s p : string) : bool :=
  match p, s with
  | EmptyString, _ => true
  | String c p', String d s' => Ascii.eqb c d && starts_with s' p'
  | String _ _, EmptyString => false
  end.

(** [s.includes(p)] *)
Fixpoint includes (s p : string) : bool :=
  starts_with s p ||
  match s with
  | EmptyString => false
  | String _ s' => includes s' p
  end.

Definition lower_char (c : ascii) : ascii :=
  let n := nat_of_ascii c in
  if (65 <=? n) && (n <=? 90) then ascii_of_nat (n + 32) else c.

(** [s.toLowerCase()] on the letters A-Z; other characters are kept. *)
Fixpoint toLowerCase (s : string) : string :=
  match s with
  | EmptyString => EmptyString
  | String c s' => String (lower_char c) (toLowerCase s')
  end.

(** *** JSON.stringify *)

Definition dquote : string := String "034"%char EmptyString.
Definition backslash : string := String "092"%char EmptyString.

Definition hex_digit (n : nat) : string :=
  String.substring n 1 "0123456789abcdef".

(** QuoteJSONString's treatment of one code unit. *)
Definition escape_char (c : ascii) : string :=
  let n := nat_of_ascii c in
  if n =? 8 then backslash +:+ "b"
  else if n =? 9 then backslash +:+ "t"
  else if n =? 10 then backslash +:+ "n"
  else if n =? 12 then backslash +:+ "f"
  else if n =? 13 then backslash +:+ "r"
  else if n =? 34 then backslash +:+ dquote
  else if n =? 92 then backslash +:+ backslash
  else if n <? 32 then backslash +:+ "u00" +:+ hex_digit (n / 16) +:+ hex_digit (n mod 16)
  else String c EmptyString.

Fixpoint escape (s : string) : string :=
  match s with
  | EmptyString => EmptyString
  | String c s' => escape_char c +:+ escape s'
  end.

Definition quote (s : string) : string := dquote +:+ escape s +:+ dquote.

Definition number_to_string (z : Z) : string :=
  NilZero.string_of_int (Z.to_int z).

Definition join (sep : string) (l : list string) : string :=
  String.concat sep l.

(** [JSON.stringify(v)] without indentation.  [None] stands for the
    [undefined] that the call returns on [undefined]; inside an array
    [undefined] prints as [null], inside an object the property is
    skipped. *)
Fixpoint stringify (v : value) : option string :=
  match v with
  | VUndef => None
  | VNull => Some "null"
  | VBool true => Some "true"
  | VBool false => Some "false"
  | VNum z => Some (number_to_string z)
  | VStr s => Some (quote s)
  | VArr items =>
      Some ("[" +:+ join "," (map (fun x => default "null" (stringify x)) items) +:+ "]")
  | VObj fields =>
      Some ("{" +:+
            join "," (omap (fun kv => match stringify (snd kv) with
                                      | Some s => Some (quote (fst kv) +:+ ":" +:+ s)
                                      | None => None
                                      end) fields) +:+ "}")
  end.

End Js.

#[global] Instance res_ret : MRet Js.res := @Js.Ok.
#[global] Instance res_bind : MBind Js.res := fun A B k m => Js.bind m k.

(** ** utils/schema.js *)

Module Schema.
Import Js.

Definition ALLOWED_ACTIONS : list string :=
  [ "open_url"; "click_element"; "type_into"; "press_key"; "wait";
    "scroll_to"; "select_option"; "read_text"; "go_back"; "go_forward";
    "refresh"; "close_tab" ].

Definition DESTRUCTIVE_KEYWORDS : list string :=
  [ "delete"; "remove"; "reset"; "format"; "purchase";
    "buy"; "unsubscribe"; "deactivate"; "terminate";
    "cancel subscription"; "erase" ].

Definition MAX_STEPS : nat := 10.

(** The entries of [errors], one constructor per message template;
    [step] is the 1-based number the message prints. *)
Inductive validation_error : Type :=
| ENotObject                                   (* Plan is not a valid object *)
| ENoStepsArray                                (* Plan must contain a "steps" array *)
| ETooManySteps (n : nat)                      (* Plan has n steps, maximum allowed is 10 *)
| ENoSteps                                     (* Plan has no steps *)
| EMissingAction (step : nat)                  (* Step n: missing "action" field *)
| EUnknownAction (step : nat) (action : value) (* Step n: unknown action "a" *)
| EInvalidParams (step : nat).                 (* Step n: missing or invalid "params" object *)

(** [{ valid, errors, plan }] *)
Record validation : Type := {
  valid : bool;
  errors : list validation_error;
  vplan : value
}.

Definition invalid (errs : list validation_error) : validation :=
  {| valid := false; errors := errs; vplan := VNull |}.

(** The body of the loop of [validatePlan] for [steps[i]]: the errors it
    pushes.  A missing action [continue]s past the other two tests. *)
Definition validate_step (i : nat) (step : value) : res (list validation_error) :=
  action ← get step "action";
  if negb (truthy action) then mret [EMissingAction (i + 1)]
  else
    params ← get step "params";
    mret ((if negb (includes_value ALLOWED_ACTIONS action)
           then [EUnknownAction (i + 1) action] else []) ++
          (if negb (truthy params) || negb (typeof_object params)
           then [EInvalidParams (i + 1)] else [])).

(** [for (let i = ...; i < steps.length; i++)], from index [i] on. *)
Fixpoint validate_steps (i : nat) (steps : list value)
    (errs : list validation_error) : res (list validation_error) :=
  match steps with
  | [] => mret errs
  | step :: rest =>
      es ← validate_step i step;
      validate_steps (S i) rest (errs ++ es)
  end.

(** [validatePlan(plan)].  [uuid] is what [crypto.randomUUID()] (or the
    [txn-] fallback) returns when the call is made. *)
Definition validatePlan (uuid : string) (plan : value) : res validation :=
  if negb (truthy plan) || negb (typeof_object plan) then
    mret (invalid [ENotObject])
  else
    s ← get plan "steps";
    a ← get plan "actions";
    let steps_v := or_else s a in
    match steps_v with
    | VArr steps =>
        plan ← set plan "steps" steps_v;
        tid ← get plan "transaction_id";
        plan ← (if negb (truthy tid)
                then set plan "transaction_id" (VStr uuid)
                else mret plan);
        if MAX_STEPS <? length steps then
          mret (invalid [ETooManySteps (length steps)])
        else if length steps =? 0 then
          mret (invalid [ENoSteps])
        else
          errs ← validate_steps 0 steps [];
          mret {| valid := length errs =? 0;
                  errors := errs;
                  vplan := if length errs =? 0 then plan else VNull |}
    | _ => mret (invalid [ENoStepsArray])
    end.

(** One entry of [violations]:
    Step n: contains destructive keyword "k" - BLOCKED *)
Inductive violation : Type :=
| Violation (step : nat) (keyword : string).

(** [{ safe, violations, plan }] *)
Record safety : Type := {
  safe : bool;
  violations : list violation;
  splan : value
}.

(** The first loop of [runSafetyCheck] fills [allowedDomains], which
    nothing reads afterwards; what is left of it is the read of
    [step.action], which throws on a [null] step. *)
Fixpoint collect_domains (steps : list value) : res () :=
  match steps with
  | [] => mret ()
  | step :: rest => _ ← get step "action"; collect_domains rest
  end.

(** [JSON.stringify(step.params || {}).toLowerCase()] *)
Definition paramsStr (step : value) : res string :=
  params ← get step "params";
  match stringify (or_else params (VObj [])) with
  | Some s => mret (toLowerCase s)
  | None => Throw (TypeError "Cannot read properties of undefined (reading 'toLowerCase')")
  end.

(** [for (const keyword of DESTRUCTIVE_KEYWORDS)] over the keywords
    [kws] still to try, with the violations and the step so far. *)
Fixpoint scan_keywords (i : nat) (str : string) (kws : list string)
    (viol : list violation) (step : value) : res (list violation * value) :=
  match kws with
  | [] => mret (viol, step)
  | keyword :: rest =>
      if includes str keyword then
        step ← set step "safety_check" (VStr "blocked");
        scan_keywords i str rest (viol ++ [Violation (i + 1) keyword]) step
      else scan_keywords i str rest viol step
  end.

(** The body of the second loop for [steps[i]]. *)
Definition check_step (i : nat) (viol : list violation) (step : value)
  : res (list violation * value) :=
  str ← paramsStr step;
  '(viol, step) ← scan_keywords i str DESTRUCTIVE_KEYWORDS viol step;
  sc ← get step "safety_check";
  step ← (if negb (truthy sc) || negb (is_str sc "blocked")
          then set step "safety_check" (VStr "passed")
          else mret step);
  mret (viol, step).

(** The second loop from index [i] on; [done] are the steps already
    visited, as the loop left them. *)
Fixpoint check_steps (i : nat) (steps : list value)
    (viol : list violation) (done : list value) : res (list violation * list value) :=
  match steps with
  | [] => mret (viol, done)
  | step :: rest =>
      '(viol, step) ← check_step i viol step;
      check_steps (S i) rest viol (done ++ [step])
  end.

(** [runSafetyCheck(plan)].  The steps are updated in place, so the plan
    returned is the argument with its [steps] as the loop left them.
    The loops are followed over an array, which is what a validated
    plan holds.  Values carry no identity here: when a plan came with
    [actions], [validatePlan] stored that very array under [steps], and
    in the source the marks show under [actions] as well; the value
    returned here shows them under [steps] only, so nothing is to be
    read off its [actions]. *)
Definition runSafetyCheck (plan : value) : res safety :=
  steps_v ← get plan "steps";
  match steps_v with
  | VArr steps =>
      _ ← collect_domains steps;
      '(viol, steps) ← check_steps 0 steps [] [];
      plan ← set plan "steps" (VArr steps);
      mret {| safe := length viol =? 0; violations := viol; splan := plan |}
  | _ => Throw (TypeError "steps is not iterable")
  end.

End Schema.

(** ** background.js *)

Module Background.
Import Js Schema.

(** *** State *)

Definition MAX_RECONNECT_ATTEMPTS : nat := 50.
Definition BASE_RECONNECT_DELAY : Q := 2000.
Definition RULE_COOLDOWN_MS : Z := 30000.

(** [{ type, value }] of a rule *)
Record Criteria : Type := {
  ctype : string;
  cvalue : string
}.

(** A registered rule [{ id, criteria }], an object with string
    fields; [None] is an absent field. *)
Record Rule : Type := {
  rule_id : option string;
  criteria : option Criteria
}.

(** An entry of [triggeredRulesState] *)
Record RuleState : Type := {
  active : bool;
  lastTriggered : Z
}.

(** [currentExecution = { transactionId, steps, currentStep }] *)
Record Execution : Type := {
  exec_transactionId : value;
  exec_steps : list value;
  currentStep : nat
}.

(** The module-level variables.  [wsConnected] also stands for
    [ws.readyState === WebSocket.OPEN]; [triggeredRulesState] holds the
    own entries of the plain object, keyed by rule id (what the object
    inherits is accounted for where it is read, in [check_rule]);
    [processedTxIds] is the [Set] in insertion order, oldest first. *)
Record State : Type := {
  wsConnected : bool;
  reconnectAttempts : nat;
  currentExecution : option Execution;
  killSwitchActive : bool;
  registeredRules : list Rule;
  triggeredRulesState : gmap string RuleState;
  processedTxIds : list string
}.

Definition initial : State :=
  {| wsConnected := false; reconnectAttempts := 0; currentExecution := None;
     killSwitchActive := false; registeredRules := [];
     triggeredRulesState := ∅; processedTxIds := [] |}.

Definition with_ws (c : bool) (n : nat) (st : State) : State :=
  {| wsConnected := c; reconnectAttempts := n;
     currentExecution := currentExecution st;
     killSwitchActive := killSwitchActive st;
     registeredRules := registeredRules st;
     triggeredRulesState := triggeredRulesState st;
     processedTxIds := processedTxIds st |}.

Definition with_execution (e : option Execution) (st : State) : State :=
  {| wsConnected := wsConnected st; reconnectAttempts := reconnectAttempts st;
     currentExecution := e;
     killSwitchActive := killSwitchActive st;
     registeredRules := registeredRules st;
     triggeredRulesState := triggeredRulesState st;
     processedTxIds := processedTxIds st |}.

Definition with_kill (k : bool) (st : State) : State :=
  {| wsConnected := wsConnected st; reconnectAttempts := reconnectAttempts st;
     currentExecution := currentExecution st;
     killSwitchActive := k;
     registeredRules := registeredRules st;
     triggeredRulesState := triggeredRulesState st;
     processedTxIds := processedTxIds st |}.

Definition with_rules (rs : list Rule) (m : gmap string RuleState) (st : State) : State :=
  {| wsConnected := wsConnected st; reconnectAttempts := reconnectAttempts st;
     currentExecution := currentExecution st;
     killSwitchActive := killSwitchActive st;
     registeredRules := rs;
     triggeredRulesState := m;
     processedTxIds := processedTxIds st |}.

Definition with_ledger (l : list string) (st : State) : State :=
  {| wsConnected := wsConnected st; reconnectAttempts := reconnectAttempts st;
     currentExecution := currentExecution st;
     killSwitchActive := killSwitchActive st;
     registeredRules := registeredRules st;
     triggeredRulesState := triggeredRulesState st;
     processedTxIds := l |}.

(** *** What the worker emits *)

(** The lines passed to [addLog], one constructor per template. *)
Inductive log_line : Type :=
| LConnected
| LDisconnected
| LMaxReconnect
| LRegisterInvalid
| LRegistered (n : nat)
| LRule (r : Rule)
| LRuleTriggered (id : string)
| LCooldownSkip (id : string)
| LMarkedInactive (id : string)
| LBlockedKill
| LNoPrompt
| LDuplicate (txid : string)
| LPromptReceived (txid prompt : string)
| LPlatform (platform : string)
| LInjectError (msg : string)
| LChatbotResponse (txid : value)
| LCouldNotExtract
| LValidationErrors (errs : list validation_error)
| LSafetyBlocked (viol : list violation)
| LPlanValidated (n : nat)
| LSendingDesktopSteps (n : nat)
| LExecutingBrowserSteps (n : nat)
| LHaltedByKill
| LStep (step total : nat) (action : value)
| LUnknownAction (action : value)
| LStepFailed (step : nat) (msg : string)
| LAllExecuted (n : nat)
| LKillSwitchActivated.

(** The [status] field of an [execution_status] message, with what the
    message carries besides the transaction id. *)
Inductive status : Type :=
| Planning
| StatusError (reason : log_line)
| Blocked (viol : list violation)
| Executing (n : nat)
| StepStatus (step total : nat) (action : value)
| Killed (step total : nat).

(** The argument of a call [sendToDesktop(m)].  The frame is written
    only while the socket is open; otherwise the call logs and returns
    [false]. *)
Inductive desktop_msg : Type :=
| ExecutionStatus (txid : value) (s : status)
| ExecutionResult (txid : value) (steps_executed : nat)  (* status: 'completed' *)
| ExecuteDesktopActions (txid : value) (steps : list value)
| RuleTriggered (id : string)
| KillSwitchAck.

(** The argument of a call [broadcastToPopup(m)] *)
Inductive popup_msg : Type :=
| PStatus (connected : bool)
| PExecutionStart (txid prompt : string)
| PChatbotRaw
| PExecutionError (reason : log_line)
| PExecutionBlocked (viol : list violation)
| PPlanValidated (plan : value)
| PStepExecuting (step total : nat) (action params : value)
| PStepComplete (step : nat) (success : bool) (error : option string)
| PExecutionKilled (step : nat)
| PExecutionComplete (txid : value)
| PKillSwitch.

(** The observable calls, in program order.  [Alarm d] is
    [chrome.alarms.create('reconnect', ...)] for a delay of [d] ms;
    [InjectPrompt] the hand-over to the chatbot tab; [Dispatch i step]
    the browser call (tab API or injected DOM function) that carries
    out [steps[i]]. *)
Inductive event : Type :=
| Log (l : log_line)
| ToDesktop (m : desktop_msg)
| ToPopup (m : popup_msg)
| Alarm (delay : Q)
| InjectPrompt (platform txid prompt : string)
| Dispatch (i : nat) (step : value).

(** *** 1. WebSocket client *)

(** [ws.onopen] *)
Definition onopen (st : State) : State * list event :=
  (with_ws true 0 st, [ToPopup (PStatus true); Log LConnected]).

(** [scheduleReconnect()].  [Math.pow(1.5, n)] is the rational
    [(3/2)^n]: every delay below the 30000 cap is a dyadic rational
    that a double holds exactly, and a power above 15 is cut to the cap
    whatever its rounding. *)
Definition scheduleReconnect (st : State) : State * list event :=
  if MAX_RECONNECT_ATTEMPTS <=? reconnectAttempts st then
    (st, [Log LMaxReconnect])
  else
    let delay :=
      Qmin (BASE_RECONNECT_DELAY * (3 # 2) ^ Z.of_nat (reconnectAttempts st)) 30000 in
    (with_ws (wsConnected st) (reconnectAttempts st + 1) st, [Alarm delay]).

(** [ws.onclose] *)
Definition onclose (st : State) : State * list event :=
  let st := with_ws false (reconnectAttempts st) st in
  let '(st', evs) := scheduleReconnect st in
  (st', [ToPopup (PStatus false); Log LDisconnected] ++ evs).

(** *** 2b. Trigger rules *)

(** [handleRegisterTriggers(payload)]; [rules = None] is a payload whose
    [rules] is not an array. *)
Definition handleRegisterTriggers (rules : option (list Rule)) (st : State)
  : State * list event :=
  match rules with
  | None => (st, [Log LRegisterInvalid])
  | Some rules =>
      (with_rules rules ∅ st,
       Log (LRegistered (length rules)) :: map (fun r => Log (LRule r)) rules)
  end.

(** [fireRuleTrigger(ruleId)] *)
Definition fireRuleTrigger (ruleId : string) : list event :=
  [Log (LRuleTriggered ruleId); ToDesktop (RuleTriggered ruleId)].

(** The test of a criterion against the observation. *)
Definition rule_matches (url category : string) (c : Criteria) : bool :=
  if String.eqb (ctype c) "category" then String.eqb category (cvalue c)
  else if String.eqb (ctype c) "url_contains" then
    includes (toLowerCase url) (toLowerCase (cvalue c))
  else false.

(** The names that a plain object inherits from [Object.prototype].
    [triggeredRulesState] is such an object ([{}]), so for a key of
    this list without an own entry [triggeredRulesState[id]] is the
    inherited member: a truthy value with no [active] and no
    [lastTriggered]. *)
Definition OBJECT_PROTOTYPE_MEMBERS : list string :=
  [ "constructor"; "__defineGetter__"; "__defineSetter__"; "hasOwnProperty";
    "__lookupGetter__"; "__lookupSetter__"; "isPrototypeOf";
    "propertyIsEnumerable"; "toString"; "valueOf"; "__proto__";
    "toLocaleString" ].

Definition inherited (id : string) : bool :=
  existsb (String.eqb id) OBJECT_PROTOTYPE_MEMBERS.

(** What the first loop of [checkRulesAgainstUrl] carries from rule to
    rule: the state map, [matchedRuleIds], and the calls made. *)
Record rule_pass : Type := {
  rp_state : gmap string RuleState;
  rp_matched : gset string;
  rp_events : list event
}.

(** The body of the first loop for one rule.  Without an own entry,
    [state] is [undefined] and the rule fires, unless the id names an
    inherited member: then [state] is truthy, [state.active] is
    [undefined], [now - state.lastTriggered] is [NaN], and the rule
    ends in the branch that logs the cooldown. *)
Definition check_rule (now : Z) (url category : string)
    (acc : rule_pass) (rule : Rule) : rule_pass :=
  match rule_id rule, criteria rule with
  | Some id, Some c =>
      if String.eqb id "" then acc
      else if rule_matches url category c then
        let matched := {[ id ]} ∪ rp_matched acc in
        match rp_state acc !! id with
        | None =>
            if inherited id then
              {| rp_state := rp_state acc; rp_matched := matched;
                 rp_events := rp_events acc ++ [Log (LCooldownSkip id)] |}
            else
            {| rp_state := <[ id := {| active := true; lastTriggered := now |} ]> (rp_state acc);
               rp_matched := matched;
               rp_events := rp_events acc ++ fireRuleTrigger id |}
        | Some state =>
            if active state then
              {| rp_state := rp_state acc; rp_matched := matched;
                 rp_events := rp_events acc |}
            else if (RULE_COOLDOWN_MS <=? now - lastTriggered state)%Z then
              {| rp_state := <[ id := {| active := true; lastTriggered := now |} ]> (rp_state acc);
                 rp_matched := matched;
                 rp_events := rp_events acc ++ fireRuleTrigger id |}
            else
              {| rp_state := rp_state acc; rp_matched := matched;
                 rp_events := rp_events acc ++ [Log (LCooldownSkip id)] |}
        end
      else acc
  | _, _ => acc
  end.

(** The second loop: an entry that is active and whose id did not match
    becomes inactive. *)
Definition leaves (matched : gset string) (id : string) (s : RuleState) : bool :=
  negb (bool_decide (id ∈ matched)) && active s.

Definition mark_inactive (matched : gset string) (m : gmap string RuleState)
  : gmap string RuleState :=
  map_imap (fun id s =>
              Some (if leaves matched id s
                    then {| active := false; lastTriggered := lastTriggered s |}
                    else s)) m.

(** The log lines of the second loop, one per entry that went
    inactive (in the map's enumeration order). *)
Definition inactive_logs (matched : gset string) (m : gmap string RuleState)
  : list event :=
  omap (fun '(id, s) => if leaves matched id s
                        then Some (Log (LMarkedInactive id)) else None)
       (map_to_list m).

(** [checkRulesAgainstUrl(url, category)], with [now = Date.now()]. *)
Definition checkRulesAgainstUrl (now : Z) (url category : string) (st : State)
  : State * list event :=
  if length (registeredRules st) =? 0 then (st, [])
  else
    let p := foldl (check_rule now url category)
                   {| rp_state := triggeredRulesState st; rp_matched := ∅; rp_events := [] |}
                   (registeredRules st) in
    (with_rules (registeredRules st) (mark_inactive (rp_matched p) (rp_state p)) st,
     rp_events p ++ inactive_logs (rp_matched p) (rp_state p)).

(** *** 7. Kill switch *)

(** [handleKillSwitch()] *)
Definition handleKillSwitch (st : State) : State * list event :=
  (with_kill true st,
   [Log LKillSwitchActivated; ToPopup PKillSwitch; ToDesktop KillSwitchAck]).

(** *** 4. Prompt execution pipeline *)

(** The fields of an [execute_prompt] payload that the handler reads. *)
Record Payload : Type := {
  prompt : option string;
  text : option string;
  transaction_id : option string;
  transactionId : option string
}.

(** [a || b] on optional strings: absent and empty are falsy. *)
Definition str_or (a : option string) (b : string) : string :=
  match a with
  | Some s => if String.eqb s "" then b else s
  | None => b
  end.

(** How a call of [handlePromptExecution] ends. *)
Inductive prompt_end : Type :=
| RefusedKill
| NoPrompt
| Duplicate
| Accepted (txid : string).

(** [processedTxIds.add(id)] followed by the eviction of the oldest
    entry once the size exceeds 50. *)
Definition ledger_add (id : string) (ledger : list string) : list string :=
  let ledger := ledger ++ [id] in
  if 50 <? length ledger then tail ledger else ledger.

(** [handlePromptExecution(payload)].  [uuid] is the value of
    [crypto.randomUUID()], [platform] the stored [aiPlatform] setting
    (or 'chatgpt'), [inject_error] the message of the error thrown by
    [injectPromptIntoChatbot], if it throws. *)
Definition handlePromptExecution (uuid platform : string)
    (inject_error : option string) (payload : Payload) (st : State)
  : State * list event * prompt_end :=
  if killSwitchActive st then (st, [Log LBlockedKill], RefusedKill)
  else
    let userPrompt := str_or (prompt payload) (str_or (text payload) "") in
    if String.eqb userPrompt "" then (st, [Log LNoPrompt], NoPrompt)
    else
      let txid := str_or (transaction_id payload) (str_or (transactionId payload) uuid) in
      if bool_decide (txid ∈ processedTxIds st) then
        (st, [Log (LDuplicate txid)], Duplicate)
      else
        (with_ledger (ledger_add txid (processedTxIds st)) st,
         [ Log (LPromptReceived txid userPrompt);
           ToPopup (PExecutionStart txid userPrompt);
           ToDesktop (ExecutionStatus (VStr txid) Planning);
           Log (LPlatform platform);
           InjectPrompt platform txid userPrompt ] ++
         match inject_error with
         | None => []
         | Some msg =>
             [ Log (LInjectError msg);
               ToDesktop (ExecutionStatus (VStr txid) (StatusError (LInjectError msg))) ]
         end,
         Accepted txid).

(** *** 6. Browser action executor *)

(** What the surroundings do while [steps[i]] runs: [throws] is the
    message of the error the browser call raises, if any; [kill_arrives]
    tells whether a [kill_switch] message is handled while the step is
    suspended in an [await].  Besides this handler only another run of
    the executor touches what the loop reads ([currentExecution]):
    [run_loop] below is the loop of a run that no other run overlaps,
    and [Overlap.run_loop] the loop among other runs, which nothing in
    the code excludes. *)
Record step_env : Type := {
  throws : option string;
  kill_arrives : bool
}.

(** How a call of [executeBrowserPlan] ends: the loop ran out, the kill
    switch stopped it before [steps[i]], or an exception left the
    function at iteration [i], outside the [try]: the read of the
    [action] of a [null] step or, among other runs, the write of
    [currentExecution.currentStep]. *)
Inductive run_end : Type :=
| RunCompleted
| RunKilled (i : nat)
| RunCrashed (i : nat) (e : exn).

Definition BROWSER_CALLS : list string :=
  [ "click_element"; "type_into"; "press_key"; "scroll_to"; "select_option";
    "go_back"; "go_forward"; "refresh"; "close_tab" ].

(** The [switch (step.action)] inside the [try], for a step whose
    [params] is an object: the calls made and the message of the error
    thrown, if one is.  [open_url] throws by itself when [params.url] is
    missing; [wait] only sleeps; an action without a [case] is logged
    and skipped. *)
Definition run_action (i : nat) (step action : value) (o : step_env)
  : list event * option string :=
  if is_str action "open_url" then
    if truthy (get_opt (get_opt step "params") "url")
    then ([Dispatch i step], throws o)
    else ([], Some "Missing url param")
  else if is_str action "wait" then ([], None)
  else if includes_value BROWSER_CALLS action then ([Dispatch i step], throws o)
  else ([Log (LUnknownAction action)], None).

(** [currentExecution.currentStep = i] *)
Definition at_step (i : nat) (e : Execution) : Execution :=
  {| exec_transactionId := exec_transactionId e;
     exec_steps := exec_steps e;
     currentStep := i |}.

(** The part of one iteration after the kill-switch test. *)
Definition run_step (o : step_env) (transactionId : value) (total i : nat)
    (step action : value) (st : State) : State * list event :=
  let st := with_execution (at_step i <$> currentExecution st) st in
  let before :=
    [ Log (LStep (i + 1) total action);
      ToPopup (PStepExecuting i total action (get_opt step "params"));
      ToDesktop (ExecutionStatus transactionId (StepStatus (i + 1) total action)) ] in
  let '(calls, err) := run_action i step action o in
  let '(st, interleaved) :=
    if kill_arrives o then handleKillSwitch st else (st, []) in
  let after :=
    match err with
    | None => [ToPopup (PStepComplete i true None)]
    | Some msg => [Log (LStepFailed (i + 1) msg);
                   ToPopup (PStepComplete i false (Some msg))]
    end in
  (st, before ++ calls ++ interleaved ++ after).

(** The events of a halt by the kill switch before [steps[i]]. *)
Definition killed_events (transactionId : value) (total i : nat) : list event :=
  [ Log LHaltedByKill;
    ToDesktop (ExecutionStatus transactionId (Killed (i + 1) total));
    ToPopup (PExecutionKilled i) ].

(** The events after the loop. *)
Definition completed_events (transactionId : value) (total : nat) : list event :=
  [ Log (LAllExecuted total);
    ToDesktop (ExecutionResult transactionId total);
    ToPopup (PExecutionComplete transactionId) ].

(** The [for] loop from index [i] on, over the steps still to run, in a
    run that no other run of the executor overlaps: [currentExecution]
    is then the record that [executeBrowserPlan] created. *)
Fixpoint run_loop (env : nat -> step_env) (transactionId : value) (total i : nat)
    (steps : list value) (st : State) : State * list event * run_end :=
  match steps with
  | [] =>
      (with_execution None st, completed_events transactionId total, RunCompleted)
  | step :: rest =>
      if killSwitchActive st then
        (with_execution None st, killed_events transactionId total i, RunKilled i)
      else
        match get step "action" with
        | Throw e =>
            (with_execution (at_step i <$> currentExecution st) st, [], RunCrashed i e)
        | Ok action =>
            let '(st, evs) := run_step (env i) transactionId total i step action st in
            let '(st, evs', r) := run_loop env transactionId total (S i) rest st in
            (st, evs ++ evs', r)
        end
  end.

(** [executeBrowserPlan(transactionId, steps)] *)
Definition executeBrowserPlan (env : nat -> step_env) (transactionId : value)
    (steps : list value) (st : State) : State * list event * run_end :=
  let st := with_execution
              (Some {| exec_transactionId := transactionId;
                       exec_steps := steps; currentStep := 0 |}) st in
  run_loop env transactionId (length steps) 0 steps st.

(** *** 5. Chatbot response handling *)

Definition browserActions : list string :=
  [ "open_url"; "click_element"; "type_into"; "press_key"; "wait";
    "scroll_to"; "select_option"; "read_text"; "go_back"; "go_forward";
    "refresh"; "close_tab" ].

(** How a call of [handleChatbotResponse] ends. *)
Inductive pipeline_end : Type :=
| ParseFailed
| Invalid (errs : list validation_error)
| Unsafe (viol : list violation)
| Rejected (e : exn)          (* an exception left the async function *)
| NothingToRun
| Ran (r : run_end).

(** [handleChatbotResponse(responseText, transactionId)] from the value
    [parsed] that [extractJSON(responseText)] returned ([VNull] when it
    found no JSON); [transactionId] is [VUndef] when the message has
    none.  The two [filter]s read [s.action] of steps that
    [validatePlan] has read before. *)
Definition handleChatbotResponse (uuid : string) (env : nat -> step_env)
    (parsed transactionId : value) (st : State)
  : State * list event * pipeline_end :=
  let intro := [Log (LChatbotResponse transactionId); ToPopup PChatbotRaw] in
  if negb (truthy parsed) then
    (st, intro ++ [ Log LCouldNotExtract;
                    ToDesktop (ExecutionStatus transactionId (StatusError LCouldNotExtract));
                    ToPopup (PExecutionError LCouldNotExtract) ], ParseFailed)
  else
    match (parsed ← set parsed "transaction_id"
                       (or_else transactionId (get_opt parsed "transaction_id"));
           validatePlan uuid parsed) with
    | Throw e => (st, intro, Rejected e)
    | Ok validation =>
        if negb (valid validation) then
          let reason := LValidationErrors (errors validation) in
          (st, intro ++ [ Log reason;
                          ToDesktop (ExecutionStatus transactionId (StatusError reason));
                          ToPopup (PExecutionError reason) ],
           Invalid (errors validation))
        else
            match runSafetyCheck (vplan validation) with
            | Throw e => (st, intro, Rejected e)
            | Ok safetyResult =>
                if negb (safe safetyResult) then
                  let viol := violations safetyResult in
                  (st, intro ++ [ Log (LSafetyBlocked viol);
                                  ToDesktop (ExecutionStatus transactionId (Blocked viol));
                                  ToPopup (PExecutionBlocked viol) ], Unsafe viol)
                else
                  let steps := match get_opt (splan safetyResult) "steps" with
                               | VArr l => l
                               | _ => []
                               end in
                  let is_browser s := includes_value browserActions (get_opt s "action") in
                  let browserSteps := filter (fun s => is_browser s = true) steps in
                  let desktopSteps := filter (fun s => is_browser s = false) steps in
                  let validated :=
                    [ Log (LPlanValidated (length steps));
                      ToPopup (PPlanValidated (splan safetyResult)) ] in
                  let forwarded :=
                    if 0 <? length desktopSteps then
                      [ Log (LSendingDesktopSteps (length desktopSteps));
                        ToDesktop (ExecuteDesktopActions transactionId desktopSteps) ]
                    else [] in
                  if 0 <? length browserSteps then
                    let '(st, evs, r) :=
                      executeBrowserPlan env transactionId browserSteps st in
                    (st, intro ++ validated ++ forwarded ++
                         [ Log (LExecutingBrowserSteps (length browserSteps));
                           ToDesktop (ExecutionStatus transactionId
                                        (Executing (length browserSteps))) ] ++ evs,
                     Ran r)
                  else (st, intro ++ validated ++ forwarded, NothingToRun)
            end
    end.

(** *** 3. Message handlers *)

(** What reaches the worker: socket callbacks, the messages of the
    desktop agent and of the popup, and a URL observation. *)
Inductive input : Type :=
| WsOpen
| WsClose
| KillSwitchMsg
| ExecutePrompt (uuid platform : string) (inject_error : option string) (payload : Payload)
| RegisterTriggers (rules : option (list Rule))
| UrlObserved (now : Z) (url category : string)
| ChatbotResponse (uuid : string) (env : nat -> step_env) (parsed transactionId : value).

Definition handle (st : State) (i : input) : State * list event :=
  match i with
  | WsOpen => onopen st
  | WsClose => onclose st
  | KillSwitchMsg => handleKillSwitch st
  | ExecutePrompt uuid platform inject_error payload =>
      fst (handlePromptExecution uuid platform inject_error payload st)
  | RegisterTriggers rules => handleRegisterTriggers rules st
  | UrlObserved now url category => checkRulesAgainstUrl now url category st
  | ChatbotResponse uuid env parsed transactionId =>
      fst (handleChatbotResponse uuid env parsed transactionId st)
  end.

(** The worker on a sequence of inputs. *)
Fixpoint run (st : State) (ins : list input) : State * list event :=
  match ins with
  | [] => (st, [])
  | i :: rest =>
      let '(st, evs) := handle st i in
      let '(st, evs') := run st rest in
      (st, evs ++ evs')
  end.

End Background.

(** ** background.js: runs of the executor that overlap *)

Module Overlap.
Import Js Schema Background.

(** [handleChatbotResponse] is started for every [chatbot_response]
    message and not awaited, and [executeBrowserPlan] does not look at
    [currentExecution] before it starts: while a step of one run is
    suspended, other runs can start ([currentExecution = { ... }]) and
    end ([currentExecution = null]).  [others i] is what they leave in
    [currentExecution] while [steps[i]] of this run is suspended:
    [None] when none of them writes it, [Some None] when the last write
    is that of a run that ended, [Some (Some e)] when it is the record
    of a run that started. *)
Definition writes : Type := nat -> option (option Execution).

Definition overwrite (w : option (option Execution)) (st : State) : State :=
  match w with
  | Some e => with_execution e st
  | None => st
  end.

(** What [currentExecution.currentStep = i] throws when
    [currentExecution] is [null]. *)
Definition null_execution : exn :=
  TypeError "Cannot set properties of null (setting 'currentStep')".

(** The [for] loop from index [i] on.  After the kill-switch test,
    [currentExecution.currentStep = i] throws when [currentExecution]
    is [null]; the statement is outside the [try]. *)
Fixpoint run_loop (others : writes) (env : nat -> step_env) (transactionId : value)
    (total i : nat) (steps : list value) (st : State) : State * list event * run_end :=
  match steps with
  | [] =>
      (with_execution None st, completed_events transactionId total, RunCompleted)
  | step :: rest =>
      if killSwitchActive st then
        (with_execution None st, killed_events transactionId total i, RunKilled i)
      else
        match currentExecution st with
        | None => (st, [], RunCrashed i null_execution)
        | Some _ =>
            match get step "action" with
            | Throw e =>
                (with_execution (at_step i <$> currentExecution st) st, [], RunCrashed i e)
            | Ok action =>
                let '(st, evs) := run_step (env i) transactionId total i step action st in
                let st := overwrite (others i) st in
                let '(st, evs', r) := run_loop others env transactionId total (S i) rest st in
                (st, evs ++ evs', r)
            end
        end
  end.

(** [executeBrowserPlan(transactionId, steps)] among other runs. *)
Definition executeBrowserPlan (others : writes) (env : nat -> step_env)
    (transactionId : value) (steps : list value) (st : State)
  : State * list event * run_end :=
  let st := with_execution
              (Some {| exec_transactionId := transactionId;
                       exec_steps := steps; currentStep := 0 |}) st in
  run_loop others env transactionId (length steps) 0 steps st.

(** [handleChatbotResponse(responseText, transactionId)] among other
    runs: [Background.handleChatbotResponse] with the run it awaits
    open to them. *)
Definition handleChatbotResponse (others : writes) (uuid : string)
    (env : nat -> step_env) (parsed transactionId : value) (st : State)
  : State * list event * pipeline_end :=
  let intro := [Log (LChatbotResponse transactionId); ToPopup PChatbotRaw] in
  if negb (truthy parsed) then
    (st, intro ++ [ Log LCouldNotExtract;
                    ToDesktop (ExecutionStatus transactionId (StatusError LCouldNotExtract));
                    ToPopup (PExecutionError LCouldNotExtract) ], ParseFailed)
  else
    match (parsed ← set parsed "transaction_id"
                       (or_else transactionId (get_opt parsed "transaction_id"));
           validatePlan uuid parsed) with
    | Throw e => (st, intro, Rejected e)
    | Ok validation =>
        if negb (valid validation) then
          let reason := LValidationErrors (errors validation) in
          (st, intro ++ [ Log reason;
                          ToDesktop (ExecutionStatus transactionId (StatusError reason));
                          ToPopup (PExecutionError reason) ],
           Invalid (errors validation))
        else
            match runSafetyCheck (vplan validation) with
            | Throw e => (st, intro, Rejected e)
            | Ok safetyResult =>
                if negb (safe safetyResult) then
                  let viol := violations safetyResult in
                  (st, intro ++ [ Log (LSafetyBlocked viol);
                                  ToDesktop (ExecutionStatus transactionId (Blocked viol));
                                  ToPopup (PExecutionBlocked viol) ], Unsafe viol)
                else
                  let steps := match get_opt (splan safetyResult) "steps" with
                               | VArr l => l
                               | _ => []
                               end in
                  let is_browser s := includes_value browserActions (get_opt s "action") in
                  let browserSteps := filter (fun s => is_browser s = true) steps in
                  let desktopSteps := filter (fun s => is_browser s = false) steps in
                  let validated :=
                    [ Log (LPlanValidated (length steps));
                      ToPopup (PPlanValidated (splan safetyResult)) ] in
                  let forwarded :=
                    if 0 <? length desktopSteps then
                      [ Log (LSendingDesktopSteps (length desktopSteps));
                        ToDesktop (ExecuteDesktopActions transactionId desktopSteps) ]
                    else [] in
                  if 0 <? length browserSteps then
                    let '(st, evs, r) :=
                      executeBrowserPlan others env transactionId browserSteps st in
                    (st, intro ++ validated ++ forwarded ++
                         [ Log (LExecutingBrowserSteps (length browserSteps));
                           ToDesktop (ExecutionStatus transactionId
                                        (Executing (length browserSteps))) ] ++ evs,
                     Ran r)
                  else (st, intro ++ validated ++ forwarded, NothingToRun)
            end
    end.

End Overlap.

(** ** Reading results and traces *)

Module Observe.
Import Js Schema Background.

(** [v] is neither [null] nor [undefined]. *)
Definition non_null (v : value) : bool :=
  match v with
  | VUndef | VNull => false
  | _ => true
  end.

(** [v] is an object in the sense of [typeof]: a record or an array. *)
Definition is_object (v : value) : bool :=
  match v with
  | VObj _ | VArr _ => true
  | _ => false
  end.

(** [v] is a record [{ ... }]. *)
Definition is_record (v : value) : bool :=
  match v with
  | VObj _ => true
  | _ => false
  end.

(** The array that [validatePlan] takes as the steps of [plan]:
    [plan.steps || plan.actions], when that is an array. *)
Definition plan_steps (plan : value) : option (list value) :=
  match or_else (get_opt plan "steps") (get_opt plan "actions") with
  | VArr steps => Some steps
  | _ => None
  end.

(** A step with an action of the allowed set and an object as params. *)
Definition well_formed_step (step : value) : bool :=
  includes_value ALLOWED_ACTIONS (get_opt step "action")
  && is_object (get_opt step "params").

(** The errors that the specification lists for step number [n]. *)
Definition step_errors (n : nat) (step : value) : list validation_error :=
  let action := get_opt step "action" in
  let params := get_opt step "params" in
  if negb (truthy action) then [EMissingAction n]
  else (if includes_value ALLOWED_ACTIONS action then [] else [EUnknownAction n action]) ++
       (if is_object params then [] else [EInvalidParams n]).

(** The errors of the steps from number [i + 1] on, step by step. *)
Fixpoint steps_errors (i : nat) (steps : list value) : list validation_error :=
  match steps with
  | [] => []
  | step :: rest => step_errors (i + 1) step ++ steps_errors (S i) rest
  end.

(** [parsed.transaction_id = transactionId || parsed.transaction_id],
    the assignment that precedes [validatePlan] in the pipeline. *)
Definition stamp (parsed transactionId : value) : res value :=
  set parsed "transaction_id"
      (or_else transactionId (get_opt parsed "transaction_id")).

(** The two calls that open [handleChatbotResponse]. *)
Definition chatbot_intro (transactionId : value) : list event :=
  [Log (LChatbotResponse transactionId); ToPopup PChatbotRaw].

(** The serialized parameters of a step, in lower case. *)
Definition params_text (step : value) : string :=
  toLowerCase (default "" (stringify (or_else (get_opt step "params") (VObj [])))).

(** The denylisted keywords that the serialized parameters contain. *)
Definition hits (step : value) : list string :=
  List.filter (includes (params_text step)) DESTRUCTIVE_KEYWORDS.

Definition has_hit (step : value) : bool :=
  negb (length (hits step) =? 0).

(** One violation per keyword hit of the steps from number [i + 1] on. *)
Fixpoint steps_violations (i : nat) (steps : list value) : list violation :=
  match steps with
  | [] => []
  | step :: rest =>
      map (Violation (i + 1)) (hits step) ++ steps_violations (S i) rest
  end.

(** A step as the safety check leaves it: blocked on a hit, untouched
    when it came in blocked, passed otherwise. *)
Definition marked (step : value) : value :=
  match step with
  | VObj fields =>
      if has_hit step then VObj (update_field "safety_check" (VStr "blocked") fields)
      else if is_str (lookup_field "safety_check" fields) "blocked" then step
      else VObj (update_field "safety_check" (VStr "passed") fields)
  | _ => step
  end.

(** A one-step plan whose step comes in marked blocked, with harmless
    parameters. *)
Definition preblocked_plan : value :=
  VObj [("steps",
         VArr [VObj [("action", VStr "wait");
                     ("params", VObj [("ms", VNum 1000)]);
                     ("safety_check", VStr "blocked")]])].

(** A two-step plan whose first step asks to click "Delete account". *)
Definition unsafe_plan : value :=
  VObj [("steps",
         VArr [VObj [("action", VStr "click_element");
                     ("params", VObj [("target", VStr "Delete account")])];
               VObj [("action", VStr "wait");
                     ("params", VObj [("ms", VNum 500)]);
                     ("safety_check", VStr "pending")]])].

(** A plan of eleven steps under the [actions] key. *)
Definition eleven_steps_plan : value :=
  VObj [("actions",
         VArr (replicate 11 (VObj [("action", VStr "wait");
                                   ("params", VObj [("ms", VNum 100)])])))].

(** A plan whose only step is [null]. *)
Definition null_step_plan : value := VObj [("steps", VArr [VNull])].

(** The steps of a plan, as an array. *)
Definition steps_of (plan : value) : list value :=
  match get_opt plan "steps" with
  | VArr l => l
  | _ => []
  end.

(** The [safety_check] mark of the [i]-th step of a plan. *)
Definition mark_of (plan : value) (i : nat) : value :=
  get_opt (default VUndef (steps_of plan !! i)) "safety_check".

(** The indices of the steps a trace starts ([step_executing]). *)
Definition attempted (evs : list event) : list nat :=
  omap (fun e => match e with
                 | ToPopup (PStepExecuting i _ _ _) => Some i
                 | _ => None
                 end) evs.

(** The indices of the steps a trace reports as failed. *)
Definition failed (evs : list event) : list nat :=
  omap (fun e => match e with
                 | ToPopup (PStepComplete i false _) => Some i
                 | _ => None
                 end) evs.

(** The browser calls of a trace. *)
Definition dispatched (evs : list event) : list nat :=
  omap (fun e => match e with
                 | Dispatch i _ => Some i
                 | _ => None
                 end) evs.

(** The [steps_executed] of the terminal [completed] results of a trace. *)
Definition completed (evs : list event) : list nat :=
  omap (fun e => match e with
                 | ToDesktop (ExecutionResult _ n) => Some n
                 | _ => None
                 end) evs.

(** The [killed] statuses of a trace: step number and total, as the
    message prints them. *)
Definition killed (evs : list event) : list (nat * nat) :=
  omap (fun e => match e with
                 | ToDesktop (ExecutionStatus _ (Killed n total)) => Some (n, total)
                 | _ => None
                 end) evs.

(** The delays of the reconnect alarms of a trace. *)
Definition alarms (evs : list event) : list Q :=
  omap (fun e => match e with
                 | Alarm d => Some d
                 | _ => None
                 end) evs.

(** The transaction ids handed to the chatbot in a trace. *)
Definition injected (evs : list event) : list string :=
  omap (fun e => match e with
                 | InjectPrompt _ txid _ => Some txid
                 | _ => None
                 end) evs.

(** The ids of the rules a trace fires. *)
Definition fired (evs : list event) : list string :=
  omap (fun e => match e with
                 | ToDesktop (RuleTriggered id) => Some id
                 | _ => None
                 end) evs.

(** The iterations of the executor's loop for [steps], from index [i],
    when no kill-switch test stops them: the state and the calls they
    leave behind. *)
Fixpoint iterations (env : nat -> step_env) (transactionId : value) (total i : nat)
    (steps : list value) (st : State) : State * list event :=
  match steps with
  | [] => (st, [])
  | step :: rest =>
      let '(st, evs) :=
        run_step (env i) transactionId total i step (get_opt step "action") st in
      let '(st, evs') := iterations env transactionId total (S i) rest st in
      (st, evs ++ evs')
  end.

(** The message of the error that [steps[i]] throws under [env], if it
    throws. *)
Definition step_error (env : nat -> step_env) (i : nat) (step : value) : option string :=
  snd (run_action i step (get_opt step "action") (env i)).

(** The indices, from [i] on, of the steps that throw. *)
Fixpoint failing (env : nat -> step_env) (i : nat) (steps : list value) : list nat :=
  match steps with
  | [] => []
  | step :: rest =>
      match step_error env i step with
      | Some _ => [i] ++ failing env (S i) rest
      | None => failing env (S i) rest
      end
  end.

(** The kill-switch flag as the test before [steps[k]] finds it, in a
    run started in [st]: set at the start, or by a message handled while
    one of the steps before [k] was suspended. *)
Definition flag_before (env : nat -> step_env) (st : State) (k : nat) : bool :=
  killSwitchActive st || existsb (fun j => kill_arrives (env j)) (seq 0 k).

(** The state in which [executeBrowserPlan] enters its loop. *)
Definition entering (transactionId : value) (steps : list value) (st : State) : State :=
  with_execution (Some {| exec_transactionId := transactionId;
                          exec_steps := steps; currentStep := 0 |}) st.

(** An [execute_prompt] payload with a prompt and a transaction id. *)
Definition request (id prompt : string) : Payload :=
  {| prompt := Some prompt; text := None;
     transaction_id := Some id; transactionId := None |}.

(** Three browser steps of a validated plan. *)
Definition sample_steps : list value :=
  [ VObj [("action", VStr "open_url");
          ("params", VObj [("url", VStr "https://example.com/")]);
          ("safety_check", VStr "passed")];
    VObj [("action", VStr "click_element");
          ("params", VObj [("target", VStr "Sign in")]);
          ("safety_check", VStr "passed")];
    VObj [("action", VStr "type_into");
          ("params", VObj [("target", VStr "Email"); ("text", VStr "a@b.c")]);
          ("safety_check", VStr "passed")] ].

(** The second step's browser call throws; no kill arrives. *)
Definition failing_second (i : nat) : step_env :=
  {| throws := if i =? 1 then Some "Element not found" else None;
     kill_arrives := false |}.

(** A [kill_switch] message is handled while the second step runs. *)
Definition kill_during_second (i : nat) : step_env :=
  {| throws := None; kill_arrives := i =? 1 |}.

(** [n] distinct transaction ids. *)
Definition sample_ids (n : nat) : list string :=
  map (fun k => "id-" +:+ String (ascii_of_nat (33 + k)) EmptyString) (seq 0 n).

(** An observation of the rule engine: the time, the URL and its
    category. *)
Definition observe (o : Z * string * string) : input :=
  UrlObserved o.1.1 o.1.2 o.2.

(** A rule on a category. *)
Definition category_rule (id category : string) : Rule :=
  {| rule_id := Some id;
     criteria := Some {| ctype := "category"; cvalue := category |} |}.

(** A visit of a social site at time 0, a departure after 100 s and a
    return one second later, under one rule on the category. *)
Definition return_after_long_visit : list input :=
  [ UrlObserved 0 "https://youtube.com/" "social";
    UrlObserved 100000 "https://example.com/" "other";
    UrlObserved 101000 "https://youtube.com/" "social" ].

(** The delay of the [k]-th consecutive reconnect attempt, as the
    specification gives it: [min(base * 1.5^(k-1), ceiling)]. *)
Definition backoff (k : nat) : Q :=
  Qmin (2000 * (3 # 2) ^ (Z.of_nat k - 1)) 30000.

End Observe.

(** ** background.js: the URL monitor *)

Module Monitor.
Import Js Schema Background.

(** [URL_CATEGORIES], in the order of [Object.entries]. *)
Definition URL_CATEGORIES : list (string * list string) :=
  [ ("meeting",
     [ "meet.google.com"; "zoom.us"; "zoom.com"; "teams.microsoft.com";
       "teams.live.com"; "webex.com"; "gotomeeting.com";
       "whereby.com"; "discord.com" ]);
    ("social",
     [ "youtube.com"; "instagram.com"; "twitter.com"; "x.com";
       "facebook.com"; "reddit.com"; "tiktok.com"; "linkedin.com" ]);
    ("productivity",
     [ "gmail.com"; "mail.google.com"; "drive.google.com";
       "docs.google.com"; "sheets.google.com"; "slides.google.com";
       "notion.so"; "trello.com"; "slack.com" ]);
    ("ai",
     [ "chatgpt.com"; "chat.openai.com"; "gemini.google.com";
       "claude.ai"; "copilot.microsoft.com"; "poe.com" ]) ].

(** [s.endsWith(p)] *)
Fixpoint ends_with (s p : string) : bool :=
  String.eqb s p ||
  match s with
  | EmptyString => false
  | String _ s' => ends_with s' p
  end.

(** [hostname.replace(/^www\./, '')] *)
Definition strip_www (hostname : string) : string :=
  match hostname with
  | String "w" (String "w" (String "w" (String "." rest))) => rest
  | _ => hostname
  end.

(** [hostname === d || hostname.endsWith('.' + d)] *)
Definition domain_matches (hostname d : string) : bool :=
  String.eqb hostname d || ends_with hostname ("." +:+ d).

(** The body of the [try] of [categorizeUrl] for a URL whose hostname
    is [hostname]: the first category with a matching domain. *)
Definition categorizeHost (hostname : string) : string :=
  let hostname := strip_www hostname in
  match List.find (fun entry => existsb (domain_matches hostname) (snd entry))
                  URL_CATEGORIES with
  | Some entry => fst entry
  | None => "other"
  end.

(** [categorizeUrl(url)], from [host = new URL(url).hostname]; [None]
    stands for a URL on which the constructor throws. *)
Definition categorizeUrl (host : option string) : string :=
  match host with
  | Some hostname => categorizeHost hostname
  | None => "other"
  end.

(** The worker's variables together with [lastReportedUrl]. *)
Record Monitor : Type := {
  lastReportedUrl : string;
  worker : State
}.

(** The calls of [handleUrlChange]: the [url_trigger] message to the
    desktop agent and to the popup (their [timestamp] is left out), the
    log line, and the calls of the rule check. *)
Inductive url_event : Type :=
| UrlToDesktop (url domain category : string)
| UrlToPopup (url domain category : string)
| UrlLog (domain category : string)
| RuleEvent (e : event).

(** The test that opens [handleUrlChange]:
    [!url || url === lastReportedUrl || url.startsWith('chrome://')
     || url.startsWith('chrome-extension://')]. *)
Definition ignored (url : string) (m : Monitor) : bool :=
  String.eqb url "" || String.eqb url (lastReportedUrl m)
  || starts_with url "chrome://" || starts_with url "chrome-extension://".

(** [handleUrlChange(tabId, url)], with [now = Date.now()] and [host]
    as for [categorizeUrl].  The third component is the exception that
    leaves the function: the second [new URL(url)] is outside any
    [try]. *)
Definition handleUrlChange (now : Z) (url : string) (host : option string)
    (m : Monitor) : Monitor * list url_event * option exn :=
  if ignored url m then (m, [], None)
  else
    let category := categorizeUrl host in
    match host with
    | None =>
        ({| lastReportedUrl := url; worker := worker m |}, [],
         Some (TypeError "Invalid URL"))
    | Some domain =>
        let '(st, evs) := checkRulesAgainstUrl now url category (worker m) in
        ({| lastReportedUrl := url; worker := st |},
         [ UrlToDesktop url domain category;
           UrlToPopup url domain category;
           UrlLog domain category ] ++ map RuleEvent evs,
         None)
    end.

End Monitor.

(** ** schema.js: extractJSON *)

Module Extract.
Import Js.

(** [s.slice(n)] *)
Fixpoint drop_chars (n : nat) (s : string) : string :=
  match n, s with
  | S n', String _ s' => drop_chars n' s'
  | _, _ => s
  end.

(** The first occurrence of [p] in [s]: what precedes it and what
    follows it. *)
Fixpoint split_on (p s : string) : option (string * string) :=
  if starts_with s p then Some (EmptyString, drop_chars (String.length p) s)
  else
    match s with
    | EmptyString => None
    | String c s' =>
        match split_on p s' with
        | Some (a, b) => Some (String c a, b)
        | None => None
        end
    end.

(** The white space of [trim] and of [\s] within ASCII: space, tab,
    line feed, vertical tab, form feed, carriage return. *)
Definition is_space (c : ascii) : bool :=
  let n := nat_of_ascii c in
  (n =? 32) || ((9 <=? n) && (n <=? 13)).

Fixpoint trim_start (s : string) : string :=
  match s with
  | EmptyString => EmptyString
  | String c s' => if is_space c then trim_start s' else s
  end.

Fixpoint trim_end (s : string) : string :=
  match s with
  | EmptyString => EmptyString
  | String c s' =>
      match trim_end s' with
      | EmptyString => if is_space c then EmptyString else String c EmptyString
      | t => String c t
      end
  end.

(** [s.trim()] *)
Definition trim (s : string) : string := trim_end (trim_start s).

(** The text after an optional [json] label. *)
Definition skip_label (s : string) : string :=
  if starts_with s "json" then drop_chars 4 s else s.

(** [responseText.match(/```(?:json)?\s*\n?([\s\S]*?)\n?```/)[1].trim()]:
    the match starts at the first fence, the lazy group ends before the
    next one, and what [\s*] and the two [\n?] take off the text in
    between is white space that [trim] removes as well.  [None] when
    there is no match. *)
Definition fence_candidate (text : string) : option string :=
  match split_on "```" text with
  | None => None
  | Some (_, after) =>
      match split_on "```" (skip_label after) with
      | None => None
      | Some (body, _) => Some (trim body)
      end
  end.

(** The longest prefix of [s] that ends with a closing brace. *)
Fixpoint upto_last_brace (s : string) : option string :=
  match s with
  | EmptyString => None
  | String c s' =>
      match upto_last_brace s' with
      | Some t => Some (String c t)
      | None => if Ascii.eqb c "}" then Some (String c EmptyString) else None
      end
  end.

(** [responseText.match(/\{[\s\S]*\}/)[0]]: from the first opening
    brace to the last closing brace after it. *)
Definition brace_candidate (text : string) : option string :=
  match split_on "{" text with
  | None => None
  | Some (_, rest) =>
      match upto_last_brace rest with
      | Some t => Some ("{" +:+ t)
      | None => None
      end
  end.

Section ExtractJSON.

(** [JSON.parse]; [None] when it throws. *)
Variable parse : string -> option value.

(** [extractJSON(responseText)] *)
Definition extractJSON (responseText : string) : value :=
  if String.eqb responseText "" then VNull
  else
    match fence_candidate responseText ≫= parse with
    | Some v => v
    | None =>
        match brace_candidate responseText ≫= parse with
        | Some v => v
        | None => VNull
        end
    end.

End ExtractJSON.

End Extract.

(** ** Further readings of results and traces *)

Module Readings.
Import Js Schema Background Observe Monitor Extract.

(** The step lists handed to the desktop agent in a trace
    ([execute_desktop_actions]). *)
Definition forwarded (evs : list event) : list (list value) :=
  omap (fun e => match e with
                 | ToDesktop (ExecuteDesktopActions _ steps) => Some steps
                 | _ => None
                 end) evs.


(** The characters of the denylisted keywords: the letters a-z and the
    space. *)
Definition keyword_char (c : ascii) : bool :=
  let n := nat_of_ascii c in
  (n =? 32) || ((97 <=? n) && (n <=? 122)).

Fixpoint keyword_chars (s : string) : bool :=
  match s with
  | EmptyString => true
  | String c s' => keyword_char c && keyword_chars s'
  end.

(** The allowed actions that the executor's [switch] sends to its
    [default] branch. *)
Definition without_case (i : nat) (step : value) (o : step_env) : list string :=
  List.filter (fun a => match fst (run_action i step (VStr a) o) with
                        | [Log (LUnknownAction _)] => true
                        | _ => false
                        end) ALLOWED_ACTIONS.

(** What the first loop of [checkRulesAgainstUrl] keeps true of the ids
    it has fired: each once, each left active with the time of the
    observation, each among the matched ids. *)
Definition fired_ok (now : Z) (acc : rule_pass) : Prop :=
  NoDup (fired (rp_events acc)) /\
  forall i, In i (fired (rp_events acc)) ->
    rp_state acc !! i = Some {| active := true; lastTriggered := now |} /\
    i ∈ rp_matched acc.

(** Every entry of the rule-state map is keyed by the id of a
    registered rule. *)
Definition keys_registered (st : State) : Prop :=
  forall i, is_Some (triggeredRulesState st !! i) ->
            exists r, In r (registeredRules st) /\ rule_id r = Some i.

(** A step that types a harmless question holding the word "RESET". *)
Definition search_fields : list (string * value) :=
  [("action", VStr "type_into");
   ("params", VObj [("target", VStr "Search");
                    ("text", VStr "How to RESET a router")])].

(** [s] holds the character [c]. *)
Fixpoint has_char (c : ascii) (s : string) : bool :=
  match s with
  | EmptyString => false
  | String d s' => Ascii.eqb c d || has_char c s'
  end.

(** The domains of two different categories never cover one another:
    no one is the other or a subdomain of it. *)
Definition categories_apart : bool :=
  forallb (fun e =>
    forallb (fun d =>
      forallb (fun e' =>
        String.eqb (fst e) (fst e') ||
        forallb (fun d' => negb (ends_with ("." +:+ d) ("." +:+ d'))
                           && negb (ends_with ("." +:+ d') ("." +:+ d)))
                (snd e'))
        URL_CATEGORIES)
      (snd e))
    URL_CATEGORIES.

(** The ids of the rules that a URL change fires. *)
Definition url_fired (evs : list url_event) : list string :=
  fired (omap (fun e => match e with
                        | RuleEvent x => Some x
                        | _ => None
                        end) evs).

(** A JSON parser that knows one text. *)
Definition parse_only (text : string) (v : value) (s : string) : option value :=
  if String.eqb s text then Some v else None.

(** No other run writes [currentExecution]. *)
Definition nobody : Overlap.writes := fun _ => None.

(** Another run of the executor ends while [steps[k]] is suspended. *)
Definition ends_during (k : nat) : Overlap.writes :=
  fun i => if i =? k then Some None else None.

(** Another run of the executor starts while [steps[k]] is suspended
    and is still running when the step resumes. *)
Definition starts_during (k : nat) : Overlap.writes :=
  fun i =>
    if i =? k then
      Some (Some {| exec_transactionId := VStr "other"; exec_steps := [];
                    currentStep := 0 |})
    else None.

(** No run that ends is the last to write [currentExecution] during a
    suspension of the steps before number [n]. *)
Definition never_cleared (others : Overlap.writes) (n : nat) : Prop :=
  forall j, j < n -> others j <> Some None.

(** A click that finds no element, a wait of five seconds and an
    input. *)
Definition overlapped_steps : list value :=
  [ VObj [("action", VStr "click_element");
          ("params", VObj [("target", VStr "Sign in")]);
          ("safety_check", VStr "passed")];
    VObj [("action", VStr "wait");
          ("params", VObj [("ms", VNum 5000)]);
          ("safety_check", VStr "passed")];
    VObj [("action", VStr "type_into");
          ("params", VObj [("target", VStr "Email"); ("text", VStr "a@b.c")]);
          ("safety_check", VStr "passed")] ].

(** The first step's browser call throws; no kill arrives. *)
Definition failing_first (i : nat) : step_env :=
  {| throws := if i =? 0 then Some "Element not found" else None;
     kill_arrives := false |}.

(** No environment raises an error or delivers a kill switch. *)
Definition quiet (i : nat) : step_env := {| throws := None; kill_arrives := false |}.

End Readings.

Import Js Schema Background Observe Monitor Extract Readings.

(** * Properties *)

(** ** Transport client: the reconnect schedule *)

Section Transport.

Lemma alarms_app (a b : list event) : alarms (a ++ b) = alarms a ++ alarms b.
Proof. unfold alarms. apply omap_app. Qed.

Lemma scheduleReconnect_below (st : State) :
  reconnectAttempts st < MAX_RECONNECT_ATTEMPTS ->
  scheduleReconnect st =
    (with_ws (wsConnected st) (reconnectAttempts st + 1) st,
     [Alarm (backoff (reconnectAttempts st + 1))]).
Proof.
  intros Hlt. unfold scheduleReconnect.
  destruct (Nat.leb_spec MAX_RECONNECT_ATTEMPTS (reconnectAttempts st)) as [Hge|_]; [lia|].
  unfold backoff, BASE_RECONNECT_DELAY.
  replace (Z.of_nat (reconnectAttempts st + 1) - 1)%Z with (Z.of_nat (reconnectAttempts st)) by lia.
  reflexivity.
Qed.

Lemma scheduleReconnect_exhausted (st : State) :
  MAX_RECONNECT_ATTEMPTS <= reconnectAttempts st ->
  scheduleReconnect st = (st, [Log LMaxReconnect]).
Proof.
  intros Hge. unfold scheduleReconnect.
  destruct (Nat.leb_spec MAX_RECONNECT_ATTEMPTS (reconnectAttempts st)); [reflexivity|lia].
Qed.

Lemma closes_from (n : nat) : forall (st : State),
  reconnectAttempts st <= 50 ->
  reconnectAttempts (fst (run st (replicate n WsClose))) = Nat.min (reconnectAttempts st + n) 50 /\
  alarms (snd (run st (replicate n WsClose))) =
    map backoff (seq (reconnectAttempts st + 1) (Nat.min (reconnectAttempts st + n) 50 - reconnectAttempts st)).
Proof.
  induction n as [|n IH]; intros st Hle; simpl.
  - split; [lia|]. replace (_ - _) with 0 by lia. reflexivity.
  - unfold onclose.
    destruct (Nat.lt_ge_cases (reconnectAttempts st) 50) as [Hlt|Hge].
    + rewrite scheduleReconnect_below by (simpl; exact Hlt). simpl.
      set (st1 := with_ws _ _ _).
      specialize (IH st1). destruct (run st1 (replicate n WsClose)) as [st2 evs] eqn:Hrun.
      simpl in *. destruct IH as [IH1 IH2]; [lia|].
      split; [lia|].
      rewrite IH2.
      replace (Nat.min (reconnectAttempts st + S n) 50 - reconnectAttempts st)
        with (S (Nat.min (reconnectAttempts st + 1 + n) 50 - (reconnectAttempts st + 1))) by lia.
      simpl. replace (S (reconnectAttempts st + 1)) with (reconnectAttempts st + 1 + 1) by lia. reflexivity.
    + rewrite scheduleReconnect_exhausted by (simpl; exact Hge). simpl.
      set (st1 := with_ws _ _ _).
      specialize (IH st1). destruct (run st1 (replicate n WsClose)) as [st2 evs] eqn:Hrun.
      simpl in *. destruct IH as [IH1 IH2]; [lia|].
      split; [lia|].
      rewrite IH2. replace (_ - _) with 0 by lia. replace (_ - _) with 0 by lia. reflexivity.
Qed.

(** C9.  After a successful connection the attempt counter is 0; from
    there, [n] consecutive disconnections schedule the alarms of the
    attempts 1..min(n,50), the [k]-th one with the delay
    [min(2000 * 1.5^(k-1), 30000)] ms, and leave the counter at
    min(n,50).  Once the counter has reached 50 a disconnection
    schedules nothing and keeps the counter, so no reconnect follows
    until a connection succeeds again.  The first eight delays are
    2000, 3000, 4500, 6750, 10125, 15187.5, 22781.25 and 30000 ms. *)
Theorem reconnect_backoff_schedule (st : State) (n : nat) :
  let st0 := fst (onopen st) in
  let closed := run st0 (replicate n WsClose) in
  let exhausted := fst (run st0 (replicate (MAX_RECONNECT_ATTEMPTS + n) WsClose)) in
  reconnectAttempts st0 = 0 /\
  alarms (snd closed) = map backoff (seq 1 (Nat.min n MAX_RECONNECT_ATTEMPTS)) /\
  reconnectAttempts (fst closed) = Nat.min n MAX_RECONNECT_ATTEMPTS /\
  alarms (snd (onclose exhausted)) = [] /\
  reconnectAttempts (fst (onclose exhausted)) = MAX_RECONNECT_ATTEMPTS /\
  Forall2 Qeq (map backoff (seq 1 8))
    [2000; 3000; 4500; 6750; 10125; 30375 # 2; 91125 # 4; 30000]%Q.
Proof.
  intros st0 closed exhausted.
  assert (H0 : reconnectAttempts st0 = 0) by reflexivity.
  destruct (closes_from n st0) as [Hn Ha]; [rewrite H0; lia|].
  fold closed in Hn, Ha. rewrite H0 in Hn, Ha.
  destruct (closes_from (MAX_RECONNECT_ATTEMPTS + n) st0) as [Hm _]; [rewrite H0; lia|].
  fold exhausted in Hm. rewrite H0 in Hm.
  clearbody closed exhausted.
  cbn [Nat.add] in Hn, Ha, Hm. rewrite Nat.sub_0_r in Ha.
  assert (Hc : reconnectAttempts exhausted = MAX_RECONNECT_ATTEMPTS).
  { rewrite Hm. unfold MAX_RECONNECT_ATTEMPTS. lia. }
  split; [exact H0|]. split; [exact Ha|]. split; [exact Hn|].
  unfold onclose. rewrite scheduleReconnect_exhausted.
  - split; [reflexivity|]. split; [exact Hc|].
    repeat (constructor; [vm_compute; reflexivity|]). constructor.
  - change (MAX_RECONNECT_ATTEMPTS <= reconnectAttempts exhausted). rewrite Hc. lia.
Qed.

End Transport.

(** ** Rule engine *)

Section Rules.

Lemma checkRules_congr (now : Z) (url category : string) (st1 st2 : State) :
  registeredRules st1 = registeredRules st2 ->
  triggeredRulesState st1 = triggeredRulesState st2 ->
  snd (checkRulesAgainstUrl now url category st1) =
    snd (checkRulesAgainstUrl now url category st2) /\
  registeredRules (fst (checkRulesAgainstUrl now url category st1)) =
    registeredRules (fst (checkRulesAgainstUrl now url category st2)) /\
  triggeredRulesState (fst (checkRulesAgainstUrl now url category st1)) =
    triggeredRulesState (fst (checkRulesAgainstUrl now url category st2)).
Proof.
  intros Hr Hs. unfold checkRulesAgainstUrl. rewrite Hr, Hs.
  destruct (length (registeredRules st2) =? 0); simpl; auto.
Qed.

Lemma observations_congr (obs : list (Z * string * string)) :
  forall st1 st2 : State,
  registeredRules st1 = registeredRules st2 ->
  triggeredRulesState st1 = triggeredRulesState st2 ->
  snd (run st1 (map observe obs)) = snd (run st2 (map observe obs)) /\
  triggeredRulesState (fst (run st1 (map observe obs))) =
    triggeredRulesState (fst (run st2 (map observe obs))).
Proof.
  induction obs as [|[[now url] category] obs IH]; intros st1 st2 Hr Hs; simpl.
  - auto.
  - destruct (checkRules_congr now url category st1 st2 Hr Hs) as (He & Hr' & Hs').
    destruct (checkRulesAgainstUrl now url category st1) as [st1' e1].
    destruct (checkRulesAgainstUrl now url category st2) as [st2' e2].
    simpl in *. specialize (IH st1' st2' Hr' Hs').
    destruct (run st1' (map observe obs)) as [a ea].
    destruct (run st2' (map observe obs)) as [b eb].
    simpl in *. destruct IH as [IH1 IH2]. subst. auto.
Qed.

(** C7.  Registering a rules array installs it and leaves the match
    state empty: no id has an entry, and whatever the worker's state was
    before the swap, every later sequence of observations fires the same
    rules and builds the same match state as after a swap from any
    other state. *)
Theorem rule_set_swap_resets (st : State) (rules : list Rule) :
  let st' := fst (handleRegisterTriggers (Some rules) st) in
  registeredRules st' = rules /\
  triggeredRulesState st' = ∅ /\
  (forall id : string, triggeredRulesState st' !! id = None) /\
  (forall (other : State) (obs : list (Z * string * string)),
     let fresh := fst (handleRegisterTriggers (Some rules) other) in
     snd (run st' (map observe obs)) = snd (run fresh (map observe obs)) /\
     triggeredRulesState (fst (run st' (map observe obs))) =
       triggeredRulesState (fst (run fresh (map observe obs)))).
Proof.
  intros st'. split; [reflexivity|]. split; [reflexivity|]. split.
  - intros id. apply lookup_empty.
  - intros other obs fresh. apply observations_congr; reflexivity.
Qed.

(** C6, at the input where the code departs from it.  A rule fires at
    time 0, the site is left at 100000 ms (the entry goes inactive and
    keeps [lastTriggered = 0]), and the return at 101000 ms fires
    again, 1000 ms after the rule went inactive: the test compares with
    the time of the last firing, not with the time of leaving. *)
Theorem cooldown_counts_from_last_firing :
  let st0 := fst (handleRegisterTriggers (Some [category_rule "r1" "social"]) initial) in
  let left := fst (run st0 (take 2 return_after_long_visit)) in
  fired (snd (run st0 (take 1 return_after_long_visit))) = ["r1"] /\
  triggeredRulesState left !! "r1" = Some {| active := false; lastTriggered := 0 |} /\
  fired (snd (run left (drop 2 return_after_long_visit))) = ["r1"] /\
  triggeredRulesState (fst (run left (drop 2 return_after_long_visit))) !! "r1" =
    Some {| active := true; lastTriggered := 101000 |} /\
  (101000 - 100000 <? RULE_COOLDOWN_MS)%Z = true.
Proof. vm_compute. repeat split; reflexivity. Qed.

End Rules.

Section RuleStep.

Context (now : Z) (url category : string) (i : string).

Lemma fired_app (a b : list event) : fired (a ++ b) = fired a ++ fired b.
Proof. apply omap_app. Qed.

(** A rule with another id leaves the entry, the matched mark and the
    firings of [i] alone. *)
Lemma check_rule_frame (acc : rule_pass) (rule : Rule) :
  rule_id rule <> Some i ->
  let acc' := check_rule now url category acc rule in
  rp_state acc' !! i = rp_state acc !! i /\
  (i ∈ rp_matched acc' <-> i ∈ rp_matched acc) /\
  (In i (fired (rp_events acc')) <-> In i (fired (rp_events acc))).
Proof.
  intros Hid. unfold check_rule.
  destruct (rule_id rule) as [id|]; [|tauto].
  assert (Hne : id <> i) by congruence.
  destruct (criteria rule) as [c|]; [|tauto].
  destruct (String.eqb id ""); [tauto|].
  destruct (rule_matches url category c); [|tauto].
  assert (Hm : forall M : gset string, i ∈ {[id]} ∪ M <-> i ∈ M).
  { intros M. rewrite elem_of_union, elem_of_singleton. intuition congruence. }
  assert (Hf : forall evs, In i (fired (evs ++ fireRuleTrigger id)) <-> In i (fired evs)).
  { intros evs. rewrite fired_app, in_app_iff. simpl. intuition congruence. }
  destruct (rp_state acc !! id) as [s|] eqn:Hs; cbn [rp_state rp_matched rp_events].
  - destruct (active s); cbn [rp_state rp_matched rp_events]; [auto|].
    destruct (RULE_COOLDOWN_MS <=? now - lastTriggered s)%Z;
      cbn [rp_state rp_matched rp_events].
    + rewrite lookup_insert_ne by exact Hne. auto.
    + rewrite fired_app, app_nil_r. auto.
  - destruct (inherited id); cbn [rp_state rp_matched rp_events].
    + rewrite fired_app, app_nil_r. auto.
    + rewrite lookup_insert_ne by exact Hne. auto.
Qed.

Lemma foldl_frame (rules : list Rule) :
  forall acc : rule_pass,
  Forall (fun r => rule_id r <> Some i) rules ->
  let acc' := foldl (check_rule now url category) acc rules in
  rp_state acc' !! i = rp_state acc !! i /\
  (i ∈ rp_matched acc' <-> i ∈ rp_matched acc) /\
  (In i (fired (rp_events acc')) <-> In i (fired (rp_events acc))).
Proof.
  induction rules as [|r rules IH]; intros acc Hall; simpl; [tauto|].
  apply Forall_cons in Hall as [Hr Hall].
  destruct (check_rule_frame acc r Hr) as (H1 & H2 & H3).
  destruct (IH (check_rule now url category acc r) Hall) as (H1' & H2' & H3').
  rewrite H1', H2', H3'. auto.
Qed.

(** The rule that carries the id [i], on a pass that has not met the
    id yet. *)
Lemma check_rule_self (acc : rule_pass) (r : Rule) (c : Criteria) :
  rule_id r = Some i -> i <> "" -> criteria r = Some c ->
  i ∉ rp_matched acc -> ~ In i (fired (rp_events acc)) ->
  let acc' := check_rule now url category acc r in
  if rule_matches url category c then
    i ∈ rp_matched acc' /\
    match rp_state acc !! i with
    | None =>
        if inherited i then
          rp_state acc' !! i = None /\ ~ In i (fired (rp_events acc'))
        else
          rp_state acc' !! i = Some {| active := true; lastTriggered := now |} /\
          In i (fired (rp_events acc'))
    | Some s =>
        if active s then
          rp_state acc' !! i = Some s /\ ~ In i (fired (rp_events acc'))
        else if (RULE_COOLDOWN_MS <=? now - lastTriggered s)%Z then
          rp_state acc' !! i = Some {| active := true; lastTriggered := now |} /\
          In i (fired (rp_events acc'))
        else
          rp_state acc' !! i = Some s /\ ~ In i (fired (rp_events acc'))
    end
  else acc' = acc.
Proof.
  intros Hid Hne Hc Hnm Hnf. cbv zeta. unfold check_rule. rewrite Hid, Hc.
  destruct (String.eqb_spec i ""); [contradiction|].
  destruct (rule_matches url category c); [|reflexivity].
  assert (Hin : forall M : gset string, i ∈ {[i]} ∪ M).
  { intros M. apply elem_of_union. left. apply elem_of_singleton. reflexivity. }
  assert (Hfire : forall evs, In i (fired (evs ++ fireRuleTrigger i))).
  { intros evs. rewrite fired_app, in_app_iff. right. simpl. auto. }
  destruct (rp_state acc !! i) as [s|] eqn:Hs; cbn [rp_state rp_matched rp_events].
  - destruct (active s); cbn [rp_state rp_matched rp_events]; [auto|].
    destruct (RULE_COOLDOWN_MS <=? now - lastTriggered s)%Z;
      cbn [rp_state rp_matched rp_events].
    + rewrite lookup_insert_eq. auto.
    + rewrite fired_app, app_nil_r. auto.
  - destruct (inherited i); cbn [rp_state rp_matched rp_events].
    + rewrite fired_app, app_nil_r. auto.
    + rewrite lookup_insert_eq. auto.
Qed.

(** What one observation does to a rule whose id no other rule of the
    set carries: the entry of its id afterwards, and whether it fires.
    An id that names a member of [Object.prototype] never gets an
    entry and never fires. *)
Lemma rule_step (st : State) (before after : list Rule) (r : Rule) (c : Criteria) :
  registeredRules st = before ++ r :: after ->
  rule_id r = Some i -> i <> "" -> criteria r = Some c ->
  Forall (fun r' => rule_id r' <> Some i) (before ++ after) ->
  let out := checkRulesAgainstUrl now url category st in
  let old := triggeredRulesState st !! i in
  let entry := triggeredRulesState (fst out) !! i in
  let fires := In i (fired (snd out)) in
  if rule_matches url category c then
    match old with
    | None =>
        if inherited i then entry = None /\ ~ fires
        else entry = Some {| active := true; lastTriggered := now |} /\ fires
    | Some s =>
        if active s then entry = Some s /\ ~ fires
        else if (RULE_COOLDOWN_MS <=? now - lastTriggered s)%Z
        then entry = Some {| active := true; lastTriggered := now |} /\ fires
        else entry = Some s /\ ~ fires
    end
  else
    entry = (fun s => {| active := false; lastTriggered := lastTriggered s |}) <$> old /\
    ~ fires.
Proof.
  intros Hrules Hid Hne Hc Hall. cbv zeta.
  apply Forall_app in Hall as [Hb Ha].
  unfold checkRulesAgainstUrl. rewrite Hrules, length_app. simpl length.
  replace (length before + S (length after) =? 0) with false
    by (symmetry; apply Nat.eqb_neq; lia).
  rewrite foldl_app. simpl foldl.
  set (acc0 := {| rp_state := triggeredRulesState st; rp_matched := ∅; rp_events := [] |}).
  destruct (foldl_frame before acc0 Hb) as (B1 & B2 & B3).
  set (acc1 := foldl (check_rule now url category) acc0 before) in *.
  destruct (foldl_frame after (check_rule now url category acc1 r) Ha) as (A1 & A2 & A3).
  simpl in B1, B2, B3.
  assert (Hnm : i ∉ rp_matched acc1) by (rewrite B2; apply not_elem_of_empty).
  assert (Hnf : ~ In i (fired (rp_events acc1))) by (rewrite B3; simpl; tauto).
  pose proof (check_rule_self acc1 r c Hid Hne Hc Hnm Hnf) as Hself.
  cbv zeta in Hself. rewrite B1 in Hself.
  set (acc2 := check_rule now url category acc1 r) in *.
  set (acc3 := foldl (check_rule now url category) acc2 after) in *.
  cbn [fst snd triggeredRulesState with_rules].
  assert (E : mark_inactive (rp_matched acc3) (rp_state acc3) !! i =
              rp_state acc2 !! i ≫=
                (fun s => Some (if negb (bool_decide (i ∈ rp_matched acc2)) && active s
                                then {| active := false; lastTriggered := lastTriggered s |}
                                else s))).
  { unfold mark_inactive. rewrite map_lookup_imap, A1. unfold leaves.
    rewrite (bool_decide_ext _ _ A2). reflexivity. }
  assert (F : In i (fired (rp_events acc3 ++ inactive_logs (rp_matched acc3) (rp_state acc3)))
              <-> In i (fired (rp_events acc2))).
  { rewrite fired_app, in_app_iff, A3.
    assert (Hlogs : ~ In i (fired (inactive_logs (rp_matched acc3) (rp_state acc3)))).
    { unfold inactive_logs, fired. generalize (map_to_list (rp_state acc3)).
      intros l. induction l as [|[k s] l IHl]; simpl; [tauto|].
      destruct (leaves (rp_matched acc3) k s); simpl; exact IHl. }
    tauto. }
  rewrite E. clearbody acc2 acc3. clear E A1 A2 A3.
  destruct (rule_matches url category c).
  - destruct Hself as [Hm Hself].
    rewrite (bool_decide_eq_true_2 _ Hm). cbn [negb andb].
    destruct (triggeredRulesState st !! i) as [s|].
    + destruct (active s).
      * destruct Hself as [-> Hno]. rewrite F. auto.
      * destruct (RULE_COOLDOWN_MS <=? now - lastTriggered s)%Z;
          destruct Hself as [-> Hf]; rewrite F; auto.
    + destruct (inherited i); destruct Hself as [-> Hf]; rewrite F; auto.
  - subst acc2. rewrite B1, (bool_decide_eq_false_2 _ Hnm), F. cbn [negb andb].
    split; [|exact Hnf].
    destruct (triggeredRulesState st !! i) as [[[|] t]|]; reflexivity.
Qed.

End RuleStep.

(** ** Step executor and kill switch *)

Section Executor.

Context (env : nat -> step_env) (transactionId : value) (total : nat).

Lemma get_non_null (v : value) (k : string) :
  non_null v = true -> get v k = Ok (get_opt v k).
Proof. destruct v; simpl; intros H; try discriminate; reflexivity. Qed.

Lemma attempted_app (a b : list event) : attempted (a ++ b) = attempted a ++ attempted b.
Proof. apply omap_app. Qed.
Lemma failed_app (a b : list event) : failed (a ++ b) = failed a ++ failed b.
Proof. apply omap_app. Qed.
Lemma dispatched_app (a b : list event) : dispatched (a ++ b) = dispatched a ++ dispatched b.
Proof. apply omap_app. Qed.
Lemma completed_app (a b : list event) : completed (a ++ b) = completed a ++ completed b.
Proof. apply omap_app. Qed.
Lemma killed_app (a b : list event) : killed (a ++ b) = killed a ++ killed b.
Proof. apply omap_app. Qed.

Lemma run_step_state (o : step_env) (i : nat) (step action : value) (st : State) :
  let st' := fst (run_step o transactionId total i step action st) in
  killSwitchActive st' = killSwitchActive st || kill_arrives o /\
  currentExecution st' = at_step i <$> currentExecution st /\
  processedTxIds st' = processedTxIds st /\
  registeredRules st' = registeredRules st /\
  triggeredRulesState st' = triggeredRulesState st /\
  reconnectAttempts st' = reconnectAttempts st /\
  wsConnected st' = wsConnected st.
Proof.
  unfold run_step. destruct (run_action i step action o) as [calls err].
  destruct (kill_arrives o); simpl; rewrite ?orb_true_r, ?orb_false_r; auto 10.
Qed.

Lemma run_step_trace (o : step_env) (i : nat) (step action : value) (st : State) :
  let evs := snd (run_step o transactionId total i step action st) in
  attempted evs = [i] /\ completed evs = [] /\ killed evs = [] /\
  Forall (fun j => j = i) (dispatched evs).
Proof.
  unfold run_step, run_action.
  destruct (is_str action "open_url");
    [destruct (truthy _)|destruct (is_str action "wait"); [|destruct (includes_value _ _)]];
    destruct (kill_arrives o); destruct (throws o); simpl;
    repeat split; repeat constructor.
Qed.

Lemma run_step_failure (o : step_env) (i : nat) (step action : value) (st : State) (msg : string) :
  snd (run_action i step action o) = Some msg ->
  let evs := snd (run_step o transactionId total i step action st) in
  In (Log (LStepFailed (i + 1) msg)) evs /\
  In (ToPopup (PStepComplete i false (Some msg))) evs.
Proof.
  unfold run_step. destruct (run_action i step action o) as [calls err]. simpl.
  intros ->. destruct (kill_arrives o); simpl;
    split; do 3 right; apply in_or_app; right; simpl; auto 10.
Qed.

Lemma run_step_failed (o : step_env) (i : nat) (step action : value) (st : State) :
  failed (snd (run_step o transactionId total i step action st)) =
    match snd (run_action i step action o) with
    | Some _ => [i]
    | None => []
    end.
Proof.
  unfold run_step, run_action.
  destruct (is_str action "open_url");
    [destruct (truthy _)|destruct (is_str action "wait"); [|destruct (includes_value _ _)]];
    destruct (kill_arrives o); destruct (throws o); reflexivity.
Qed.

Lemma iterations_failed (steps : list value) :
  forall (i : nat) (st : State),
  failed (snd (iterations env transactionId total i steps st)) = failing env i steps.
Proof.
  induction steps as [|step rest IH]; intros i st; simpl; [reflexivity|].
  pose proof (run_step_failed (env i) i step (get_opt step "action") st) as Hs.
  destruct (run_step (env i) transactionId total i step (get_opt step "action") st)
    as [st1 e1].
  specialize (IH (S i) st1).
  destruct (iterations env transactionId total (S i) rest st1) as [st2 e2].
  simpl in *. rewrite failed_app, Hs, IH. unfold step_error.
  destruct (snd (run_action i step (get_opt step "action") (env i))); reflexivity.
Qed.

Lemma iterations_trace (steps : list value) :
  forall (i : nat) (st : State),
  let evs := snd (iterations env transactionId total i steps st) in
  attempted evs = seq i (length steps) /\ completed evs = [] /\ killed evs = [] /\
  Forall (fun j => i <= j < i + length steps) (dispatched evs).
Proof.
  induction steps as [|step rest IH]; intros i st; simpl.
  - repeat split. constructor.
  - pose proof (run_step_trace (env i) i step (get_opt step "action") st) as Hs.
    destruct (run_step (env i) transactionId total i step (get_opt step "action") st)
      as [st1 e1].
    specialize (IH (S i) st1).
    destruct (iterations env transactionId total (S i) rest st1) as [st2 e2].
    simpl in *. destruct Hs as (Ha & Hc & Hk & Hd). destruct IH as (Ha' & Hc' & Hk' & Hd').
    rewrite attempted_app, completed_app, killed_app, dispatched_app.
    rewrite Ha, Hc, Hk, Ha', Hc', Hk'. repeat split.
    apply Forall_app. split.
    + eapply Forall_impl; [exact Hd|]. simpl. intros j ->. lia.
    + eapply Forall_impl; [exact Hd'|]. simpl. intros j Hj. lia.
Qed.

Lemma iterations_failure (steps : list value) :
  forall (i : nat) (st : State) (j : nat) (step : value) (msg : string),
  steps !! j = Some step ->
  snd (run_action (i + j) step (get_opt step "action") (env (i + j))) = Some msg ->
  let evs := snd (iterations env transactionId total i steps st) in
  In (Log (LStepFailed (i + j + 1) msg)) evs /\
  In (ToPopup (PStepComplete (i + j) false (Some msg))) evs.
Proof.
  induction steps as [|s rest IH]; intros i st j step msg Hj Herr; [discriminate|].
  simpl.
  destruct j as [|j].
  - simpl in Hj. injection Hj as ->. rewrite Nat.add_0_r in *.
    pose proof (run_step_failure (env i) i step (get_opt step "action") st msg Herr) as Hf.
    destruct (run_step (env i) transactionId total i step (get_opt step "action") st)
      as [st1 e1].
    destruct (iterations env transactionId total (S i) rest st1) as [st2 e2].
    simpl in *. destruct Hf. split; apply in_or_app; left; assumption.
  - simpl in Hj.
    destruct (run_step (env i) transactionId total i s (get_opt s "action") st)
      as [st1 e1].
    specialize (IH (S i) st1 j step msg Hj).
    replace (S i + j) with (i + S j) in IH by lia.
    specialize (IH Herr).
    destruct (iterations env transactionId total (S i) rest st1) as [st2 e2].
    simpl in *. destruct IH. split; apply in_or_app; right; assumption.
Qed.

Lemma iterations_state (steps : list value) :
  forall (i : nat) (st : State),
  let st' := fst (iterations env transactionId total i steps st) in
  killSwitchActive st' =
    killSwitchActive st || existsb (fun j => kill_arrives (env j)) (seq i (length steps)) /\
  processedTxIds st' = processedTxIds st /\
  registeredRules st' = registeredRules st /\
  triggeredRulesState st' = triggeredRulesState st /\
  reconnectAttempts st' = reconnectAttempts st /\
  wsConnected st' = wsConnected st.
Proof.
  induction steps as [|step rest IH]; intros i st; simpl.
  - rewrite orb_false_r. auto 10.
  - pose proof (run_step_state (env i) i step (get_opt step "action") st) as Hs.
    destruct (run_step (env i) transactionId total i step (get_opt step "action") st)
      as [st1 e1].
    specialize (IH (S i) st1).
    destruct (iterations env transactionId total (S i) rest st1) as [st2 e2].
    simpl in *. destruct Hs as (Hk & _ & H1 & H2 & H3 & H4 & H5).
    destruct IH as (Hk' & H1' & H2' & H3' & H4' & H5').
    rewrite Hk', Hk, H1', H1, H2', H2, H3', H3, H4', H4, H5', H5.
    rewrite orb_assoc. auto 10.
Qed.

Lemma run_loop_completes (steps : list value) :
  forall (i : nat) (st : State),
  Forall (fun s => non_null s = true) steps ->
  killSwitchActive st = false ->
  (forall j, i <= j < i + length steps -> kill_arrives (env j) = false) ->
  run_loop env transactionId total i steps st =
    (with_execution None (fst (iterations env transactionId total i steps st)),
     snd (iterations env transactionId total i steps st) ++
       completed_events transactionId total,
     RunCompleted).
Proof.
  induction steps as [|step rest IH]; intros i st Hnn Hk Hquiet; simpl.
  - reflexivity.
  - rewrite Hk. apply Forall_cons in Hnn as [Hs Hnn].
    rewrite (get_non_null step "action" Hs).
    pose proof (run_step_state (env i) i step (get_opt step "action") st) as Hst.
    destruct (run_step (env i) transactionId total i step (get_opt step "action") st)
      as [st1 e1].
    simpl in Hst. destruct Hst as (Hk1 & _).
    rewrite Hk, (Hquiet i) in Hk1 by (simpl; lia). simpl in Hk1.
    rewrite (IH (S i) st1 Hnn Hk1) by (intros j Hj; apply Hquiet; simpl; lia).
    destruct (iterations env transactionId total (S i) rest st1) as [st2 e2].
    simpl. rewrite app_assoc. reflexivity.
Qed.

Lemma run_loop_killed (k : nat) :
  forall (steps : list value) (i : nat) (st : State),
  Forall (fun s => non_null s = true) steps ->
  k < length steps ->
  killSwitchActive st || existsb (fun j => kill_arrives (env j)) (seq i k) = true ->
  (forall j, j < k ->
     killSwitchActive st || existsb (fun j => kill_arrives (env j)) (seq i j) = false) ->
  run_loop env transactionId total i steps st =
    (with_execution None (fst (iterations env transactionId total i (take k steps) st)),
     snd (iterations env transactionId total i (take k steps) st) ++
       killed_events transactionId total (i + k),
     RunKilled (i + k)).
Proof.
  induction k as [|k IH]; intros steps i st Hnn Hlen Hset Hfirst.
  - destruct steps as [|step rest]; [simpl in Hlen; lia|].
    simpl in Hset. rewrite orb_false_r in Hset. simpl. rewrite Hset, Nat.add_0_r.
    reflexivity.
  - destruct steps as [|step rest]; [simpl in Hlen; lia|].
    pose proof (Hfirst 0 ltac:(lia)) as H0. simpl in H0. rewrite orb_false_r in H0.
    apply Forall_cons in Hnn as [Hs Hnn].
    simpl. rewrite H0, (get_non_null step "action" Hs).
    pose proof (run_step_state (env i) i step (get_opt step "action") st) as Hst.
    destruct (run_step (env i) transactionId total i step (get_opt step "action") st)
      as [st1 e1].
    simpl in Hst. destruct Hst as (Hk1 & _). rewrite H0 in Hk1. simpl in Hk1.
    rewrite (IH rest (S i) st1 Hnn).
    + destruct (iterations env transactionId total (S i) (take k rest) st1) as [st2 e2].
      simpl. rewrite app_assoc. replace (S (i + k)) with (i + S k) by lia. reflexivity.
    + simpl in Hlen. lia.
    + rewrite Hk1. simpl in Hset. rewrite H0 in Hset. exact Hset.
    + intros j Hj. rewrite Hk1. specialize (Hfirst (S j) ltac:(lia)).
      simpl in Hfirst. rewrite H0 in Hfirst. exact Hfirst.
Qed.

End Executor.

Section KillSwitch.

Lemma executeBrowserPlan_kill_set (env : nat -> step_env) (transactionId : value)
    (steps : list value) (st : State) :
  killSwitchActive st = true ->
  killSwitchActive (fst (fst (executeBrowserPlan env transactionId steps st))) = true.
Proof.
  intros Hk. unfold executeBrowserPlan.
  destruct steps as [|step rest]; simpl; [exact Hk|].
  rewrite Hk. exact Hk.
Qed.

Lemma handleChatbotResponse_state (uuid : string) (env : nat -> step_env)
    (parsed transactionId : value) (st : State) :
  fst (fst (handleChatbotResponse uuid env parsed transactionId st)) = st \/
  exists steps,
    fst (fst (handleChatbotResponse uuid env parsed transactionId st)) =
      fst (fst (executeBrowserPlan env transactionId steps st)).
Proof.
  unfold handleChatbotResponse.
  destruct (negb (truthy parsed)); [left; reflexivity|].
  destruct (mbind _ _) as [validation|e]; [|left; reflexivity].
  destruct (negb (valid validation)); [left; reflexivity|].
  destruct (runSafetyCheck _) as [safetyResult|e]; [|left; reflexivity].
  destruct (negb (safe safetyResult)); [left; reflexivity|].
  destruct (0 <? length _); [|left; reflexivity].
  right.
  match goal with
  | |- context [executeBrowserPlan ?e ?t ?s ?x] =>
      exists s; destruct (executeBrowserPlan e t s x) as [[st1 evs] r]
  end.
  reflexivity.
Qed.

Lemma handle_keeps_kill (st : State) (i : input) :
  killSwitchActive st = true -> killSwitchActive (fst (handle st i)) = true.
Proof.
  intros Hk.
  destruct i as [| | |uuid platform err payload|rules|now url category|uuid env parsed txid];
    cbn [handle].
  - exact Hk.
  - unfold onclose, scheduleReconnect.
    destruct (Nat.leb _ _); exact Hk.
  - reflexivity.
  - unfold handlePromptExecution. rewrite Hk. exact Hk.
  - destruct rules; exact Hk.
  - unfold checkRulesAgainstUrl. destruct (length (registeredRules st) =? 0); exact Hk.
  - destruct (handleChatbotResponse_state uuid env parsed txid st) as [->|[steps ->]];
      [exact Hk|]. apply executeBrowserPlan_kill_set, Hk.
Qed.

Lemma kill_switch_sticky (ins : list input) :
  forall st : State,
  killSwitchActive st = true -> killSwitchActive (fst (run st ins)) = true.
Proof.
  induction ins as [|i ins IH]; intros st Hk; simpl; [exact Hk|].
  pose proof (handle_keeps_kill st i Hk) as H1.
  destruct (handle st i) as [st1 e1]. specialize (IH st1 H1).
  destruct (run st1 ins) as [st2 e2]. exact IH.
Qed.

(** C3.  In a run of [executeBrowserPlan] over non-null steps, let [k]
    be the first step boundary at which the kill-switch flag is found
    set (set before the run, or by a message handled while a step
    before [k] was suspended).  The run ends killed at [k]: its trace
    is the complete trace of the iterations 0..k-1 followed by the
    halt, so exactly the steps 0..k-1 were started, no browser call of
    step [k] or later is made, nothing of the earlier steps is undone,
    one [killed] status names step k+1 of the total (the popup gets
    index [k]), and no [completed] result is sent.  Afterwards
    [currentExecution] is [null] and the flag is set; it stays set
    through every later input, and every later [execute_prompt] is
    refused before it touches the ledger or the chatbot. *)
Theorem kill_switch_halts_at_next_boundary
    (env : nat -> step_env) (transactionId : value) (steps : list value)
    (st : State) (k : nat) :
  Forall (fun s => non_null s = true) steps ->
  k < length steps ->
  flag_before env st k = true ->
  (forall j, j < k -> flag_before env st j = false) ->
  let total := length steps in
  let result := executeBrowserPlan env transactionId steps st in
  let trace := snd (fst result) in
  let st' := fst (fst result) in
  snd result = RunKilled k /\
  trace = snd (iterations env transactionId total 0 (take k steps)
                 (entering transactionId steps st)) ++
          killed_events transactionId total k /\
  attempted trace = seq 0 k /\
  Forall (fun i => i < k) (dispatched trace) /\
  killed trace = [(k + 1, total)] /\
  In (ToPopup (PExecutionKilled k)) trace /\
  completed trace = [] /\
  currentExecution st' = None /\
  killSwitchActive st' = true /\
  (forall (ins : list input) (uuid platform : string) (err : option string)
          (payload : Payload),
     let later := fst (run st' ins) in
     killSwitchActive later = true /\
     handlePromptExecution uuid platform err payload later =
       (later, [Log LBlockedKill], RefusedKill)).
Proof.
  intros Hnn Hlen Hset Hfirst total result trace st'.
  assert (Hrun : result =
            (with_execution None
               (fst (iterations env transactionId total 0 (take k steps)
                       (entering transactionId steps st))),
             snd (iterations env transactionId total 0 (take k steps)
                    (entering transactionId steps st)) ++
               killed_events transactionId total k,
             RunKilled k)).
  { unfold result, executeBrowserPlan. fold (entering transactionId steps st).
    fold total.
    apply (run_loop_killed env transactionId total k steps 0
             (entering transactionId steps st) Hnn Hlen Hset Hfirst). }
  pose proof (iterations_trace env transactionId total (take k steps) 0
                (entering transactionId steps st)) as Htr.
  pose proof (iterations_state env transactionId total (take k steps) 0
                (entering transactionId steps st)) as Hst.
  rewrite length_take, Nat.min_l in Htr, Hst by lia.
  destruct (iterations env transactionId total 0 (take k steps)
              (entering transactionId steps st)) as [st1 body].
  simpl in Htr, Hst, Hrun. destruct Htr as (Ha & Hc & Hk & Hd). destruct Hst as (Hks & _).
  assert (Hkill : killSwitchActive st' = true).
  { unfold st'. rewrite Hrun. simpl. rewrite Hks. exact Hset. }
  unfold trace, st'. rewrite Hrun. simpl.
  split; [reflexivity|]. split; [reflexivity|].
  rewrite attempted_app, dispatched_app, killed_app, completed_app, Ha, Hc, Hk.
  simpl. rewrite !app_nil_r.
  split; [reflexivity|].
  split; [eapply Forall_impl; [exact Hd|]; simpl; intros; lia|].
  split; [reflexivity|].
  split; [apply in_or_app; right; simpl; auto|].
  split; [reflexivity|]. split; [reflexivity|].
  split; [rewrite Hks; exact Hset|].
  intros ins uuid platform err payload.
  set (later := fst (run (with_execution None st1) ins)).
  assert (Hlater : killSwitchActive later = true).
  { apply kill_switch_sticky. simpl. rewrite Hks. exact Hset. }
  split; [exact Hlater|].
  unfold handlePromptExecution. rewrite Hlater. reflexivity.
Qed.

(** A run that no other run overlaps, over non-null steps and with the
    kill switch off throughout: whatever the steps throw, the run ends
    completed, every step 0..N-1 is started in order, the steps reported
    as failed are exactly those that throw, each of them is logged
    ([Step k+1 failed]) and reported to the popup as a failed
    [step_complete] with its message, and the trace holds exactly one
    [completed] result, carrying the total step count;
    [currentExecution] is [null] afterwards. *)
Lemma failing_step_does_not_abort
    (env : nat -> step_env) (transactionId : value) (steps : list value) (st : State) :
  Forall (fun s => non_null s = true) steps ->
  killSwitchActive st = false ->
  (forall j, j < length steps -> kill_arrives (env j) = false) ->
  let total := length steps in
  let result := executeBrowserPlan env transactionId steps st in
  let trace := snd (fst result) in
  snd result = RunCompleted /\
  attempted trace = seq 0 total /\
  failed trace = failing env 0 steps /\
  (forall (k : nat) (step : value) (msg : string),
     steps !! k = Some step ->
     step_error env k step = Some msg ->
     In (Log (LStepFailed (k + 1) msg)) trace /\
     In (ToPopup (PStepComplete k false (Some msg))) trace) /\
  completed trace = [total] /\
  killed trace = [] /\
  In (ToDesktop (ExecutionResult transactionId total)) trace /\
  currentExecution (fst (fst result)) = None.
Proof.
  intros Hnn Hk Hquiet total result trace.
  assert (Hrun : result =
            (with_execution None
               (fst (iterations env transactionId total 0 steps
                       (entering transactionId steps st))),
             snd (iterations env transactionId total 0 steps
                    (entering transactionId steps st)) ++
               completed_events transactionId total,
             RunCompleted)).
  { unfold result, executeBrowserPlan. fold (entering transactionId steps st).
    fold total. apply run_loop_completes; [exact Hnn|exact Hk|].
    intros j Hj. apply Hquiet. lia. }
  pose proof (iterations_trace env transactionId total steps 0
                (entering transactionId steps st)) as Htr.
  pose proof (iterations_failed env transactionId total steps 0
                (entering transactionId steps st)) as Hfd.
  pose proof (fun k step msg => iterations_failure env transactionId total steps 0
                (entering transactionId steps st) k step msg) as Hfail.
  destruct (iterations env transactionId total 0 steps
              (entering transactionId steps st)) as [st1 body].
  simpl in Htr, Hfd, Hfail, Hrun. destruct Htr as (Ha & Hc & Hkl & Hd).
  unfold trace. rewrite Hrun. simpl.
  rewrite attempted_app, killed_app, completed_app, failed_app, Ha, Hc, Hkl, Hfd. simpl.
  rewrite !app_nil_r.
  split; [reflexivity|]. split; [reflexivity|]. split; [reflexivity|]. split.
  - intros k step msg Hs Herr. destruct (Hfail k step msg Hs Herr) as [H1 H2].
    split; apply in_or_app; left; assumption.
  - split; [reflexivity|]. split; [reflexivity|].
    split; [apply in_or_app; right; simpl; auto|reflexivity].
Qed.

Lemma kill_switch_halts_witness :
  let result := executeBrowserPlan kill_during_second (VStr "t1") sample_steps initial in
  snd result = RunKilled 2 /\
  attempted (snd (fst result)) = [0; 1] /\
  killed (snd (fst result)) = [(3, 3)] /\
  currentExecution (fst (fst result)) = None /\
  killSwitchActive (fst (fst result)) = true.
Proof.
  destruct (kill_switch_halts_at_next_boundary kill_during_second (VStr "t1")
              sample_steps initial 2) as (H1 & _ & H3 & _ & H5 & _ & _ & H8 & H9 & _).
  - repeat constructor.
  - simpl. lia.
  - reflexivity.
  - intros j Hj. destruct j as [|[|j]]; [reflexivity|reflexivity|lia].
  - repeat split; assumption.
Defined.

Lemma failing_step_witness :
  let result := executeBrowserPlan failing_second (VStr "t1") sample_steps initial in
  snd result = RunCompleted /\
  attempted (snd (fst result)) = [0; 1; 2] /\
  In (Log (LStepFailed 2 "Element not found")) (snd (fst result)) /\
  completed (snd (fst result)) = [3].
Proof.
  destruct (failing_step_does_not_abort failing_second (VStr "t1") sample_steps initial)
    as (H1 & H2 & _ & H3 & H4 & _).
  - repeat constructor.
  - reflexivity.
  - intros j Hj. reflexivity.
  - split; [exact H1|]. split; [exact H2|]. split; [|exact H4].
    apply (H3 1 (VObj [("action", VStr "click_element");
                       ("params", VObj [("target", VStr "Sign in")]);
                       ("safety_check", VStr "passed")]) "Element not found");
      reflexivity.
Defined.

(** C5.  The executor does not keep runs apart: a second
    [chatbot_response] starts a run of its own while the first one is
    suspended in a step, and each run ends by setting
    [currentExecution] to [null].  Here the first of three steps throws
    and is caught, logged and reported, the second step is started, and
    during it another run ends.  At the next boundary the assignment
    [currentExecution.currentStep = i], which the per-step [try] does
    not cover, throws a [TypeError]: the third step is never started
    and neither a [completed] nor a [killed] result is sent. *)
Theorem overlapping_run_stops_after_failed_step :
  let result :=
    Overlap.executeBrowserPlan (ends_during 1) failing_first (VStr "t1")
      overlapped_steps initial in
  let trace := snd (fst result) in
  length overlapped_steps = 3 /\
  failed trace = [0] /\
  In (Log (LStepFailed 1 "Element not found")) trace /\
  In (ToPopup (PStepComplete 0 false (Some "Element not found"))) trace /\
  attempted trace = [0; 1] /\
  snd result = RunCrashed 2 Overlap.null_execution /\
  completed trace = [] /\
  killed trace = [].
Proof.
  cbv zeta. repeat split; try reflexivity.
  - vm_compute. tauto.
  - vm_compute. tauto.
Qed.

End KillSwitch.

(** ** Transaction ledger *)

Section Ledger.

Lemma str_or_some (s b : string) : s <> "" -> str_or (Some s) b = s.
Proof.
  intros Hs. unfold str_or. destruct (String.eqb_spec s ""); [contradiction|reflexivity].
Qed.

Lemma injected_app (a b : list event) : injected (a ++ b) = injected a ++ injected b.
Proof. unfold injected. apply omap_app. Qed.

Lemma run_app (a b : list input) (st : State) :
  run st (a ++ b) =
    (fst (run (fst (run st a)) b), snd (run st a) ++ snd (run (fst (run st a)) b)).
Proof.
  revert st. induction a as [|i a IH]; intros st; simpl.
  - destruct (run st b); reflexivity.
  - destruct (handle st i) as [st1 e1]. rewrite IH.
    destruct (run st1 a) as [st2 e2]. simpl.
    destruct (run st2 b) as [st3 e3]. simpl. rewrite app_assoc. reflexivity.
Qed.

Lemma ledger_add_drop (id : string) (l : list string) :
  length l <= 50 -> ledger_add id l = drop (length l + 1 - 50) (l ++ [id]).
Proof.
  intros Hl. unfold ledger_add. rewrite length_app. simpl.
  destruct (Nat.ltb_spec 50 (length l + 1)) as [Hgt|Hle].
  - replace (length l + 1 - 50) with 1 by lia. destruct (l ++ [id]); reflexivity.
  - replace (length l + 1 - 50) with 0 by lia. reflexivity.
Qed.

Lemma ledger_add_length (id : string) (l : list string) :
  length l <= 50 -> length (ledger_add id l) <= 50.
Proof.
  intros Hl. rewrite ledger_add_drop by exact Hl.
  rewrite length_drop, length_app. simpl. lia.
Qed.

Lemma ledger_add_subset (id x : string) (l : list string) :
  x ∈ ledger_add id l -> x ∈ l \/ x = id.
Proof.
  unfold ledger_add. intros Hx.
  assert (Hin : x ∈ l ++ [id]).
  { destruct (50 <? length (l ++ [id])); [|exact Hx].
    destruct (l ++ [id]) as [|y t]; [exact Hx|]. simpl in Hx. apply elem_of_cons. right. exact Hx. }
  apply elem_of_app in Hin. destruct Hin as [H|H]; [left; exact H|].
  right. apply list_elem_of_singleton in H. exact H.
Qed.

Lemma accept_fresh (uuid platform : string) (err : option string)
    (p id : string) (st : State) :
  killSwitchActive st = false -> p <> "" -> id <> "" ->
  id ∉ processedTxIds st ->
  exists evs,
    handlePromptExecution uuid platform err (request id p) st =
      (with_ledger (ledger_add id (processedTxIds st)) st, evs, Accepted id) /\
    injected evs = [id].
Proof.
  intros Hk Hp Hid Hfresh. unfold handlePromptExecution, request. rewrite Hk.
  cbn [prompt text transaction_id transactionId].
  rewrite (str_or_some p) by exact Hp.
  destruct (String.eqb_spec p ""); [contradiction|].
  rewrite (str_or_some id) by exact Hid.
  rewrite bool_decide_eq_false_2 by exact Hfresh.
  eexists. split; [reflexivity|].
  rewrite injected_app. destruct err; reflexivity.
Qed.

Lemma ignore_duplicate (uuid platform : string) (err : option string)
    (p id : string) (st : State) :
  killSwitchActive st = false -> p <> "" -> id <> "" ->
  id ∈ processedTxIds st ->
  handlePromptExecution uuid platform err (request id p) st =
    (st, [Log (LDuplicate id)], Duplicate).
Proof.
  intros Hk Hp Hid Hin. unfold handlePromptExecution, request. rewrite Hk.
  cbn [prompt text transaction_id transactionId].
  rewrite (str_or_some p) by exact Hp.
  destruct (String.eqb_spec p ""); [contradiction|].
  rewrite (str_or_some id) by exact Hid.
  rewrite bool_decide_eq_true_2 by exact Hin. reflexivity.
Qed.

Lemma accept_all (uuid platform : string) (err : option string) (p : string)
    (ids : list string) :
  forall st : State,
  killSwitchActive st = false -> p <> "" ->
  Forall (fun id => id <> "") ids -> NoDup ids ->
  Forall (fun id => id ∉ processedTxIds st) ids ->
  length (processedTxIds st) <= 50 ->
  let after := run st (map (fun id => ExecutePrompt uuid platform err (request id p)) ids) in
  processedTxIds (fst after) =
    drop (length (processedTxIds st) + length ids - 50) (processedTxIds st ++ ids) /\
  injected (snd after) = ids /\
  killSwitchActive (fst after) = false.
Proof.
  induction ids as [|a ids IH]; intros st Hk Hp Hne Hnd Hfresh Hlen; simpl.
  - rewrite app_nil_r. replace (_ - 50) with 0 by lia. auto.
  - apply Forall_cons in Hne as [Ha Hne]. apply NoDup_cons in Hnd as [Hnotin Hnd].
    apply Forall_cons in Hfresh as [Hfa Hfresh].
    destruct (accept_fresh uuid platform err p a st Hk Hp Ha Hfa) as (evs & Heq & Hinj).
    rewrite Heq. simpl.
    set (st1 := with_ledger _ st).
    assert (Hk1 : killSwitchActive st1 = false) by exact Hk.
    assert (Hlen1 : length (processedTxIds st1) <= 50)
      by (apply ledger_add_length; exact Hlen).
    assert (Hfresh1 : Forall (fun id => id ∉ processedTxIds st1) ids).
    { apply Forall_forall. intros x Hx Hin. simpl in Hin.
      apply ledger_add_subset in Hin. destruct Hin as [Hin| ->].
      - rewrite Forall_forall in Hfresh. exact (Hfresh x Hx Hin).
      - exact (Hnotin Hx). }
    specialize (IH st1 Hk1 Hp Hne Hnd Hfresh1 Hlen1).
    destruct (run st1 _) as [st2 evs2]. simpl in *.
    destruct IH as (IHl & IHi & IHk).
    split; [|split; [rewrite injected_app, Hinj, IHi; reflexivity|exact IHk]].
    rewrite IHl. rewrite (ledger_add_drop a) by exact Hlen.
    rewrite length_drop, length_app. simpl.
    rewrite <- drop_app_le by (rewrite length_app; simpl; lia).
    rewrite drop_drop. rewrite <- app_assoc. simpl.
    f_equal. lia.
Qed.

Lemma run_loop_ledger (env : nat -> step_env) (txid : value) (total : nat)
    (steps : list value) :
  forall (i : nat) (st : State),
  processedTxIds (fst (fst (run_loop env txid total i steps st))) = processedTxIds st.
Proof.
  induction steps as [|step rest IH]; intros i st; simpl; [reflexivity|].
  destruct (killSwitchActive st); [reflexivity|].
  destruct (get step "action") as [action|e]; [|reflexivity].
  pose proof (run_step_state txid total (env i) i step action st) as Hs.
  destruct (run_step (env i) txid total i step action st) as [st1 e1].
  specialize (IH (S i) st1).
  destruct (run_loop env txid total (S i) rest st1) as [[st2 e2] r].
  simpl in *. destruct Hs as (_ & _ & Hl & _). rewrite IH, Hl. reflexivity.
Qed.

Lemma handle_ledger_bound (st : State) (i : input) :
  length (processedTxIds st) <= 50 ->
  length (processedTxIds (fst (handle st i))) <= 50.
Proof.
  intros Hb.
  destruct i as [| | |uuid platform err payload|rules|now url category|uuid env parsed txid];
    cbn [handle].
  - exact Hb.
  - unfold onclose, scheduleReconnect. destruct (Nat.leb _ _); exact Hb.
  - exact Hb.
  - unfold handlePromptExecution.
    destruct (killSwitchActive st); [exact Hb|].
    destruct (String.eqb _ ""); [exact Hb|].
    destruct (bool_decide _); [exact Hb|].
    cbn [fst processedTxIds with_ledger]. apply ledger_add_length, Hb.
  - destruct rules; exact Hb.
  - unfold checkRulesAgainstUrl. destruct (length (registeredRules st) =? 0); exact Hb.
  - destruct (handleChatbotResponse_state uuid env parsed txid st) as [->|[steps ->]];
      [exact Hb|].
    unfold executeBrowserPlan. rewrite run_loop_ledger. exact Hb.
Qed.

Lemma ledger_bounded (ins : list input) :
  forall st : State,
  length (processedTxIds st) <= 50 ->
  length (processedTxIds (fst (run st ins))) <= 50.
Proof.
  induction ins as [|i ins IH]; intros st Hb; simpl; [exact Hb|].
  pose proof (handle_ledger_bound st i Hb) as H1.
  destruct (handle st i) as [st1 e1]. specialize (IH st1 H1).
  destruct (run st1 ins) as [st2 e2]. exact IH.
Qed.

(** C8.  From a state whose ledger holds at most 50 ids it holds at most
    50 ids after every sequence of inputs.  With the kill switch off,
    submitting the new id [X] and then the new, distinct ids [ids]: the
    ledger is the last 50 entries of the insertion sequence, oldest
    first, and every request is handed on once.  While fewer than 50 ids followed [X], [X] is still
    retained: a second submission of [X] is ignored and changes
    nothing.  After exactly 50 further ids the ledger is [ids], [X] has
    been evicted, and a second submission of [X] is accepted and handed
    on again. *)
Theorem ledger_dedup_window (uuid platform : string) (err : option string)
    (p X : string) (ids : list string) (st : State) :
  killSwitchActive st = false ->
  p <> "" ->
  Forall (fun id => id <> "") (X :: ids) ->
  NoDup (X :: ids) ->
  Forall (fun id => id ∉ processedTxIds st) (X :: ids) ->
  length (processedTxIds st) <= 50 ->
  let submit := fun id => ExecutePrompt uuid platform err (request id p) in
  let after := run st (map submit (X :: ids)) in
  let again := run st (map submit (X :: ids ++ [X])) in
  (forall ins : list input, length (processedTxIds (fst (run st ins))) <= 50) /\
  processedTxIds (fst after) =
    drop (length (processedTxIds st) + length (X :: ids) - 50)
         (processedTxIds st ++ X :: ids) /\
  injected (snd after) = X :: ids /\
  (length ids < 50 ->
     X ∈ processedTxIds (fst after) /\
     injected (snd again) = X :: ids /\
     processedTxIds (fst again) = processedTxIds (fst after)) /\
  (length ids = 50 ->
     processedTxIds (fst after) = ids /\
     injected (snd again) = X :: ids ++ [X]).
Proof.
  intros Hk Hp Hne Hnd Hfresh Hlen submit after again.
  destruct (accept_all uuid platform err p (X :: ids) st Hk Hp Hne Hnd Hfresh Hlen)
    as (Hl & Hi & Hk').
  fold submit in Hl, Hi, Hk'. fold after in Hl, Hi, Hk'.
  assert (Hagain : again =
            (fst (run (fst after) [submit X]),
             snd after ++ snd (run (fst after) [submit X]))).
  { unfold again, after. rewrite app_comm_cons, map_app. apply run_app. }
  clearbody after again. subst again.
  assert (HX : X <> "") by (apply Forall_cons in Hne as [H _]; exact H).
  split; [intros ins; apply ledger_bounded, Hlen|].
  split; [exact Hl|]. split; [exact Hi|]. split.
  - intros Hfew.
    assert (Hin : X ∈ processedTxIds (fst after)).
    { rewrite Hl. apply list_elem_of_lookup.
      exists (length (processedTxIds st) - (length (processedTxIds st) + length (X :: ids) - 50)).
      rewrite lookup_drop.
      replace (_ + _) with (length (processedTxIds st) + 0) by (simpl; lia).
      rewrite lookup_app_r by lia.
      replace (_ - _) with 0 by lia. reflexivity. }
    split; [exact Hin|].
    cbn [run fst snd handle submit].
    rewrite (ignore_duplicate uuid platform err p X (fst after) Hk' Hp HX Hin).
    cbn [fst snd]. rewrite !injected_app, Hi. cbn. rewrite app_nil_r. auto.
  - intros Hfull.
    assert (Hids : processedTxIds (fst after) = ids).
    { rewrite Hl. simpl length. replace (_ - 50) with (length (processedTxIds st) + 1) by lia.
      rewrite drop_app_add'; reflexivity. }
    split; [exact Hids|].
    assert (Hout : X ∉ processedTxIds (fst after)).
    { rewrite Hids. apply NoDup_cons in Hnd as [H _]. exact H. }
    cbn [run fst snd handle submit].
    destruct (accept_fresh uuid platform err p X (fst after) Hk' Hp HX Hout) as (evs & Heq & Hinj).
    rewrite Heq. cbn [fst snd]. rewrite !injected_app, Hi, Hinj. cbn. reflexivity.
Qed.

Lemma ledger_dedup_window_witness :
  let submit := fun id => ExecutePrompt "u" "chatgpt" None (request id "open the inbox") in
  injected (snd (run initial (map submit ("tx" :: sample_ids 50 ++ ["tx"])))) =
    "tx" :: sample_ids 50 ++ ["tx"] /\
  injected (snd (run initial (map submit ("tx" :: sample_ids 49 ++ ["tx"])))) =
    "tx" :: sample_ids 49.
Proof.
  intros submit. split.
  - destruct (ledger_dedup_window "u" "chatgpt" None "open the inbox" "tx"
                (sample_ids 50) initial) as (_ & _ & _ & _ & H).
    + reflexivity.
    + discriminate.
    + apply (bool_decide_unpack _). vm_compute. exact I.
    + apply (bool_decide_unpack _). vm_compute. exact I.
    + apply (bool_decide_unpack _). vm_compute. exact I.
    + simpl. lia.
    + apply H. reflexivity.
  - destruct (ledger_dedup_window "u" "chatgpt" None "open the inbox" "tx"
                (sample_ids 49) initial) as (_ & _ & _ & H & _).
    + reflexivity.
    + discriminate.
    + apply (bool_decide_unpack _). vm_compute. exact I.
    + apply (bool_decide_unpack _). vm_compute. exact I.
    + apply (bool_decide_unpack _). vm_compute. exact I.
    + simpl. lia.
    + apply H. vm_compute. lia.
Defined.

End Ledger.

(** ** Plan validation *)
Section Fields.

Lemma lookup_update_same (k : string) (x : value) (f : list (string * value)) :
  lookup_field k (update_field k x f) = x.
Proof.
  induction f as [|[k' v] f IH]; simpl.
  - rewrite String.eqb_refl. reflexivity.
  - destruct (String.eqb_spec k k') as [->|Hne]; simpl.
    + rewrite String.eqb_refl. reflexivity.
    + destruct (String.eqb_spec k k'); [contradiction|exact IH].
Qed.

Lemma lookup_update_other (k k' : string) (x : value) (f : list (string * value)) :
  k <> k' -> lookup_field k (update_field k' x f) = lookup_field k f.
Proof.
  intros Hne. induction f as [|[k0 v] f IH]; simpl.
  - destruct (String.eqb_spec k k'); [contradiction|reflexivity].
  - destruct (String.eqb_spec k' k0) as [->|Hne0]; simpl.
    + destruct (String.eqb_spec k k0); [contradiction|reflexivity].
    + destruct (String.eqb_spec k k0); [reflexivity|exact IH].
Qed.

Lemma update_update (k : string) (x y : value) (f : list (string * value)) :
  update_field k y (update_field k x f) = update_field k y f.
Proof.
  induction f as [|[k' v] f IH]; simpl.
  - rewrite String.eqb_refl. reflexivity.
  - destruct (String.eqb_spec k k') as [->|Hne]; simpl.
    + rewrite String.eqb_refl. reflexivity.
    + destruct (String.eqb_spec k k'); [contradiction|]. rewrite IH. reflexivity.
Qed.

Lemma is_object_typeof (v : value) :
  negb (truthy v) || negb (typeof_object v) = negb (is_object v).
Proof. destruct v; simpl; try reflexivity; rewrite ?orb_true_r; reflexivity. Qed.

Lemma is_str_true (v : value) (lit : string) : is_str v lit = true -> v = VStr lit.
Proof.
  destruct v; simpl; try discriminate. intros H.
  apply String.eqb_eq in H. subst. reflexivity.
Qed.

Lemma record_non_null (v : value) : is_record v = true -> non_null v = true.
Proof. destruct v; simpl; auto. Qed.

Lemma truthy_action_record (step : value) :
  truthy (get_opt step "action") = true -> is_record step = true.
Proof. destruct step; simpl; auto. Qed.

End Fields.

Section Validation.

Lemma validate_step_spec (i : nat) (step : value) :
  non_null step = true -> validate_step i step = Ok (step_errors (i + 1) step).
Proof.
  intros Hnn. unfold validate_step, step_errors.
  rewrite (get_non_null step "action" Hnn). cbn [mbind res_bind Js.bind].
  destruct (negb (truthy (get_opt step "action"))); [reflexivity|].
  rewrite (get_non_null step "params" Hnn). cbn [mbind res_bind Js.bind mret res_ret].
  rewrite is_object_typeof.
  destruct (includes_value ALLOWED_ACTIONS _), (is_object _); reflexivity.
Qed.

Lemma validate_steps_spec (steps : list value) :
  forall (i : nat) (errs : list validation_error),
  Forall (fun s => non_null s = true) steps ->
  validate_steps i steps errs = Ok (errs ++ steps_errors i steps).
Proof.
  induction steps as [|step rest IH]; intros i errs Hnn; simpl.
  - rewrite app_nil_r. reflexivity.
  - apply Forall_cons in Hnn as [Hs Hnn].
    rewrite (validate_step_spec i step Hs). cbn [mbind res_bind Js.bind].
    rewrite (IH (S i) _ Hnn), app_assoc. reflexivity.
Qed.

Lemma validate_step_null (i : nat) (step : value) :
  non_null step = false -> exists e, validate_step i step = Throw e.
Proof. destruct step; simpl; try discriminate; intros _; eexists; reflexivity. Qed.

Lemma validate_steps_ok (steps : list value) :
  forall (i : nat) (errs errs' : list validation_error),
  validate_steps i steps errs = Ok errs' ->
  Forall (fun s => non_null s = true) steps.
Proof.
  induction steps as [|step rest IH]; intros i errs errs' H; [constructor|].
  simpl in H. destruct (non_null step) eqn:Hs.
  - rewrite (validate_step_spec i step Hs) in H. cbn [mbind res_bind Js.bind] in H.
    constructor; [exact Hs|]. exact (IH _ _ _ H).
  - destruct (validate_step_null i step Hs) as [e He]. rewrite He in H. discriminate.
Qed.

Lemma allowed_truthy (v : value) :
  includes_value ALLOWED_ACTIONS v = true -> truthy v = true.
Proof.
  destruct v as [| | | |a| |]; try discriminate.
  destruct a; [discriminate|reflexivity].
Qed.

Lemma step_errors_nil (n : nat) (step : value) :
  step_errors n step = [] <-> well_formed_step step = true.
Proof.
  unfold step_errors, well_formed_step.
  pose proof (allowed_truthy (get_opt step "action")) as Ht.
  destruct (includes_value ALLOWED_ACTIONS (get_opt step "action")).
  - rewrite Ht by reflexivity.
    destruct (is_object (get_opt step "params")); simpl; split; auto; intro; discriminate.
  - destruct (truthy (get_opt step "action")); simpl; split; intro; discriminate.
Qed.

Lemma steps_errors_nil (steps : list value) :
  forall i : nat,
  steps_errors i steps = [] <-> Forall (fun s => well_formed_step s = true) steps.
Proof.
  induction steps as [|step rest IH]; intros i; simpl.
  - split; auto.
  - split.
    + intros H. apply app_eq_nil in H as [H1 H2]. constructor.
      * apply (step_errors_nil (i + 1)). exact H1.
      * apply (IH (S i)). exact H2.
    + intros H. apply Forall_cons in H as [H1 H2].
      apply (step_errors_nil (i + 1)) in H1. apply (IH (S i)) in H2.
      rewrite H1, H2. reflexivity.
Qed.

Lemma well_formed_record (step : value) :
  well_formed_step step = true -> is_record step = true.
Proof.
  unfold well_formed_step. destruct step; simpl; auto.
Qed.

End Validation.

Section ValidatePlan.

Lemma plan_steps_record (plan : value) (steps : list value) :
  plan_steps plan = Some steps -> is_record plan = true.
Proof. destruct plan; simpl; try discriminate; reflexivity. Qed.

(** [validatePlan] on a record whose steps are an array. *)
Lemma validatePlan_unfold (uuid : string) (fields : list (string * value))
    (steps : list value) :
  plan_steps (VObj fields) = Some steps ->
  let fields1 := update_field "steps" (VArr steps) fields in
  let fields2 := if truthy (lookup_field "transaction_id" fields1) then fields1
                 else update_field "transaction_id" (VStr uuid) fields1 in
  validatePlan uuid (VObj fields) =
    if MAX_STEPS <? length steps then Ok (invalid [ETooManySteps (length steps)])
    else if length steps =? 0 then Ok (invalid [ENoSteps])
    else
      errs ← validate_steps 0 steps [];
      Ok {| valid := length errs =? 0; errors := errs;
            vplan := if length errs =? 0 then VObj fields2 else VNull |}.
Proof.
  intros Hsteps fields1 fields2. unfold plan_steps in Hsteps. unfold validatePlan.
  cbn [get get_opt truthy typeof_object negb orb] in *.
  cbn [mbind res_bind Js.bind].
  destruct (or_else _ _) as [| | | | |l|] eqn:Hs; try discriminate.
  injection Hsteps as ->.
  cbn [set get mbind res_bind Js.bind]. fold fields1.
  destruct (truthy (lookup_field "transaction_id" fields1)) eqn:Ht;
    cbn [negb set mbind res_bind Js.bind mret res_ret]; subst fields2; rewrite ?Ht; reflexivity.
Qed.

(** For steps that are not [null], the loop visits every step and the
    list returned holds the errors of all of them, in step order. *)
Lemma validatePlan_reports_all (uuid : string) (fields : list (string * value))
    (steps : list value) :
  plan_steps (VObj fields) = Some steps ->
  1 <= length steps <= MAX_STEPS ->
  Forall (fun s => non_null s = true) steps ->
  exists plan',
    validatePlan uuid (VObj fields) =
      Ok {| valid := length (steps_errors 0 steps) =? 0;
            errors := steps_errors 0 steps;
            vplan := plan' |}.
Proof.
  intros Hsteps [Hlo Hhi] Hnn.
  rewrite (validatePlan_unfold uuid fields steps Hsteps).
  destruct (Nat.ltb_spec MAX_STEPS (length steps)) as [?|_]; [lia|].
  destruct (Nat.eqb_spec (length steps) 0) as [?|_]; [lia|].
  rewrite (validate_steps_spec steps 0 [] Hnn).
  cbn [mbind res_bind Js.bind app]. eexists. reflexivity.
Qed.

End ValidatePlan.

Section Pipeline.

Context (uuid : string) (env : nat -> step_env) (parsed txid : value) (st : State).

Lemma pipeline_rejected (stamped : value) (e : exn) :
  truthy parsed = true ->
  stamp parsed txid = Ok stamped ->
  validatePlan uuid stamped = Throw e ->
  handleChatbotResponse uuid env parsed txid st = (st, chatbot_intro txid, Rejected e).
Proof.
  intros Ht Hs Hv. unfold handleChatbotResponse. rewrite Ht. cbn [negb].
  unfold stamp in Hs. rewrite Hs. cbn [mbind res_bind Js.bind]. rewrite Hv. reflexivity.
Qed.

Lemma pipeline_invalid (stamped : value) (v : validation) :
  truthy parsed = true ->
  stamp parsed txid = Ok stamped ->
  validatePlan uuid stamped = Ok v ->
  valid v = false ->
  handleChatbotResponse uuid env parsed txid st =
    (st,
     chatbot_intro txid ++
       [ Log (LValidationErrors (errors v));
         ToDesktop (ExecutionStatus txid (StatusError (LValidationErrors (errors v))));
         ToPopup (PExecutionError (LValidationErrors (errors v))) ],
     Invalid (errors v)).
Proof.
  intros Ht Hs Hv Hinv. unfold handleChatbotResponse. rewrite Ht. cbn [negb].
  unfold stamp in Hs. rewrite Hs. cbn [mbind res_bind Js.bind]. rewrite Hv, Hinv. reflexivity.
Qed.

Lemma pipeline_unsafe (stamped : value) (v : validation) (r : safety) :
  truthy parsed = true ->
  stamp parsed txid = Ok stamped ->
  validatePlan uuid stamped = Ok v ->
  valid v = true ->
  runSafetyCheck (vplan v) = Ok r ->
  safe r = false ->
  handleChatbotResponse uuid env parsed txid st =
    (st,
     chatbot_intro txid ++
       [ Log (LSafetyBlocked (violations r));
         ToDesktop (ExecutionStatus txid (Blocked (violations r)));
         ToPopup (PExecutionBlocked (violations r)) ],
     Unsafe (violations r)).
Proof.
  intros Ht Hs Hv Hval Hr Hunsafe. unfold handleChatbotResponse. rewrite Ht. cbn [negb].
  unfold stamp in Hs. rewrite Hs. cbn [mbind res_bind Js.bind].
  rewrite Hv, Hval. cbn [negb]. rewrite Hr, Hunsafe. reflexivity.
Qed.

End Pipeline.

Section ValidateClaims.

Lemma plan_steps_stamp (fields : list (string * value)) (x : value) :
  plan_steps (VObj (update_field "transaction_id" x fields)) = plan_steps (VObj fields).
Proof.
  unfold plan_steps. cbn [get_opt].
  rewrite !lookup_update_other by discriminate. reflexivity.
Qed.

(** C4.  Let [steps] be the array that [validatePlan] takes as the
    steps of the record [plan] ([plan.steps || plan.actions]) and let the
    generated id be non-empty.  If [steps] has 1 to 10 entries, each with
    an action of the allowed set and an object as params, the call
    returns [valid = true] with no error and a plan whose
    [transaction_id] is the one given when that is truthy and the
    generated one otherwise: never [null] or [undefined].  If [steps] is
    empty or has more than 10 entries, the call returns [valid = false]
    with [plan = null], and [handleChatbotResponse] on such a plan ends
    with the validation error, leaves the state as it was and starts no
    step. *)
Theorem validatePlan_accepts_within_bounds (uuid : string) (plan : value)
    (steps : list value) :
  uuid <> "" ->
  plan_steps plan = Some steps ->
  (1 <= length steps <= MAX_STEPS ->
   Forall (fun s => well_formed_step s = true) steps ->
   exists plan',
     validatePlan uuid plan = Ok {| valid := true; errors := []; vplan := plan' |} /\
     get_opt plan' "transaction_id" =
       (if truthy (get_opt plan "transaction_id")
        then get_opt plan "transaction_id" else VStr uuid) /\
     truthy (get_opt plan' "transaction_id") = true /\
     non_null (get_opt plan' "transaction_id") = true /\
     get_opt plan' "steps" = VArr steps) /\
  (length steps = 0 \/ MAX_STEPS < length steps ->
   exists errs,
     validatePlan uuid plan = Ok {| valid := false; errors := errs; vplan := VNull |} /\
     forall (env : nat -> step_env) (txid : value) (st : State),
     exists evs,
       handleChatbotResponse uuid env plan txid st = (st, evs, Invalid errs) /\
       attempted evs = [] /\ dispatched evs = []).
Proof.
  intros Huuid Hsteps.
  pose proof (plan_steps_record plan steps Hsteps) as Hrec.
  destruct plan as [| | | | | |fields]; try discriminate. clear Hrec.
  split.
  - intros [Hlo Hhi] Hwf.
    rewrite (validatePlan_unfold uuid fields steps Hsteps).
    destruct (Nat.ltb_spec MAX_STEPS (length steps)) as [?|_]; [lia|].
    destruct (Nat.eqb_spec (length steps) 0) as [?|_]; [lia|].
    rewrite validate_steps_spec.
    2:{ eapply Forall_impl; [exact Hwf|]. intros s Hs.
        apply record_non_null, well_formed_record, Hs. }
    apply (steps_errors_nil steps 0) in Hwf. rewrite Hwf.
    cbn [mbind res_bind Js.bind app length Nat.eqb].
    eexists. split; [reflexivity|].
    cbn [get_opt]. rewrite lookup_update_other by discriminate.
    destruct (truthy (lookup_field "transaction_id" fields)) eqn:Ht.
    + rewrite !lookup_update_other by discriminate. rewrite Ht.
      rewrite lookup_update_same.
      repeat split; auto. destruct (lookup_field "transaction_id" fields); auto; discriminate.
    + rewrite lookup_update_same, lookup_update_other by discriminate.
      rewrite lookup_update_same. cbn [truthy non_null].
      destruct (String.eqb_spec uuid ""); [contradiction|]. auto.
  - intros Hbad.
    assert (Hv : forall fields', plan_steps (VObj fields') = Some steps ->
              exists errs, validatePlan uuid (VObj fields') =
                Ok {| valid := false; errors := errs; vplan := VNull |} /\
                errs = if MAX_STEPS <? length steps
                       then [ETooManySteps (length steps)] else [ENoSteps]).
    { intros fields' H'. rewrite (validatePlan_unfold uuid fields' steps H').
      destruct (Nat.ltb_spec MAX_STEPS (length steps)) as [?|?].
      - eexists. split; reflexivity.
      - destruct (Nat.eqb_spec (length steps) 0) as [?|?]; [|lia].
        eexists. split; reflexivity. }
    destruct (Hv fields Hsteps) as (errs & Hval & Herrs).
    exists errs. split; [exact Hval|].
    intros env txid st.
    destruct (Hv (update_field "transaction_id"
                    (or_else txid (lookup_field "transaction_id" fields)) fields))
      as (errs' & Hval' & Herrs').
    { rewrite plan_steps_stamp. exact Hsteps. }
    assert (Heq : errs' = errs) by congruence.
    clear Herrs Herrs'. subst errs'.
    pose proof (pipeline_invalid uuid env (VObj fields) txid st _ _
                  eq_refl eq_refl Hval' eq_refl) as Hp.
    cbn [errors] in Hp. rewrite Hp.
    eexists. split; [reflexivity|]. split; reflexivity.
Qed.

(** C10, at the input where the code departs from it.  For the plan
    [{ steps: [null] }] (one step, within the bounds) [validatePlan]
    returns no error list: reading [step.action] throws a TypeError, and
    [handleChatbotResponse] ends with that exception after its two
    opening calls, so no validation error is reported. *)
Theorem validatePlan_throws_on_null_step (uuid : string) (env : nat -> step_env)
    (txid : value) (st : State) :
  plan_steps null_step_plan = Some [VNull] /\
  validatePlan uuid null_step_plan =
    Throw (TypeError "Cannot read properties of null or undefined") /\
  handleChatbotResponse uuid env null_step_plan txid st =
    (st, [Log (LChatbotResponse txid); ToPopup PChatbotRaw],
     Rejected (TypeError "Cannot read properties of null or undefined")).
Proof.
  split; [reflexivity|]. split; [reflexivity|].
  apply (pipeline_rejected uuid env null_step_plan txid st _ _ eq_refl eq_refl).
  unfold null_step_plan. cbn [get_opt].
  rewrite (validatePlan_unfold uuid _ [VNull]).
  - reflexivity.
  - rewrite plan_steps_stamp. reflexivity.
Qed.

End ValidateClaims.

(** ** Safety filter *)
Section Safety.

Lemma stringify_defined (v : value) : v <> VUndef -> exists s, stringify v = Some s.
Proof.
  destruct v as [| |b| | | |]; intros H; try (eexists; reflexivity).
  - contradiction.
  - destruct b; eexists; reflexivity.
Qed.

Lemma paramsStr_spec (step : value) :
  non_null step = true -> paramsStr step = Ok (params_text step).
Proof.
  intros Hnn. unfold paramsStr, params_text.
  rewrite (get_non_null step "params" Hnn). cbn [mbind res_bind Js.bind].
  destruct (stringify_defined (or_else (get_opt step "params") (VObj []))) as [s Hs].
  - unfold or_else. destruct (truthy (get_opt step "params")) eqn:Ht; [|discriminate].
    intros Hu. rewrite Hu in Ht. discriminate.
  - rewrite Hs. reflexivity.
Qed.

Lemma existsb_filter {A : Type} (f : A -> bool) (l : list A) :
  existsb f l = negb (length (List.filter f l) =? 0).
Proof.
  induction l as [|a l IH]; simpl; [reflexivity|].
  destruct (f a); simpl; [reflexivity|exact IH].
Qed.

Lemma scan_keywords_spec (i : nat) (str : string) (kws : list string) :
  forall (viol : list violation) (fields : list (string * value)),
  scan_keywords i str kws viol (VObj fields) =
    Ok (viol ++ map (Violation (i + 1)) (List.filter (includes str) kws),
        VObj (if existsb (includes str) kws
              then update_field "safety_check" (VStr "blocked") fields
              else fields)).
Proof.
  induction kws as [|kw kws IH]; intros viol fields; simpl.
  - rewrite app_nil_r. reflexivity.
  - destruct (includes str kw); simpl.
    + rewrite IH. rewrite update_update, <- app_assoc. simpl.
      destruct (existsb (includes str) kws); reflexivity.
    + apply IH.
Qed.

Lemma blocked_truthy (v : value) :
  negb (truthy v) || negb (is_str v "blocked") = negb (is_str v "blocked").
Proof.
  destruct v as [| |b| |s| |]; simpl; try reflexivity.
  - destruct b; reflexivity.
  - rewrite orb_true_r. reflexivity.
  - destruct (String.eqb_spec s "blocked") as [->|_]; simpl.
    + reflexivity.
    + rewrite orb_true_r. reflexivity.
Qed.

Lemma check_step_spec (i : nat) (viol : list violation) (fields : list (string * value)) :
  check_step i viol (VObj fields) =
    Ok (viol ++ map (Violation (i + 1)) (hits (VObj fields)), marked (VObj fields)).
Proof.
  unfold check_step. rewrite paramsStr_spec by reflexivity.
  cbn [mbind res_bind Js.bind]. rewrite scan_keywords_spec.
  cbn [mbind res_bind Js.bind get].
  unfold marked, has_hit, hits. rewrite <- existsb_filter.
  destruct (existsb (includes (params_text (VObj fields))) DESTRUCTIVE_KEYWORDS).
  - rewrite lookup_update_same. reflexivity.
  - rewrite blocked_truthy.
    destruct (is_str (lookup_field "safety_check" fields) "blocked"); reflexivity.
Qed.

Lemma check_steps_spec (steps : list value) :
  forall (i : nat) (viol : list violation) (done : list value),
  Forall (fun s => is_record s = true) steps ->
  check_steps i steps viol done =
    Ok (viol ++ steps_violations i steps, done ++ map marked steps).
Proof.
  induction steps as [|step rest IH]; intros i viol done Hrec; simpl.
  - rewrite !app_nil_r. reflexivity.
  - apply Forall_cons in Hrec as [Hs Hrec].
    destruct step as [| | | | | |fields]; try discriminate.
    rewrite check_step_spec. cbn [mbind res_bind Js.bind].
    rewrite (IH (S i) _ _ Hrec), <- !app_assoc. reflexivity.
Qed.

Lemma collect_domains_ok (steps : list value) :
  Forall (fun s => is_record s = true) steps -> collect_domains steps = Ok ().
Proof.
  induction 1 as [|step rest Hs _ IH]; simpl; [reflexivity|].
  destruct step; try discriminate. exact IH.
Qed.

Lemma runSafetyCheck_spec (fields : list (string * value)) (steps : list value) :
  lookup_field "steps" fields = VArr steps ->
  Forall (fun s => is_record s = true) steps ->
  runSafetyCheck (VObj fields) =
    Ok {| safe := length (steps_violations 0 steps) =? 0;
          violations := steps_violations 0 steps;
          splan := VObj (update_field "steps" (VArr (map marked steps)) fields) |}.
Proof.
  intros Hsteps Hrec. unfold runSafetyCheck. cbn [get mbind res_bind Js.bind].
  rewrite Hsteps, (collect_domains_ok steps Hrec). cbn [mbind res_bind Js.bind].
  rewrite (check_steps_spec steps 0 [] [] Hrec). reflexivity.
Qed.

End Safety.

Section SafetyClaims.

Lemma validatePlan_no_steps (uuid : string) (fields : list (string * value)) :
  plan_steps (VObj fields) = None ->
  validatePlan uuid (VObj fields) = Ok (invalid [ENoStepsArray]).
Proof.
  unfold plan_steps, validatePlan.
  cbn [get get_opt truthy typeof_object negb orb mbind res_bind Js.bind].
  destruct (or_else _ _); try reflexivity. discriminate.
Qed.

Lemma validatePlan_non_record (uuid : string) (parsed : value) :
  is_record parsed = false -> exists errs, validatePlan uuid parsed = Ok (invalid errs).
Proof.
  intros Hrec. unfold validatePlan.
  destruct parsed as [| |b|z|s|l|fields]; try discriminate;
    cbn [typeof_object negb]; rewrite ?orb_true_r; try (eexists; reflexivity).
Qed.

Lemma length_eqb_nil {A : Type} (l : list A) : (length l =? 0) = true -> l = [].
Proof. destruct l; [reflexivity|discriminate]. Qed.

(** What a plan that passed [validatePlan] looks like. *)
Lemma validated_shape (uuid : string) (parsed : value) (v : validation) :
  validatePlan uuid parsed = Ok v ->
  valid v = true ->
  exists fields steps,
    vplan v = VObj fields /\
    lookup_field "steps" fields = VArr steps /\
    Forall (fun s => well_formed_step s = true) steps /\
    1 <= length steps <= MAX_STEPS.
Proof.
  intros Hv Hvalid.
  destruct (is_record parsed) eqn:Hrec.
  2:{ destruct (validatePlan_non_record uuid parsed Hrec) as [errs He].
      rewrite He in Hv. injection Hv as <-. discriminate. }
  destruct parsed as [| | | | | |fields]; try discriminate. clear Hrec.
  - destruct (plan_steps (VObj fields)) as [steps|] eqn:Hsteps.
    + rewrite (validatePlan_unfold uuid fields steps Hsteps) in Hv.
      destruct (Nat.ltb_spec MAX_STEPS (length steps)) as [?|Hhi];
        [injection Hv as <-; discriminate|].
      destruct (Nat.eqb_spec (length steps) 0) as [?|Hlo];
        [injection Hv as <-; discriminate|].
      destruct (validate_steps 0 steps []) as [errs|e] eqn:Herrs; [|discriminate].
      cbn [mbind res_bind Js.bind] in Hv. injection Hv as <-. cbn [valid vplan] in *.
      rewrite Hvalid.
      pose proof (validate_steps_ok steps 0 [] errs Herrs) as Hnn.
      rewrite (validate_steps_spec steps 0 [] Hnn) in Herrs. injection Herrs as <-.
      apply length_eqb_nil in Hvalid. cbn [app] in Hvalid.
      apply (steps_errors_nil steps 0) in Hvalid.
      eexists. exists steps. split; [reflexivity|].
      split; [|split; [exact Hvalid|lia]].
      destruct (truthy _); rewrite ?lookup_update_other by discriminate;
        apply lookup_update_same.
    + rewrite (validatePlan_no_steps uuid fields Hsteps) in Hv.
      injection Hv as <-. discriminate.
Qed.

Lemma steps_violations_nil (steps : list value) :
  forall i : nat,
  steps_violations i steps = [] <-> Forall (fun s => has_hit s = false) steps.
Proof.
  induction steps as [|step rest IH]; intros i; simpl.
  - split; auto.
  - unfold has_hit at 1. split.
    + intros H. apply app_eq_nil in H as [H1 H2].
      apply map_eq_nil in H1. constructor; [rewrite H1; reflexivity|].
      apply (IH (S i)). exact H2.
    + intros H. apply Forall_cons in H as [H1 H2].
      apply negb_false_iff, length_eqb_nil in H1. rewrite H1.
      apply (IH (S i)) in H2. rewrite H2. reflexivity.
Qed.

Lemma steps_violations_in (steps : list value) :
  forall (i n : nat) (kw : string),
  In (Violation n kw) (steps_violations i steps) ->
  exists j step, steps !! j = Some step /\ n = i + j + 1 /\ In kw (hits step).
Proof.
  induction steps as [|step rest IH]; intros i n kw H; simpl in H; [contradiction|].
  apply in_app_or in H as [H|H].
  - apply in_map_iff in H as (kw' & [= <- <-] & Hin).
    exists 0, step. split; [reflexivity|]. split; [lia|exact Hin].
  - destruct (IH (S i) n kw H) as (j & s & Hj & Hn & Hin).
    exists (S j), s. split; [exact Hj|]. split; [lia|exact Hin].
Qed.

Lemma has_hit_keyword (step : value) :
  has_hit step = true <->
  exists kw, In kw DESTRUCTIVE_KEYWORDS /\ includes (params_text step) kw = true.
Proof.
  unfold has_hit, hits. rewrite <- existsb_filter. apply existsb_exists.
Qed.

Lemma marked_mark (step : value) :
  is_record step = true ->
  get_opt (marked step) "safety_check" =
    VStr (if has_hit step || is_str (get_opt step "safety_check") "blocked"
          then "blocked" else "passed").
Proof.
  destruct step as [| | | | | |fields]; try discriminate. intros _.
  unfold marked. cbn [get_opt]. destruct (has_hit (VObj fields)); cbn [orb].
  - cbn [get_opt]. apply lookup_update_same.
  - destruct (is_str (lookup_field "safety_check" fields) "blocked") eqn:Hb.
    + cbn [get_opt]. apply is_str_true. exact Hb.
    + cbn [get_opt]. apply lookup_update_same.
Qed.

Lemma mark_of_marked (fields : list (string * value)) (steps : list value)
    (i : nat) (step : value) :
  steps !! i = Some step ->
  mark_of (VObj (update_field "steps" (VArr (map marked steps)) fields)) i =
    get_opt (marked step) "safety_check".
Proof.
  intros Hi. unfold mark_of, steps_of. cbn [get_opt].
  rewrite lookup_update_same. 
  change (map marked steps) with (marked <$> steps).
  rewrite list_lookup_fmap, Hi. reflexivity.
Qed.

Lemma safe_iff_no_hit (steps : list value) :
  (length (steps_violations 0 steps) =? 0) = false <->
  exists i step, steps !! i = Some step /\ has_hit step = true.
Proof.
  split.
  - intros H. destruct (steps_violations 0 steps) as [|[n kw] rest] eqn:Hv; [discriminate|].
    destruct (steps_violations_in steps 0 n kw) as (j & s & Hj & _ & Hin).
    { rewrite Hv. left. reflexivity. }
    exists j, s. split; [exact Hj|].
    unfold has_hit. destruct (hits s); [contradiction|reflexivity].
  - intros (i & step & Hi & Hh).
    destruct (length (steps_violations 0 steps) =? 0) eqn:Hl; [|reflexivity].
    apply length_eqb_nil, (steps_violations_nil steps 0) in Hl.
    rewrite Forall_forall in Hl.
    rewrite (Hl step) in Hh; [discriminate|].
    apply list_elem_of_lookup. exists i. exact Hi.
Qed.

(** C1, amended.  For every plan that [validatePlan] accepted,
    [runSafetyCheck] returns; [safe] is false exactly when the
    serialized, lower-cased params of some step contain a denylisted
    keyword; the violations are one per step and keyword hit, in step
    and list order; the returned plan has as many steps; a step with a
    hit is marked blocked, a step without one is marked passed unless it
    came in marked blocked, which it then stays; and when the result is
    unsafe, [handleChatbotResponse] reports the violations, leaves the
    state as it was and starts no step. *)
Theorem safety_check_gates_execution (uuid : string) (parsed : value) (v : validation) :
  validatePlan uuid parsed = Ok v ->
  valid v = true ->
  exists r,
    runSafetyCheck (vplan v) = Ok r /\
    (safe r = false <->
       exists i step kw,
         steps_of (vplan v) !! i = Some step /\ In kw DESTRUCTIVE_KEYWORDS /\
         includes (params_text step) kw = true) /\
    violations r = steps_violations 0 (steps_of (vplan v)) /\
    length (steps_of (splan r)) = length (steps_of (vplan v)) /\
    (forall i step,
       steps_of (vplan v) !! i = Some step ->
       mark_of (splan r) i =
         VStr (if has_hit step || is_str (get_opt step "safety_check") "blocked"
               then "blocked" else "passed")) /\
    (forall (env : nat -> step_env) (parsed0 txid : value) (st : State),
       truthy parsed0 = true ->
       stamp parsed0 txid = Ok parsed ->
       safe r = false ->
       handleChatbotResponse uuid env parsed0 txid st =
         (st,
          chatbot_intro txid ++
            [ Log (LSafetyBlocked (violations r));
              ToDesktop (ExecutionStatus txid (Blocked (violations r)));
              ToPopup (PExecutionBlocked (violations r)) ],
          Unsafe (violations r))).
Proof.
  intros Hv Hvalid.
  destruct (validated_shape uuid parsed v Hv Hvalid) as (fields & steps & Hplan & Hsteps & Hwf & _).
  assert (Hrec : Forall (fun s => is_record s = true) steps).
  { eapply Forall_impl; [exact Hwf|]. intros s. apply well_formed_record. }
  pose proof (runSafetyCheck_spec fields steps Hsteps Hrec) as Hr.
  rewrite <- Hplan in Hr.
  assert (Hof : steps_of (vplan v) = steps).
  { rewrite Hplan. unfold steps_of. cbn [get_opt]. rewrite Hsteps. reflexivity. }
  eexists. split; [exact Hr|]. cbn [safe violations splan]. rewrite Hof.
  split; [|split; [reflexivity|split; [|split]]].
  - rewrite safe_iff_no_hit. split.
    + intros (i & step & Hi & Hh). apply has_hit_keyword in Hh as (kw & Hin & Hinc).
      exists i, step, kw. auto.
    + intros (i & step & kw & Hi & Hin & Hinc). exists i, step. split; [exact Hi|].
      apply has_hit_keyword. exists kw. auto.
  - unfold steps_of. cbn [get_opt]. rewrite lookup_update_same. apply length_map.
  - intros i step Hi. rewrite (mark_of_marked fields steps i step Hi).
    apply marked_mark. rewrite Forall_forall in Hrec. apply Hrec.
    apply list_elem_of_lookup. exists i. exact Hi.
  - intros env parsed0 txid st Ht Hs Hunsafe.
    apply (pipeline_unsafe uuid env parsed0 txid st parsed v _ Ht Hs Hv Hvalid Hr Hunsafe).
Qed.

End SafetyClaims.

Section SafetyWitnesses.

Lemma safety_check_gates_execution_witness :
  exists v r,
    validatePlan "u" unsafe_plan = Ok v /\
    runSafetyCheck (vplan v) = Ok r /\
    safe r = false /\
    violations r = [Violation 1 "delete"] /\
    mark_of (splan r) 0 = VStr "blocked" /\
    mark_of (splan r) 1 = VStr "passed".
Proof.
  destruct (validatePlan "u" unsafe_plan) as [v|e] eqn:Hv; [|vm_compute in Hv; discriminate].
  assert (Hvalid : valid v = true) by (vm_compute in Hv; injection Hv as <-; reflexivity).
  destruct (safety_check_gates_execution "u" unsafe_plan v Hv Hvalid)
    as (r & Hr & Hsafe & Hviol & _ & Hmark & _).
  exists v, r. split; [reflexivity|]. split; [exact Hr|].
  vm_compute in Hv. injection Hv as <-.
  split; [|split; [|split]].
  - apply Hsafe.
    exists 0, (VObj [("action", VStr "click_element");
                     ("params", VObj [("target", VStr "Delete account")])]), "delete".
    split; [reflexivity|]. split; [simpl; auto|reflexivity].
  - rewrite Hviol. reflexivity.
  - rewrite (Hmark 0 _ eq_refl). reflexivity.
  - rewrite (Hmark 1 _ eq_refl). reflexivity.
Defined.

(** C1 as stated fails where a step comes in marked blocked: the plan
    validates, no parameter of its step contains a keyword, the result
    is safe, and the step is returned marked blocked, not passed. *)
Lemma preblocked_step_is_not_marked_passed :
  exists v r,
    validatePlan "u" preblocked_plan = Ok v /\ valid v = true /\
    runSafetyCheck (vplan v) = Ok r /\ safe r = true /\
    (forall step, steps_of (vplan v) !! 0 = Some step -> has_hit step = false) /\
    mark_of (splan r) 0 = VStr "blocked" /\
    mark_of (splan r) 0 <> VStr "passed".
Proof.
  eexists. eexists.
  split; [vm_compute; reflexivity|]. split; [reflexivity|].
  split; [vm_compute; reflexivity|]. split; [reflexivity|].
  split; [|split; [reflexivity|discriminate]].
  intros step [= <-]. reflexivity.
Qed.

(** C2.  Let [step] be the [i]-th step of a plan whose steps are
    records, marked [blocked] on arrival and with no denylisted keyword
    in its serialized parameters.  [runSafetyCheck] returns it still
    marked blocked (so not passed) and no violation names step i+1; if
    no other step has a hit either, the result is [safe = true] with no
    violation at all, although the returned plan holds a step that is
    not marked passed. *)
Theorem preblocked_step_stays_blocked (fields : list (string * value))
    (steps : list value) (i : nat) (step : value) :
  lookup_field "steps" fields = VArr steps ->
  Forall (fun s => is_record s = true) steps ->
  steps !! i = Some step ->
  is_str (get_opt step "safety_check") "blocked" = true ->
  has_hit step = false ->
  exists r,
    runSafetyCheck (VObj fields) = Ok r /\
    mark_of (splan r) i = VStr "blocked" /\
    mark_of (splan r) i <> VStr "passed" /\
    (forall kw, ~ In (Violation (i + 1) kw) (violations r)) /\
    ((forall j s, steps !! j = Some s -> has_hit s = false) ->
     safe r = true /\ violations r = []).
Proof.
  intros Hsteps Hrec Hi Hblocked Hnohit.
  eexists. split; [apply (runSafetyCheck_spec fields steps Hsteps Hrec)|].
  cbn [safe violations splan].
  assert (Hm : mark_of (VObj (update_field "steps" (VArr (map marked steps)) fields)) i =
               VStr "blocked").
  { rewrite (mark_of_marked fields steps i step Hi), marked_mark.
    - rewrite Hblocked, orb_true_r. reflexivity.
    - rewrite Forall_forall in Hrec. apply Hrec, list_elem_of_lookup. exists i. exact Hi. }
  split; [exact Hm|]. split; [rewrite Hm; discriminate|]. split.
  - intros kw Hin.
    destruct (steps_violations_in steps 0 (i + 1) kw Hin) as (j & s & Hj & Hn & Hkw).
    assert (j = i) by lia. subst j. rewrite Hi in Hj. injection Hj as <-.
    unfold has_hit in Hnohit. destruct (hits step); [contradiction|discriminate].
  - intros Hall.
    assert (Hnil : steps_violations 0 steps = []).
    { apply steps_violations_nil, Forall_forall. intros s Hs.
      apply list_elem_of_lookup in Hs as [j Hj]. exact (Hall j s Hj). }
    rewrite Hnil. split; reflexivity.
Qed.

Lemma preblocked_step_stays_blocked_witness :
  exists v r,
    validatePlan "u" preblocked_plan = Ok v /\ valid v = true /\
    runSafetyCheck (vplan v) = Ok r /\
    safe r = true /\ violations r = [] /\
    mark_of (splan r) 0 = VStr "blocked".
Proof.
  destruct (preblocked_step_stays_blocked
              [("steps", VArr [VObj [("action", VStr "wait");
                                     ("params", VObj [("ms", VNum 1000)]);
                                     ("safety_check", VStr "blocked")]]);
               ("transaction_id", VStr "u")]
              [VObj [("action", VStr "wait");
                     ("params", VObj [("ms", VNum 1000)]);
                     ("safety_check", VStr "blocked")]]
              0
              (VObj [("action", VStr "wait");
                     ("params", VObj [("ms", VNum 1000)]);
                     ("safety_check", VStr "blocked")]))
    as (r & Hr & Hm & _ & _ & Hsafe).
  - reflexivity.
  - repeat constructor.
  - reflexivity.
  - reflexivity.
  - reflexivity.
  - destruct Hsafe as [Hs Hv].
    { intros [|j] s Hj; [injection Hj as <-; reflexivity|discriminate]. }
    eexists. exists r. split; [vm_compute; reflexivity|]. split; [reflexivity|].
    split; [exact Hr|]. split; [exact Hs|]. split; [exact Hv|exact Hm].
Defined.

Lemma validatePlan_accepts_within_bounds_witness :
  (exists plan',
     validatePlan "txn-1" preblocked_plan =
       Ok {| valid := true; errors := []; vplan := plan' |} /\
     get_opt plan' "transaction_id" = VStr "txn-1") /\
  (exists errs,
     validatePlan "txn-1" eleven_steps_plan =
       Ok {| valid := false; errors := errs; vplan := VNull |}).
Proof.
  split.
  - destruct (validatePlan_accepts_within_bounds "txn-1" preblocked_plan
                [VObj [("action", VStr "wait");
                       ("params", VObj [("ms", VNum 1000)]);
                       ("safety_check", VStr "blocked")]])
      as [Hok _]; [discriminate|reflexivity|].
    destruct Hok as (plan' & Hv & Htid & _).
    + simpl. unfold MAX_STEPS. lia.
    + repeat constructor.
    + exists plan'. split; [exact Hv|exact Htid].
  - destruct (validatePlan_accepts_within_bounds "txn-1" eleven_steps_plan
                (replicate 11 (VObj [("action", VStr "wait");
                                     ("params", VObj [("ms", VNum 100)])])))
      as [_ Hbad]; [discriminate|reflexivity|].
    destruct Hbad as (errs & Hv & _).
    + right. simpl. unfold MAX_STEPS. lia.
    + exists errs. exact Hv.
Defined.

End SafetyWitnesses.

(** ** The runs the pipeline starts *)

Section PipelineSteps.

Lemma run_loop_no_crash (env : nat -> step_env) (txid : value) (total : nat)
    (steps : list value) :
  Forall (fun s => non_null s = true) steps ->
  forall (i : nat) (st : State),
  match snd (run_loop env txid total i steps st) with
  | RunCrashed _ _ => False
  | _ => True
  end.
Proof.
  induction 1 as [|step rest Hs _ IH]; intros i st; simpl; [exact I|].
  destruct (killSwitchActive st); [exact I|].
  rewrite (get_non_null step "action" Hs).
  destruct (run_step (env i) txid total i step (get_opt step "action") st) as [st1 e1].
  specialize (IH (S i) st1).
  destruct (run_loop env txid total (S i) rest st1) as [[st2 e2] r]. exact IH.
Qed.

Lemma marked_record (step : value) : is_record step = true -> is_record (marked step) = true.
Proof.
  destruct step as [| | | | | |fields]; try discriminate. intros _. unfold marked.
  destruct (has_hit _); [reflexivity|].
  destruct (is_str _ _); reflexivity.
Qed.

(** The steps that [handleChatbotResponse] hands to the executor are
    records, so the run it starts ends completed or killed. *)
Lemma pipeline_no_crash (uuid : string) (env : nat -> step_env)
    (parsed txid : value) (st : State) :
  match snd (handleChatbotResponse uuid env parsed txid st) with
  | Ran (RunCrashed _ _) => False
  | _ => True
  end.
Proof.
  unfold handleChatbotResponse.
  destruct (negb (truthy parsed)); [exact I|].
  destruct (set parsed "transaction_id" _) as [stamped|e]; cbn [mbind res_bind Js.bind];
    [|exact I].
  destruct (validatePlan uuid stamped) as [v|e] eqn:Hv; [|exact I].
  destruct (valid v) eqn:Hvalid; cbn [negb]; [|exact I].
  destruct (validated_shape uuid stamped v Hv Hvalid)
    as (fields & steps & Hplan & Hsteps & Hwf & _).
  assert (Hrec : Forall (fun s => is_record s = true) steps).
  { eapply Forall_impl; [exact Hwf|]. intros s. apply well_formed_record. }
  rewrite Hplan, (runSafetyCheck_spec fields steps Hsteps Hrec).
  cbn [safe violations splan].
  destruct (negb (length (steps_violations 0 steps) =? 0)); [exact I|].
  cbn [get_opt]. rewrite lookup_update_same.
  destruct (0 <? length _); [|exact I].
  match goal with
  | |- context [executeBrowserPlan ?e ?t ?s ?x] =>
      assert (Hnn : Forall (fun s0 => non_null s0 = true) s);
      [|pose proof (run_loop_no_crash e t (length s) s Hnn 0 (entering t s x)) as Hno;
        unfold executeBrowserPlan; fold (entering t s x);
        destruct (run_loop e t (length s) 0 s (entering t s x)) as [[st1 evs] r];
        exact Hno]
  end.
  apply Forall_forall. intros s Hs.
  apply list_elem_of_filter in Hs as [_ Hs].
  change (map marked steps) with (marked <$> steps) in Hs.
  apply list_elem_of_fmap in Hs as (s0 & -> & Hs0).
  apply record_non_null, marked_record.
  rewrite Forall_forall in Hrec. exact (Hrec s0 Hs0).
Qed.

End PipelineSteps.

(** * Further properties of the code *)

(** ** Rule engine: what one observation fires *)

Section RuleEngineMore.

Context (now : Z) (url category : string).

Lemma fired_inactive_logs (matched : gset string) (m : gmap string RuleState) :
  fired (inactive_logs matched m) = [].
Proof.
  unfold inactive_logs, fired. generalize (map_to_list m).
  intros l. induction l as [|[k s] l IH]; simpl; [reflexivity|].
  destruct (leaves matched k s); simpl; exact IH.
Qed.

Lemma check_rule_fired_ok (acc : rule_pass) (rule : Rule) :
  fired_ok now acc -> fired_ok now (check_rule now url category acc rule).
Proof.
  intros [Hnd Hf]. unfold check_rule.
  destruct (rule_id rule) as [id|]; [|split; assumption].
  destruct (criteria rule) as [c|]; [|split; assumption].
  destruct (String.eqb id ""); [split; assumption|].
  destruct (rule_matches url category c); [|split; assumption].
  assert (Hgrow : forall i, i ∈ rp_matched acc -> i ∈ {[id]} ∪ rp_matched acc).
  { intros i Hi. apply elem_of_union. right. exact Hi. }
  assert (Hfire : forall st0,
            rp_state acc !! id = st0 ->
            (forall s, st0 = Some s -> active s = false) ->
            fired_ok now {| rp_state := <[id := {| active := true; lastTriggered := now |}]> (rp_state acc);
                        rp_matched := {[id]} ∪ rp_matched acc;
                        rp_events := rp_events acc ++ fireRuleTrigger id |}).
  { intros st0 Hst Hin.
    assert (Hnew : ~ In id (fired (rp_events acc))).
    { intros Hid. destruct (Hf id Hid) as [Hs _]. rewrite Hs in Hst.
      specialize (Hin _ (eq_sym Hst)). discriminate. }
    split; cbn [rp_state rp_matched rp_events]; rewrite fired_app; simpl.
    - apply NoDup_app. split; [exact Hnd|]. split.
      + intros x Hx Hx'. apply list_elem_of_singleton in Hx'. subst x.
        apply Hnew, list_elem_of_In, Hx.
      + apply NoDup_singleton.
    - intros i Hi. apply in_app_or in Hi as [Hi|[<-|[]]].
      + destruct (Hf i Hi) as [Hs Hm].
        destruct (decide (id = i)) as [->|Hne]; [contradiction|].
        rewrite lookup_insert_ne by exact Hne. auto.
      + rewrite lookup_insert_eq. split; [reflexivity|].
        apply elem_of_union. left. apply elem_of_singleton. reflexivity. }
  destruct (rp_state acc !! id) as [s|] eqn:Hs.
  - destruct (active s) eqn:Hact.
    + split; cbn [rp_state rp_matched rp_events]; [exact Hnd|].
      intros i Hi. destruct (Hf i Hi). auto.
    + destruct (RULE_COOLDOWN_MS <=? now - lastTriggered s)%Z.
      * apply (Hfire (Some s) eq_refl). intros s' [= <-]. exact Hact.
      * split; cbn [rp_state rp_matched rp_events]; rewrite fired_app, app_nil_r;
          [exact Hnd|]. intros i Hi. destruct (Hf i Hi). auto.
  - destruct (inherited id).
    + split; cbn [rp_state rp_matched rp_events]; rewrite fired_app, app_nil_r;
        [exact Hnd|]. intros i Hi. destruct (Hf i Hi). auto.
    + apply (Hfire None eq_refl). intros s' [=].
Qed.

Lemma foldl_fired_ok (rules : list Rule) :
  forall acc, fired_ok now acc -> fired_ok now (foldl (check_rule now url category) acc rules).
Proof.
  induction rules as [|r rules IH]; intros acc Hacc; simpl; [exact Hacc|].
  apply IH, check_rule_fired_ok, Hacc.
Qed.

(** X1.  One call of [checkRulesAgainstUrl] sends at most one [rule_triggered]
    message per rule id, whatever the registered list holds (also the
    same id twice), and every id it fires is left active with
    [lastTriggered] equal to the time of the call. *)
Theorem observation_fires_each_id_once (st : State) :
  let out := checkRulesAgainstUrl now url category st in
  NoDup (fired (snd out)) /\
  (forall i, In i (fired (snd out)) ->
     triggeredRulesState (fst out) !! i =
       Some {| active := true; lastTriggered := now |}).
Proof.
  unfold checkRulesAgainstUrl.
  destruct (length (registeredRules st) =? 0); simpl.
  - split; [constructor|]. intros i [].
  - set (acc0 := {| rp_state := triggeredRulesState st; rp_matched := ∅; rp_events := [] |}).
    destruct (foldl_fired_ok (registeredRules st) acc0) as [Hnd Hf].
    { split; simpl; [constructor|]. intros i []. }
    set (p := foldl (check_rule now url category) acc0 (registeredRules st)) in *.
    rewrite fired_app, fired_inactive_logs, app_nil_r.
    split; [exact Hnd|].
    intros i Hi. destruct (Hf i Hi) as [Hs Hm].
    unfold mark_inactive. rewrite map_lookup_imap, Hs. simpl.
    unfold leaves. rewrite (bool_decide_eq_true_2 _ Hm). reflexivity.
Qed.

(** The ids the first loop marks as matched come from rules that match. *)
Lemma foldl_matched (rules : list Rule) :
  forall (acc : rule_pass) (i : string),
  i ∈ rp_matched (foldl (check_rule now url category) acc rules) ->
  i ∈ rp_matched acc \/
  exists r c, In r rules /\ rule_id r = Some i /\ criteria r = Some c /\
              rule_matches url category c = true.
Proof.
  induction rules as [|r rules IH]; intros acc i Hi; simpl in *; [left; exact Hi|].
  destruct (IH _ i Hi) as [Hacc|(r' & c & Hin & Hid & Hc & Hm)].
  - unfold check_rule in Hacc.
    destruct (rule_id r) as [id|] eqn:Hid; [|left; exact Hacc].
    destruct (criteria r) as [c|] eqn:Hc; [|left; exact Hacc].
    destruct (String.eqb id ""); [left; exact Hacc|].
    destruct (rule_matches url category c) eqn:Hm; [|left; exact Hacc].
    assert (Hin : i ∈ {[id]} ∪ rp_matched acc).
    { destruct (rp_state acc !! id) as [s|]; [|destruct (inherited id); exact Hacc].
      destruct (active s); [exact Hacc|].
      destruct (RULE_COOLDOWN_MS <=? now - lastTriggered s)%Z; exact Hacc. }
    apply elem_of_union in Hin as [Hin|Hin]; [|left; exact Hin].
    apply elem_of_singleton in Hin. subst id.
    right. exists r, c. auto.
  - right. exists r', c. auto.
Qed.

(** X2.  After a call of [checkRulesAgainstUrl] with a non-empty rule list,
    an entry of [triggeredRulesState] is active only if a registered
    rule with that id matches the URL or its category: whatever was
    active before and no longer matches has been set inactive. *)
Theorem active_entry_has_matching_rule (st : State) (i : string) (s : RuleState) :
  registeredRules st <> [] ->
  triggeredRulesState (fst (checkRulesAgainstUrl now url category st)) !! i = Some s ->
  active s = true ->
  exists r c,
    In r (registeredRules st) /\ rule_id r = Some i /\ criteria r = Some c /\
    rule_matches url category c = true.
Proof.
  intros Hne Hs Hact. unfold checkRulesAgainstUrl in Hs.
  destruct (registeredRules st) as [|r0 rules] eqn:Hr; [contradiction|].
  cbn [length Nat.eqb fst triggeredRulesState with_rules] in Hs.
  set (acc0 := {| rp_state := triggeredRulesState st; rp_matched := ∅; rp_events := [] |}) in *.
  set (p := foldl (check_rule now url category) acc0 (r0 :: rules)) in *.
  unfold mark_inactive in Hs. rewrite map_lookup_imap in Hs.
  destruct (rp_state p !! i) as [s0|]; [|discriminate]. simpl in Hs.
  injection Hs as Hs. unfold leaves in Hs.
  destruct (bool_decide (i ∈ rp_matched p)) eqn:Hm.
  - apply bool_decide_eq_true_1 in Hm.
    destruct (foldl_matched (r0 :: rules) acc0 i Hm) as [H0|H]; [|exact H].
    simpl in H0. apply not_elem_of_empty in H0. contradiction.
  - simpl in Hs. destruct (active s0) eqn:Ha; subst s; simpl in Hact; congruence.
Qed.

End RuleEngineMore.
(** ** Rule engine: the debounce of one rule *)

Section RuleTransition.

(** X3.  The debounce of one rule, for an id that one registered rule
    carries.  On a match: an absent entry fires and becomes active at
    the time of the call, unless the id names a member of
    [Object.prototype] ([constructor], [toString], ...), for which the
    lookup in the plain object answers with the inherited member, so
    that the rule gets no entry and never fires; an active entry stays
    as it is and does not fire; an inactive entry fires again only when
    at least [RULE_COOLDOWN_MS] have passed since its [lastTriggered]
    and is left untouched otherwise.  Without a match the entry becomes
    inactive, keeps its [lastTriggered] and nothing is fired. *)
Theorem rule_transition (now : Z) (url category i : string) (st : State)
    (before after : list Rule) (r : Rule) (c : Criteria) :
  registeredRules st = before ++ r :: after ->
  rule_id r = Some i -> i <> "" -> criteria r = Some c ->
  Forall (fun r' => rule_id r' <> Some i) (before ++ after) ->
  let out := checkRulesAgainstUrl now url category st in
  let old := triggeredRulesState st !! i in
  let entry := triggeredRulesState (fst out) !! i in
  let fires := In i (fired (snd out)) in
  if rule_matches url category c then
    match old with
    | None =>
        if inherited i then entry = None /\ ~ fires
        else entry = Some {| active := true; lastTriggered := now |} /\ fires
    | Some s =>
        if active s then entry = Some s /\ ~ fires
        else if (RULE_COOLDOWN_MS <=? now - lastTriggered s)%Z
        then entry = Some {| active := true; lastTriggered := now |} /\ fires
        else entry = Some s /\ ~ fires
    end
  else
    entry = (fun s => {| active := false; lastTriggered := lastTriggered s |}) <$> old /\
    ~ fires.
Proof. apply rule_step. Qed.

End RuleTransition.

Lemma rule_transition_witness :
  let st := with_rules [category_rule "r1" "social"] ∅ initial in
  let out := checkRulesAgainstUrl 7 "https://youtube.com/" "social" st in
  triggeredRulesState (fst out) !! "r1" = Some {| active := true; lastTriggered := 7 |} /\
  In "r1" (fired (snd out)).
Proof.
  exact (rule_transition 7 "https://youtube.com/" "social" "r1"
           (with_rules [category_rule "r1" "social"] ∅ initial)
           [] [] (category_rule "r1" "social")
           {| ctype := "category"; cvalue := "social" |}
           eq_refl eq_refl ltac:(discriminate) eq_refl ltac:(constructor)).
Defined.

Lemma active_entry_has_matching_rule_witness :
  exists r c,
    In r [category_rule "r1" "social"] /\ rule_id r = Some "r1" /\
    criteria r = Some c /\ rule_matches "https://youtube.com/" "social" c = true.
Proof.
  apply (active_entry_has_matching_rule 7 "https://youtube.com/" "social"
           (with_rules [category_rule "r1" "social"] ∅ initial)
           "r1" {| active := true; lastTriggered := 7 |}).
  - discriminate.
  - vm_compute. reflexivity.
  - reflexivity.
Defined.
(** ** Executor: the shape of every run *)

Section ExecutorShape.

Context (env : nat -> step_env) (transactionId : value).

Lemma run_loop_frame (total : nat) (steps : list value) :
  forall (i : nat) (st : State),
  let st' := fst (fst (run_loop env transactionId total i steps st)) in
  processedTxIds st' = processedTxIds st /\
  registeredRules st' = registeredRules st /\
  triggeredRulesState st' = triggeredRulesState st /\
  reconnectAttempts st' = reconnectAttempts st /\
  wsConnected st' = wsConnected st /\
  implb (killSwitchActive st) (killSwitchActive st') = true.
Proof.
  induction steps as [|step rest IH]; intros i st; simpl.
  - repeat split. destruct (killSwitchActive st); reflexivity.
  - destruct (killSwitchActive st) eqn:Hk; simpl; [repeat split; exact Hk|].
    destruct (get step "action") as [action|e]; simpl; [|repeat split].
    destruct (run_step_state transactionId total (env i) i step action st)
      as (Hk1 & _ & Hl1 & Hr1 & Ht1 & Ha1 & Hw1).
    destruct (run_step (env i) transactionId total i step action st) as [st1 evs1].
    simpl in *.
    specialize (IH (S i) st1). simpl in IH.
    destruct (run_loop env transactionId total (S i) rest st1) as [[st2 evs2] r].
    simpl in *. destruct IH as (Hl & Hr & Ht & Ha & Hw & _).
    repeat split; congruence.
Qed.

Lemma run_loop_shape (total : nat) (steps : list value) :
  Forall (fun s => non_null s = true) steps ->
  forall (i : nat) (st : State),
  total = i + length steps ->
  let out := run_loop env transactionId total i steps st in
  let evs := snd (fst out) in
  exists m,
    m <= length steps /\
    attempted evs = seq i m /\
    Forall (fun j => i <= j < i + m) (dispatched evs) /\
    currentExecution (fst (fst out)) = None /\
    (snd out = RunCompleted /\ m = length steps /\
       completed evs = [total] /\ killed evs = []
     \/
     snd out = RunKilled (i + m) /\ m < length steps /\
       completed evs = [] /\ killed evs = [(i + m + 1, total)] /\
       killSwitchActive (fst (fst out)) = true).
Proof.
  induction 1 as [|step rest Hs _ IH]; intros i st Ht; simpl.
  - exists 0. split; [lia|]. split; [reflexivity|]. split; [constructor|].
    split; [reflexivity|]. left. repeat split.
  - destruct (killSwitchActive st) eqn:Hk; simpl.
    + exists 0. split; [lia|]. split; [reflexivity|]. split; [constructor|].
      split; [reflexivity|].
      right. rewrite Nat.add_0_r. repeat split; try lia. exact Hk.
    + rewrite (get_non_null _ _ Hs).
      destruct (run_step_trace transactionId total (env i) i step
                  (get_opt step "action") st) as (Ha & Hc & Hki & Hd).
      destruct (run_step (env i) transactionId total i step (get_opt step "action") st)
        as [st1 evs1]. simpl in Ha, Hc, Hki, Hd.
      destruct (IH (S i) st1) as (m & Hm & Hatt & Hdis & Hcur & Hend); [simpl in Ht; lia|].
      destruct (run_loop env transactionId total (S i) rest st1) as [[st2 evs2] r].
      simpl in *. exists (S m).
      rewrite attempted_app, dispatched_app, completed_app, killed_app, Ha, Hc, Hki, Hatt.
      simpl. split; [lia|]. split; [reflexivity|]. split.
      { apply Forall_app. split.
        - eapply Forall_impl; [exact Hd|]. simpl. intros j ->. lia.
        - eapply Forall_impl; [exact Hdis|]. simpl. intros j Hj. lia. }
      split; [exact Hcur|].
      destruct Hend as [(Hr & Hmm & Hco & Hkl)|(Hr & Hmm & Hco & Hkl & Hks)].
      * left. repeat split; [exact Hr|lia|exact Hco|exact Hkl].
      * right. replace (i + S m) with (S i + m) by lia.
        repeat split; [exact Hr|lia|exact Hco|exact Hkl|exact Hks].
Qed.

Lemma executeBrowserPlan_shape (steps : list value) (st : State) :
  Forall (fun s => non_null s = true) steps ->
  let out := executeBrowserPlan env transactionId steps st in
  let evs := snd (fst out) in
  exists m,
    m <= length steps /\
    attempted evs = seq 0 m /\
    Forall (fun j => j < m) (dispatched evs) /\
    currentExecution (fst (fst out)) = None /\
    (snd out = RunCompleted /\ m = length steps /\
       completed evs = [length steps] /\ killed evs = []
     \/
     snd out = RunKilled m /\ m < length steps /\
       completed evs = [] /\ killed evs = [(m + 1, length steps)] /\
       killSwitchActive (fst (fst out)) = true).
Proof.
  intros Hs. cbv zeta. unfold executeBrowserPlan.
  destruct (run_loop_shape (length steps) steps Hs 0
              (with_execution
                 (Some {| exec_transactionId := transactionId;
                          exec_steps := steps; currentStep := 0 |}) st) eq_refl)
    as (m & Hm & Hatt & Hdis & Hcur & Hend).
  exists m. split; [exact Hm|]. split; [exact Hatt|]. split.
  { eapply Forall_impl; [exact Hdis|]. simpl. intros j Hj. lia. }
  split; [exact Hcur|]. exact Hend.
Qed.

Lemma executeBrowserPlan_frame (steps : list value) (st : State) :
  let st' := fst (fst (executeBrowserPlan env transactionId steps st)) in
  processedTxIds st' = processedTxIds st /\
  registeredRules st' = registeredRules st /\
  triggeredRulesState st' = triggeredRulesState st /\
  reconnectAttempts st' = reconnectAttempts st /\
  wsConnected st' = wsConnected st /\
  implb (killSwitchActive st) (killSwitchActive st') = true.
Proof.
  cbv zeta. unfold executeBrowserPlan.
  exact (run_loop_frame (length steps) steps 0
           (with_execution
              (Some {| exec_transactionId := transactionId;
                       exec_steps := steps; currentStep := 0 |}) st)).
Qed.

(** X5.  [executeBrowserPlan] leaves the transaction ledger, the rules,
    their state and the connection variables as they were, and never
    clears the kill switch. *)
Theorem executor_frame (steps : list value) (st : State) :
  let st' := fst (fst (executeBrowserPlan env transactionId steps st)) in
  processedTxIds st' = processedTxIds st /\
  registeredRules st' = registeredRules st /\
  triggeredRulesState st' = triggeredRulesState st /\
  reconnectAttempts st' = reconnectAttempts st /\
  wsConnected st' = wsConnected st /\
  implb (killSwitchActive st) (killSwitchActive st') = true.
Proof. apply executeBrowserPlan_frame. Qed.

End ExecutorShape.

(** ** Pipeline: every way a chatbot response ends *)

Section PipelineOutcomes.

Lemma forwarded_app (a b : list event) : forwarded (a ++ b) = forwarded a ++ forwarded b.
Proof. apply omap_app. Qed.

Lemma run_step_forwarded (o : step_env) (txid : value) (total i : nat)
    (step action : value) (st : State) :
  forwarded (snd (run_step o txid total i step action st)) = [].
Proof.
  unfold run_step, run_action.
  destruct (is_str action "open_url");
    [destruct (truthy _)|
     destruct (is_str action "wait"); [|destruct (includes_value BROWSER_CALLS action)]];
    destruct (kill_arrives o); destruct (throws o); reflexivity.
Qed.

Lemma run_loop_forwarded (env : nat -> step_env) (txid : value) (total : nat)
    (steps : list value) :
  forall (i : nat) (st : State),
  forwarded (snd (fst (run_loop env txid total i steps st))) = [].
Proof.
  induction steps as [|step rest IH]; intros i st; simpl; [reflexivity|].
  destruct (killSwitchActive st); [reflexivity|].
  destruct (get step "action") as [action|e]; [|reflexivity].
  pose proof (run_step_forwarded (env i) txid total i step action st) as H1.
  destruct (run_step (env i) txid total i step action st) as [st1 evs1].
  specialize (IH (S i) st1).
  destruct (run_loop env txid total (S i) rest st1) as [[st2 evs2] r].
  simpl in *. rewrite forwarded_app, H1, IH. reflexivity.
Qed.

Lemma executeBrowserPlan_forwarded (env : nat -> step_env) (txid : value)
    (steps : list value) (st : State) :
  forwarded (snd (fst (executeBrowserPlan env txid steps st))) = [].
Proof. apply run_loop_forwarded. Qed.

Lemma marked_action (step : value) :
  get_opt (marked step) "action" = get_opt step "action".
Proof.
  destruct step as [| | | | | |fields]; try reflexivity. unfold marked.
  destruct (has_hit _); [cbn [get_opt]; apply lookup_update_other; discriminate|].
  destruct (is_str _ _); [reflexivity|].
  cbn [get_opt]. apply lookup_update_other. discriminate.
Qed.

Lemma marked_params (step : value) :
  get_opt (marked step) "params" = get_opt step "params".
Proof.
  destruct step as [| | | | | |fields]; try reflexivity. unfold marked.
  destruct (has_hit _); [cbn [get_opt]; apply lookup_update_other; discriminate|].
  destruct (is_str _ _); [reflexivity|].
  cbn [get_opt]. apply lookup_update_other. discriminate.
Qed.

(** Every step of an accepted plan is a browser step: the allowed
    actions are the browser actions. *)
Lemma well_formed_browser (step : value) :
  well_formed_step step = true ->
  includes_value browserActions (get_opt (marked step) "action") = true.
Proof.
  unfold well_formed_step. intros H. apply andb_true_iff in H as [H _].
  rewrite marked_action. exact H.
Qed.

Lemma filter_all {A : Type} (P : A -> Prop) `{forall x, Decision (P x)} (l : list A) :
  Forall P l -> filter P l = l.
Proof.
  induction 1 as [|x l Hx _ IH]; [reflexivity|].
  rewrite filter_cons_True by exact Hx. rewrite IH. reflexivity.
Qed.

Lemma filter_none {A : Type} (P : A -> Prop) `{forall x, Decision (P x)} (l : list A) :
  Forall (fun x => ~ P x) l -> filter P l = [].
Proof.
  induction 1 as [|x l Hx _ IH]; [reflexivity|].
  rewrite filter_cons_False by exact Hx. exact IH.
Qed.

(** The pipeline on a plan that is accepted and safe. *)
Lemma pipeline_accepted (uuid : string) (env : nat -> step_env)
    (parsed txid : value) (st : State) (stamped : value) (v : validation)
    (fields : list (string * value)) (steps : list value) :
  truthy parsed = true ->
  stamp parsed txid = Ok stamped ->
  validatePlan uuid stamped = Ok v ->
  valid v = true ->
  vplan v = VObj fields ->
  lookup_field "steps" fields = VArr steps ->
  Forall (fun s => well_formed_step s = true) steps ->
  1 <= length steps ->
  steps_violations 0 steps = [] ->
  let plan' := VObj (update_field "steps" (VArr (map marked steps)) fields) in
  let out := executeBrowserPlan env txid (map marked steps) st in
  handleChatbotResponse uuid env parsed txid st =
    (fst (fst out),
     chatbot_intro txid ++
       [ Log (LPlanValidated (length steps)); ToPopup (PPlanValidated plan') ] ++
       [ Log (LExecutingBrowserSteps (length steps));
         ToDesktop (ExecutionStatus txid (Executing (length steps))) ] ++
       snd (fst out),
     Ran (snd out)).
Proof.
  intros Ht Hs Hv Hvalid Hplan Hsteps Hwf Hlen Hsafe. cbv zeta.
  assert (Hrec : Forall (fun s => is_record s = true) steps).
  { eapply Forall_impl; [exact Hwf|]. intros s. apply well_formed_record. }
  unfold handleChatbotResponse. rewrite Ht. cbn [negb].
  unfold stamp in Hs. rewrite Hs. cbn [mbind res_bind Js.bind].
  rewrite Hv, Hvalid. cbn [negb].
  rewrite Hplan, (runSafetyCheck_spec fields steps Hsteps Hrec).
  cbn [safe violations splan]. rewrite Hsafe. cbn [length Nat.eqb negb].
  cbn [get_opt]. rewrite lookup_update_same.
  rewrite filter_all, filter_none.
  - rewrite length_map.
    destruct (Nat.ltb_spec 0 (length steps)) as [_|?]; [|lia].
    change (0 <? length (@nil value)) with false. cbv iota.
    destruct (executeBrowserPlan env txid (map marked steps) st) as [[st1 evs] r].
    reflexivity.
  - apply Forall_forall. intros s Hin.
    change (map marked steps) with (marked <$> steps) in Hin.
    apply list_elem_of_fmap in Hin as (s0 & -> & Hs0).
    rewrite Forall_forall in Hwf. rewrite (well_formed_browser s0 (Hwf s0 Hs0)). discriminate.
  - apply Forall_forall. intros s Hin.
    change (map marked steps) with (marked <$> steps) in Hin.
    apply list_elem_of_fmap in Hin as (s0 & -> & Hs0).
    rewrite Forall_forall in Hwf. exact (well_formed_browser s0 (Hwf s0 Hs0)).
Qed.

(** The steps the safety check passes on are records. *)
Lemma marked_non_null (steps : list value) :
  Forall (fun s => well_formed_step s = true) steps ->
  Forall (fun s => non_null s = true) (map marked steps).
Proof.
  intros Hwf. apply Forall_forall. intros s Hin.
  change (map marked steps) with (marked <$> steps) in Hin.
  apply list_elem_of_fmap in Hin as (s0 & -> & Hs0).
  apply record_non_null, marked_record, well_formed_record.
  rewrite Forall_forall in Hwf. exact (Hwf s0 Hs0).
Qed.

(** Every way the pipeline can end, read off the plan. *)
Lemma pipeline_cases (uuid : string) (env : nat -> step_env)
    (parsed txid : value) (st : State) :
  let out := handleChatbotResponse uuid env parsed txid st in
  (fst (fst out) = st /\
   attempted (snd (fst out)) = [] /\ dispatched (snd (fst out)) = [] /\
   forwarded (snd (fst out)) = [] /\
   match snd out with
   | Ran _ | NothingToRun => False
   | _ => True
   end /\
   (forall stamped v s,
      stamp parsed txid = Ok stamped -> validatePlan uuid stamped = Ok v ->
      valid v = true -> runSafetyCheck (vplan v) = Ok s -> safe s = false))
  \/
  (exists stamped v s,
     truthy parsed = true /\
     stamp parsed txid = Ok stamped /\ validatePlan uuid stamped = Ok v /\
     valid v = true /\ runSafetyCheck (vplan v) = Ok s /\ safe s = true /\
     Forall (fun step => non_null step = true) (steps_of (splan s)) /\
     1 <= length (steps_of (splan s)) <= MAX_STEPS /\
     let run := executeBrowserPlan env txid (steps_of (splan s)) st in
     fst (fst out) = fst (fst run) /\
     snd out = Ran (snd run) /\
     attempted (snd (fst out)) = attempted (snd (fst run)) /\
     dispatched (snd (fst out)) = dispatched (snd (fst run)) /\
     forwarded (snd (fst out)) = [] /\
     completed (snd (fst out)) = completed (snd (fst run)) /\
     killed (snd (fst out)) = killed (snd (fst run))).
Proof.
  cbv zeta.
  destruct (truthy parsed) eqn:Ht.
  2:{ left. unfold handleChatbotResponse. rewrite Ht. cbn [negb fst snd].
      repeat split. intros stamped v s Hs Hv Hvalid.
      destruct parsed as [| |b|z|str|l|f]; try discriminate Ht;
        unfold stamp, set in Hs; try discriminate Hs; injection Hs as <-.
      all: match type of Hv with
           | validatePlan _ ?p = _ =>
               destruct (validatePlan_non_record uuid p eq_refl) as [errs He]
           end; rewrite He in Hv; injection Hv as <-; discriminate Hvalid. }
  destruct (stamp parsed txid) as [stamped|e] eqn:Hs.
  2:{ left. unfold handleChatbotResponse. rewrite Ht. cbn [negb].
      unfold stamp in Hs. rewrite Hs. cbn [mbind res_bind Js.bind fst snd].
      repeat split. intros ? ? ? [=]. }
  destruct (validatePlan uuid stamped) as [v|e] eqn:Hv.
  2:{ left. rewrite (pipeline_rejected uuid env parsed txid st stamped e Ht Hs Hv).
      cbn [fst snd]. repeat split. intros ? ? ? [= <-]. rewrite Hv. intros [=]. }
  destruct (valid v) eqn:Hvalid.
  2:{ left. rewrite (pipeline_invalid uuid env parsed txid st stamped v Ht Hs Hv Hvalid).
      cbn [fst snd]. repeat split.
      intros ? ? ? [= <-]. rewrite Hv. intros [= <-]. rewrite Hvalid. intros [=]. }
  destruct (validated_shape uuid stamped v Hv Hvalid)
    as (fields & steps & Hplan & Hsteps & Hwf & Hlen).
  assert (Hrec : Forall (fun s => is_record s = true) steps).
  { eapply Forall_impl; [exact Hwf|]. intros s. apply well_formed_record. }
  pose proof (runSafetyCheck_spec fields steps Hsteps Hrec) as Hr.
  rewrite <- Hplan in Hr.
  destruct (steps_violations 0 steps) as [|x viol] eqn:Hviol.
  - right. eexists stamped, v, _.
    split; [reflexivity|]. split; [reflexivity|]. split; [exact Hv|]. split; [exact Hvalid|].
    split; [exact Hr|]. split; [reflexivity|]. cbn [splan].
    unfold steps_of at 1 2 3 4. cbn [get_opt]. rewrite lookup_update_same.
    split; [apply marked_non_null, Hwf|]. rewrite length_map. split; [exact Hlen|].
    unfold steps_of. cbn [get_opt]. rewrite lookup_update_same.
    rewrite (pipeline_accepted uuid env parsed txid st stamped v fields steps
               Ht Hs Hv Hvalid Hplan Hsteps Hwf (proj1 Hlen) Hviol).
    cbn [fst snd].
    rewrite !attempted_app, !dispatched_app, !forwarded_app, !completed_app, !killed_app,
      executeBrowserPlan_forwarded.
    repeat split.
  - left.
    rewrite (pipeline_unsafe uuid env parsed txid st stamped v _ Ht Hs Hv Hvalid Hr eq_refl).
    cbn [fst snd]. repeat split.
    intros ? ? ? [= <-]. rewrite Hv. intros [= <-] _. rewrite Hr. intros [= <-]. reflexivity.
Qed.

End PipelineOutcomes.
(** ** Pipeline: the gate before the executor *)

Section PipelineGate.

Context (uuid : string) (env : nat -> step_env) (parsed txid : value) (st : State).

(** X6.  [handleChatbotResponse] starts the executor only for a plan that
    [validatePlan] accepted and [runSafetyCheck] found safe, and then
    on the steps of the plan the safety check returned; in every other
    case it leaves the state as it was, starts no step and makes no
    browser call. *)
Theorem pipeline_runs_only_checked_plans :
  let out := handleChatbotResponse uuid env parsed txid st in
  match snd out with
  | Ran r =>
      exists stamped v s,
        stamp parsed txid = Ok stamped /\ validatePlan uuid stamped = Ok v /\
        valid v = true /\ runSafetyCheck (vplan v) = Ok s /\ safe s = true /\
        fst (fst out) = fst (fst (executeBrowserPlan env txid (steps_of (splan s)) st)) /\
        r = snd (executeBrowserPlan env txid (steps_of (splan s)) st) /\
        attempted (snd (fst out)) =
          attempted (snd (fst (executeBrowserPlan env txid (steps_of (splan s)) st)))
  | _ =>
      fst (fst out) = st /\
      attempted (snd (fst out)) = [] /\ dispatched (snd (fst out)) = []
  end.
Proof.
  cbv zeta.
  destruct (pipeline_cases uuid env parsed txid st)
    as [(Hst & Ha & Hd & _ & Hend & _)
       |(stamped & v & s & _ & Hs & Hv & Hvalid & Hr & Hsafe & _ & _ & Hrun)].
  - destruct (snd (handleChatbotResponse uuid env parsed txid st));
      try contradiction; auto.
  - cbv zeta in Hrun. destruct Hrun as (Hst & Hend & Ha & _).
    rewrite Hend. exists stamped, v, s. auto 10.
Qed.

(** X7.  The branch of [handleChatbotResponse] that forwards steps to the
    desktop agent is never taken and the branch with no browser step
    neither: every allowed action is a browser action, so an accepted
    plan goes to the browser executor as a whole. *)
Theorem pipeline_never_forwards_to_desktop :
  let out := handleChatbotResponse uuid env parsed txid st in
  forwarded (snd (fst out)) = [] /\
  snd out <> NothingToRun.
Proof.
  cbv zeta.
  destruct (pipeline_cases uuid env parsed txid st)
    as [(_ & _ & _ & Hf & Hend & _)
       |(stamped & v & s & _ & _ & _ & _ & _ & _ & Hnn & _ & Hrun)].
  - split; [exact Hf|].
    destruct (snd (handleChatbotResponse uuid env parsed txid st));
      try contradiction; discriminate.
  - cbv zeta in Hrun. destruct Hrun as (_ & Hend & _ & _ & Hf & _).
    split; [exact Hf|]. rewrite Hend. discriminate.
Qed.

End PipelineGate.

(** ** Invariants of the reachable states *)

Section Reachable.

Lemma scheduleReconnect_frame (st : State) :
  let st' := fst (scheduleReconnect st) in
  currentExecution st' = currentExecution st /\
  registeredRules st' = registeredRules st /\
  triggeredRulesState st' = triggeredRulesState st.
Proof.
  unfold scheduleReconnect. destruct (_ <=? _); repeat split.
Qed.

Lemma onclose_frame (st : State) :
  let st' := fst (onclose st) in
  currentExecution st' = currentExecution st /\
  registeredRules st' = registeredRules st /\
  triggeredRulesState st' = triggeredRulesState st.
Proof.
  unfold onclose.
  pose proof (scheduleReconnect_frame (with_ws false (reconnectAttempts st) st)) as H.
  destruct (scheduleReconnect _) as [st' evs]. exact H.
Qed.

Lemma handlePromptExecution_frame (uuid platform : string) (err : option string)
    (payload : Payload) (st : State) :
  let st' := fst (fst (handlePromptExecution uuid platform err payload st)) in
  currentExecution st' = currentExecution st /\
  registeredRules st' = registeredRules st /\
  triggeredRulesState st' = triggeredRulesState st.
Proof.
  unfold handlePromptExecution.
  destruct (killSwitchActive st); [repeat split|].
  destruct (String.eqb _ ""); [repeat split|].
  destruct (bool_decide _); repeat split.
Qed.

Lemma handleChatbotResponse_frame (uuid : string) (env : nat -> step_env)
    (parsed txid : value) (st : State) :
  let st' := fst (fst (handleChatbotResponse uuid env parsed txid st)) in
  (currentExecution st = None -> currentExecution st' = None) /\
  registeredRules st' = registeredRules st /\
  triggeredRulesState st' = triggeredRulesState st.
Proof.
  cbv zeta.
  destruct (pipeline_cases uuid env parsed txid st)
    as [(Hst & _)|(stamped & v & s & _ & _ & _ & _ & _ & _ & Hnn & _ & Hrun)].
  - rewrite Hst. auto.
  - cbv zeta in Hrun. destruct Hrun as (Hst & _). rewrite Hst.
    destruct (executeBrowserPlan_shape env txid (steps_of (splan s)) st Hnn)
      as (m & _ & _ & _ & Hcur & _).
    destruct (executeBrowserPlan_frame env txid (steps_of (splan s)) st) as (_ & Hr & Ht & _).
    auto.
Qed.

Lemma handle_idle (st : State) (i : input) :
  currentExecution st = None -> currentExecution (fst (handle st i)) = None.
Proof.
  intros Hc. destruct i as [| | |u p e pl|rules|now url cat|u env parsed txid]; simpl.
  - exact Hc.
  - destruct (onclose_frame st) as (H & _). rewrite H. exact Hc.
  - exact Hc.
  - destruct (handlePromptExecution_frame u p e pl st) as (H & _). rewrite H. exact Hc.
  - destruct rules; exact Hc.
  - unfold checkRulesAgainstUrl. destruct (_ =? 0); exact Hc.
  - destruct (handleChatbotResponse_frame u env parsed txid st) as (H & _). auto.
Qed.

(** X8.  From a state with no execution in progress, every sequence of
    socket events, messages, URL observations and chatbot responses
    leaves [currentExecution] cleared: no handler returns with a stale
    execution. *)
Theorem worker_idle_between_inputs (ins : list input) :
  forall st : State,
  currentExecution st = None -> currentExecution (fst (run st ins)) = None.
Proof.
  induction ins as [|i ins IH]; intros st Hc; simpl; [exact Hc|].
  pose proof (handle_idle st i Hc) as H1.
  destruct (handle st i) as [st1 evs1]. specialize (IH st1 H1).
  destruct (run st1 ins) as [st2 evs2]. exact IH.
Qed.

Lemma foldl_keys (now : Z) (url category : string) (rules : list Rule) :
  forall (acc : rule_pass) (i : string),
  is_Some (rp_state (foldl (check_rule now url category) acc rules) !! i) ->
  is_Some (rp_state acc !! i) \/ exists r, In r rules /\ rule_id r = Some i.
Proof.
  induction rules as [|r rules IH]; intros acc i Hi; simpl in *; [left; exact Hi|].
  destruct (IH _ i Hi) as [Hacc|(r' & Hin & Hid)];
    [|right; exists r'; split; [right; exact Hin|exact Hid]].
  unfold check_rule in Hacc.
  destruct (rule_id r) as [id|] eqn:Hid; [|left; exact Hacc].
  destruct (criteria r) as [c|]; [|left; exact Hacc].
  destruct (String.eqb id ""); [left; exact Hacc|].
  destruct (rule_matches url category c); [|left; exact Hacc].
  assert (Hins : is_Some (<[id := {| active := true; lastTriggered := now |}]> (rp_state acc) !! i) ->
                 is_Some (rp_state acc !! i) \/ exists r0, In r0 (r :: rules) /\ rule_id r0 = Some i).
  { intros H. destruct (decide (id = i)) as [->|Hne].
    - right. exists r. split; [left; reflexivity|exact Hid].
    - rewrite lookup_insert_ne in H by exact Hne. left. exact H. }
  destruct (rp_state acc !! id) as [s|];
    [|destruct (inherited id); [left; exact Hacc|exact (Hins Hacc)]].
  destruct (active s); [left; exact Hacc|].
  destruct (RULE_COOLDOWN_MS <=? now - lastTriggered s)%Z; [exact (Hins Hacc)|left; exact Hacc].
Qed.

Lemma checkRules_keys (now : Z) (url category : string) (st : State) :
  keys_registered st -> keys_registered (fst (checkRulesAgainstUrl now url category st)).
Proof.
  intros Hk. unfold checkRulesAgainstUrl.
  destruct (length (registeredRules st) =? 0); [exact Hk|].
  intros i Hi. cbn [fst triggeredRulesState registeredRules with_rules] in *.
  unfold mark_inactive in Hi. rewrite map_lookup_imap in Hi.
  assert (Hp : is_Some (rp_state
                 (foldl (check_rule now url category)
                    {| rp_state := triggeredRulesState st; rp_matched := ∅; rp_events := [] |}
                    (registeredRules st)) !! i)).
  { destruct (rp_state _ !! i); [eauto|]. destruct Hi as [x Hx]. discriminate Hx. }
  destruct (foldl_keys now url category _ _ i Hp) as [H|H]; [|exact H].
  apply Hk. exact H.
Qed.

Lemma handle_keys (st : State) (i : input) :
  keys_registered st -> keys_registered (fst (handle st i)).
Proof.
  intros Hk. destruct i as [| | |u p e pl|rules|now url cat|u env parsed txid]; simpl.
  - exact Hk.
  - destruct (onclose_frame st) as (_ & Hr & Ht).
    intros i. rewrite Hr, Ht. apply Hk.
  - exact Hk.
  - destruct (handlePromptExecution_frame u p e pl st) as (_ & Hr & Ht).
    intros i. rewrite Hr, Ht. apply Hk.
  - destruct rules as [rules|]; [|exact Hk].
    intros i [x Hx]. simpl in Hx. rewrite lookup_empty in Hx. discriminate.
  - apply checkRules_keys, Hk.
  - destruct (handleChatbotResponse_frame u env parsed txid st) as (_ & Hr & Ht).
    intros i. rewrite Hr, Ht. apply Hk.
Qed.

Lemma run_keys (ins : list input) :
  forall st : State, keys_registered st -> keys_registered (fst (run st ins)).
Proof.
  induction ins as [|i ins IH]; intros st Hk; simpl; [exact Hk|].
  pose proof (handle_keys st i Hk) as H1.
  destruct (handle st i) as [st1 evs1]. specialize (IH st1 H1).
  destruct (run st1 ins) as [st2 evs2]. exact IH.
Qed.

(** X9.  In every state that the worker reaches from its initial state, each
    key of [triggeredRulesState] is the id of a rule in
    [registeredRules]. *)
Theorem rule_state_keys_are_registered (ins : list input) (i : string) (s : RuleState) :
  triggeredRulesState (fst (run initial ins)) !! i = Some s ->
  exists r, In r (registeredRules (fst (run initial ins))) /\ rule_id r = Some i.
Proof.
  intros H. apply (run_keys ins initial).
  - intros j [x Hx]. simpl in Hx. rewrite lookup_empty in Hx. discriminate.
  - eauto.
Qed.

End Reachable.

Lemma worker_idle_between_inputs_witness :
  let ins := [ChatbotResponse "u-1" kill_during_second (VObj [("steps", VArr sample_steps)])
                VUndef;
              KillSwitchMsg] in
  attempted (snd (run initial ins)) = [0; 1] /\
  currentExecution (fst (run initial ins)) = None.
Proof.
  cbv zeta. split; [reflexivity|].
  apply worker_idle_between_inputs. reflexivity.
Defined.

Lemma rule_state_keys_are_registered_witness :
  exists r,
    In r (registeredRules
            (fst (run initial [RegisterTriggers (Some [category_rule "r1" "social"]);
                               UrlObserved 0 "https://youtube.com/" "social"]))) /\
    rule_id r = Some "r1".
Proof.
  apply (rule_state_keys_are_registered
           [RegisterTriggers (Some [category_rule "r1" "social"]);
            UrlObserved 0 "https://youtube.com/" "social"]
           "r1" {| active := true; lastTriggered := 0 |}).
  vm_compute. reflexivity.
Defined.
(** ** validatePlan: what it accepts and what it reports *)

Section ValidateMore.

Lemma update_field_same (k : string) (x : value) (f : list (string * value)) :
  lookup_field k f = x -> x <> VUndef -> update_field k x f = f.
Proof.
  intros Hl Hx. induction f as [|[k' v] f IH]; simpl in *.
  - congruence.
  - destruct (String.eqb_spec k k') as [->|Hne]; [congruence|].
    rewrite (IH Hl). reflexivity.
Qed.

(** What [validatePlan] accepted, and what it returns for it. *)
Lemma validated_full (uuid : string) (parsed : value) (v : validation) :
  validatePlan uuid parsed = Ok v ->
  valid v = true ->
  exists fields steps,
    parsed = VObj fields /\
    plan_steps parsed = Some steps /\
    1 <= length steps <= MAX_STEPS /\
    Forall (fun s => well_formed_step s = true) steps /\
    errors v = [] /\
    vplan v =
      VObj (let fields1 := update_field "steps" (VArr steps) fields in
            if truthy (lookup_field "transaction_id" fields1) then fields1
            else update_field "transaction_id" (VStr uuid) fields1).
Proof.
  intros Hv Hvalid.
  destruct (is_record parsed) eqn:Hrec.
  2:{ destruct (validatePlan_non_record uuid parsed Hrec) as [errs He].
      rewrite He in Hv. injection Hv as <-. discriminate. }
  destruct parsed as [| | | | | |fields]; try discriminate. clear Hrec.
  destruct (plan_steps (VObj fields)) as [steps|] eqn:Hsteps.
  - rewrite (validatePlan_unfold uuid fields steps Hsteps) in Hv.
    destruct (Nat.ltb_spec MAX_STEPS (length steps)) as [?|Hhi];
      [injection Hv as <-; discriminate|].
    destruct (Nat.eqb_spec (length steps) 0) as [?|Hlo];
      [injection Hv as <-; discriminate|].
    destruct (validate_steps 0 steps []) as [errs|e] eqn:Herrs; [|discriminate].
    cbn [mbind res_bind Js.bind] in Hv. injection Hv as <-. cbn [valid vplan errors] in *.
    rewrite Hvalid.
    pose proof (validate_steps_ok steps 0 [] errs Herrs) as Hnn.
    rewrite (validate_steps_spec steps 0 [] Hnn) in Herrs. injection Herrs as <-.
    apply length_eqb_nil in Hvalid. cbn [app] in *.
    exists fields, steps. split; [reflexivity|]. split; [reflexivity|].
    split; [lia|]. split; [apply (steps_errors_nil steps 0), Hvalid|].
    split; [exact Hvalid|reflexivity].
  - rewrite (validatePlan_no_steps uuid fields Hsteps) in Hv.
    injection Hv as <-. discriminate.
Qed.

(** X10.  Whenever [validatePlan] returns [valid = true], the plan is a record
    whose [steps || actions] is an array of 1 to 10 steps, each with an
    allowed action and an object as params; the error list is empty,
    the returned plan holds that array as [steps], and every other
    property except [transaction_id] is as it was. *)
Theorem validatePlan_accepts_only_well_formed (uuid : string) (plan : value)
    (v : validation) :
  validatePlan uuid plan = Ok v ->
  valid v = true ->
  is_record plan = true /\
  errors v = [] /\
  exists steps,
    plan_steps plan = Some steps /\
    1 <= length steps <= MAX_STEPS /\
    Forall (fun s => well_formed_step s = true) steps /\
    steps_of (vplan v) = steps /\
    (forall k, k <> "steps" -> k <> "transaction_id" ->
               get_opt (vplan v) k = get_opt plan k).
Proof.
  intros Hv Hvalid.
  destruct (validated_full uuid plan v Hv Hvalid)
    as (fields & steps & -> & Hsteps & Hlen & Hwf & Herr & Hplan).
  split; [reflexivity|]. split; [exact Herr|].
  exists steps. split; [exact Hsteps|]. split; [exact Hlen|]. split; [exact Hwf|].
  rewrite Hplan. cbv zeta. unfold steps_of. cbn [get_opt].
  destruct (truthy _).
  - rewrite lookup_update_same. split; [reflexivity|].
    intros k Hk _. apply lookup_update_other. exact Hk.
  - rewrite lookup_update_other by discriminate. rewrite lookup_update_same.
    split; [reflexivity|].
    intros k Hk Hk'. rewrite !lookup_update_other by assumption. reflexivity.
Qed.

(** X11.  Validating the plan that [validatePlan] returned gives the same
    result again, for any generated id: the normalised plan is a fixed
    point (the first id generated being non-empty). *)
Theorem validatePlan_idempotent (uuid uuid' : string) (plan : value) (v : validation) :
  uuid <> "" ->
  validatePlan uuid plan = Ok v ->
  valid v = true ->
  validatePlan uuid' (vplan v) = Ok v.
Proof.
  intros Huuid Hv Hvalid.
  destruct (validated_full uuid plan v Hv Hvalid)
    as (fields & steps & -> & Hsteps & Hlen & Hwf & Herr & Hplan).
  cbv zeta in Hplan.
  set (fields1 := update_field "steps" (VArr steps) fields) in *.
  set (fields2 := if truthy (lookup_field "transaction_id" fields1) then fields1
                  else update_field "transaction_id" (VStr uuid) fields1) in *.
  assert (Hs2 : lookup_field "steps" fields2 = VArr steps).
  { subst fields2 fields1. destruct (truthy _);
      rewrite ?lookup_update_other by discriminate; apply lookup_update_same. }
  assert (Ht2 : truthy (lookup_field "transaction_id" fields2) = true).
  { subst fields2. destruct (truthy (lookup_field "transaction_id" fields1)) eqn:Ht;
      [exact Ht|].
    rewrite lookup_update_same. cbn [truthy].
    destruct (String.eqb_spec uuid ""); [contradiction|reflexivity]. }
  assert (Hps : plan_steps (VObj fields2) = Some steps).
  { unfold plan_steps. cbn [get_opt]. rewrite Hs2. reflexivity. }
  rewrite Hplan, (validatePlan_unfold uuid' fields2 steps Hps).
  destruct (Nat.ltb_spec MAX_STEPS (length steps)) as [?|_]; [lia|].
  destruct (Nat.eqb_spec (length steps) 0) as [?|_]; [lia|].
  rewrite validate_steps_spec.
  2:{ eapply Forall_impl; [exact Hwf|]. intros s Hs.
      apply record_non_null, well_formed_record, Hs. }
  apply (steps_errors_nil steps 0) in Hwf. rewrite Hwf.
  cbn [mbind res_bind Js.bind app length Nat.eqb].
  rewrite (update_field_same "steps" (VArr steps) fields2 Hs2) by discriminate.
  rewrite Ht2. destruct v as [vv ve vp]. cbn [valid errors vplan] in *.
  subst vv ve vp. reflexivity.
Qed.

(** X12.  The [transaction_id] of the plan that the pipeline validates: the
    id of the [chatbot_response] message when it is truthy, else the one
    in the chatbot's JSON when that is truthy, else the generated one. *)
Theorem transaction_id_precedence (uuid : string) (fields : list (string * value))
    (txid : value) (v : validation) :
  validatePlan uuid
    (VObj (update_field "transaction_id"
             (or_else txid (lookup_field "transaction_id" fields)) fields)) = Ok v ->
  valid v = true ->
  stamp (VObj fields) txid =
    Ok (VObj (update_field "transaction_id"
                (or_else txid (lookup_field "transaction_id" fields)) fields)) /\
  get_opt (vplan v) "transaction_id" =
    (if truthy txid then txid
     else if truthy (lookup_field "transaction_id" fields)
          then lookup_field "transaction_id" fields
          else VStr uuid).
Proof.
  intros Hv Hvalid. split; [reflexivity|].
  destruct (validated_full uuid _ v Hv Hvalid)
    as (fields' & steps & [= <-] & Hsteps & Hlen & Hwf & Herr & Hplan).
  rewrite Hplan. cbv zeta. cbn [get_opt].
  rewrite lookup_update_other by discriminate. rewrite lookup_update_same.
  unfold or_else.
  destruct (truthy txid) eqn:Ht.
  - rewrite Ht. rewrite lookup_update_other by discriminate. apply lookup_update_same.
  - destruct (truthy (lookup_field "transaction_id" fields)) eqn:Hp.
    + rewrite lookup_update_other by discriminate. apply lookup_update_same.
    + apply lookup_update_same.
Qed.



End ValidateMore.

Lemma validatePlan_accepts_only_well_formed_witness :
  is_record preblocked_plan = true /\
  exists steps, plan_steps preblocked_plan = Some steps /\ length steps = 1.
Proof.
  destruct (validatePlan_accepts_only_well_formed "txn-1" preblocked_plan
              {| valid := true; errors := [];
                 vplan := VObj [("steps", VArr (steps_of preblocked_plan));
                                ("transaction_id", VStr "txn-1")] |})
    as (Hrec & _ & steps & Hs & _ & _ & Hof & _); [reflexivity|reflexivity|].
  split; [exact Hrec|]. exists steps. split; [exact Hs|].
  rewrite <- Hof. reflexivity.
Defined.

Lemma validatePlan_idempotent_witness :
  validatePlan "txn-2"
    (VObj [("steps", VArr (steps_of preblocked_plan));
           ("transaction_id", VStr "txn-1")]) =
  Ok {| valid := true; errors := [];
        vplan := VObj [("steps", VArr (steps_of preblocked_plan));
                       ("transaction_id", VStr "txn-1")] |}.
Proof.
  apply (validatePlan_idempotent "txn-1" "txn-2" preblocked_plan
           {| valid := true; errors := [];
              vplan := VObj [("steps", VArr (steps_of preblocked_plan));
                             ("transaction_id", VStr "txn-1")] |});
    [discriminate|reflexivity|reflexivity].
Defined.

Lemma transaction_id_precedence_witness :
  exists v,
    validatePlan "txn-1"
      (VObj [("transaction_id", VStr "from-message");
             ("steps", VArr (steps_of preblocked_plan))]) = Ok v /\
    get_opt (vplan v) "transaction_id" = VStr "from-message".
Proof.
  eexists. split; [reflexivity|].
  apply (transaction_id_precedence "txn-1"
           [("transaction_id", VStr "from-chatbot");
            ("steps", VArr (steps_of preblocked_plan))]
           (VStr "from-message")); reflexivity.
Defined.

(** ** runSafetyCheck: what it changes *)

Section SafetyMore.

Lemma params_text_marked (step : value) : params_text (marked step) = params_text step.
Proof. unfold params_text. rewrite marked_params. reflexivity. Qed.

Lemma hits_marked (step : value) : hits (marked step) = hits step.
Proof. unfold hits. rewrite params_text_marked. reflexivity. Qed.

Lemma has_hit_marked (step : value) : has_hit (marked step) = has_hit step.
Proof. unfold has_hit. rewrite hits_marked. reflexivity. Qed.

Lemma marked_idempotent (step : value) : marked (marked step) = marked step.
Proof.
  destruct step as [| | | | | |fields]; try reflexivity.
  pose proof (has_hit_marked (VObj fields)) as Hh. unfold marked in *.
  destruct (has_hit (VObj fields)) eqn:Hhit.
  - rewrite Hh. rewrite update_update. reflexivity.
  - destruct (is_str (lookup_field "safety_check" fields) "blocked") eqn:Hb.
    + rewrite Hhit, Hb. reflexivity.
    + rewrite Hh. rewrite lookup_update_same. cbn [is_str String.eqb Ascii.eqb Bool.eqb].
      rewrite update_update. reflexivity.
Qed.

Lemma steps_violations_marked (steps : list value) :
  forall i : nat, steps_violations i (map marked steps) = steps_violations i steps.
Proof.
  induction steps as [|step rest IH]; intros i; simpl; [reflexivity|].
  rewrite hits_marked, IH. reflexivity.
Qed.



(** X15.  Running [runSafetyCheck] on the plan it returned gives the same
    verdict, the same violations and the same plan. *)
Theorem runSafetyCheck_idempotent (uuid : string) (parsed : value)
    (v : validation) (r : safety) :
  validatePlan uuid parsed = Ok v ->
  valid v = true ->
  runSafetyCheck (vplan v) = Ok r ->
  runSafetyCheck (splan r) = Ok r.
Proof.
  intros Hv Hvalid Hr.
  destruct (validated_shape uuid parsed v Hv Hvalid) as (fields & steps & Hplan & Hsteps & Hwf & _).
  assert (Hrec : Forall (fun s => is_record s = true) steps).
  { eapply Forall_impl; [exact Hwf|]. intros s. apply well_formed_record. }
  rewrite Hplan, (runSafetyCheck_spec fields steps Hsteps Hrec) in Hr.
  injection Hr as <-. cbn [splan].
  rewrite (runSafetyCheck_spec _ (map marked steps)).
  - rewrite steps_violations_marked, update_update.
    replace (map marked (map marked steps)) with (map marked steps); [reflexivity|].
    rewrite map_map. apply map_ext. intros s. symmetry. apply marked_idempotent.
  - apply lookup_update_same.
  - apply Forall_forall. intros s Hin.
    change (map marked steps) with (marked <$> steps) in Hin.
    apply list_elem_of_fmap in Hin as (s0 & -> & Hs0).
    apply marked_record. rewrite Forall_forall in Hrec. exact (Hrec s0 Hs0).
Qed.

(** When the plan is accepted and safe, the kill switch is off and none
    arrives, a run of [handleChatbotResponse] that no other run
    overlaps starts every step of the plan in order and reports the run
    as completed with all of them. *)
Lemma safe_plan_runs_alone (uuid : string) (env : nat -> step_env)
    (parsed txid stamped : value) (st : State) (v : validation) (s : safety) :
  stamp parsed txid = Ok stamped ->
  validatePlan uuid stamped = Ok v ->
  valid v = true ->
  runSafetyCheck (vplan v) = Ok s ->
  safe s = true ->
  killSwitchActive st = false ->
  (forall j, kill_arrives (env j) = false) ->
  let out := handleChatbotResponse uuid env parsed txid st in
  snd out = Ran RunCompleted /\
  attempted (snd (fst out)) = seq 0 (length (steps_of (splan s))) /\
  completed (snd (fst out)) = [length (steps_of (splan s))] /\
  (forall i, i < length (steps_of (splan s)) ->
     mark_of (splan s) i = VStr "blocked" -> In i (attempted (snd (fst out)))).
Proof.
  intros Hs Hv Hvalid Hr Hsafe Hk Henv. cbv zeta.
  destruct (pipeline_cases uuid env parsed txid st)
    as [(_ & _ & _ & _ & _ & Hno)
       |(stamped' & v' & s' & _ & Hs' & Hv' & _ & Hr' & _ & Hnn & _ & Hrun)].
  { rewrite (Hno stamped v s Hs Hv Hvalid Hr) in Hsafe. discriminate. }
  rewrite Hs in Hs'. injection Hs' as <-.
  rewrite Hv in Hv'. injection Hv' as <-.
  rewrite Hr in Hr'. injection Hr' as <-.
  cbv zeta in Hrun. destruct Hrun as (_ & Hend & Hatt & _ & _ & Hcom & _).
  unfold executeBrowserPlan in *.
  set (steps := steps_of (splan s)) in *.
  rewrite (run_loop_completes env txid (length steps) steps 0 _ Hnn) in Hend, Hatt, Hcom.
  2,3,4,5,6,7: try exact Hk; try (intros j _; apply Henv).
  cbn [fst snd] in Hend, Hatt, Hcom. rewrite Hend, Hatt, Hcom.
  destruct (iterations_trace env txid (length steps) steps 0
              (with_execution
                 (Some {| exec_transactionId := txid; exec_steps := steps;
                          currentStep := 0 |}) st)) as (Ha & Hc & _).
  split; [reflexivity|].
  rewrite attempted_app, completed_app, Ha, Hc. cbn [attempted completed completed_events omap].
  rewrite app_nil_r. split; [reflexivity|]. split; [reflexivity|].
  intros i Hi _. apply in_seq. lia.
Qed.

End SafetyMore.


Lemma runSafetyCheck_idempotent_witness :
  exists v r,
    validatePlan "u" unsafe_plan = Ok v /\
    runSafetyCheck (vplan v) = Ok r /\
    safe r = false /\
    runSafetyCheck (splan r) = Ok r.
Proof.
  destruct (validatePlan "u" unsafe_plan) as [v|e] eqn:Hv; [|vm_compute in Hv; discriminate].
  assert (Hvalid : valid v = true) by (vm_compute in Hv; injection Hv as <-; reflexivity).
  destruct (runSafetyCheck (vplan v)) as [r|e] eqn:Hr;
    [|vm_compute in Hv; injection Hv as <-; vm_compute in Hr; discriminate].
  exists v, r. split; [reflexivity|]. split; [exact Hr|]. split.
  - vm_compute in Hv. injection Hv as <-. vm_compute in Hr. injection Hr as <-. reflexivity.
  - exact (runSafetyCheck_idempotent "u" unsafe_plan v r Hv Hvalid Hr).
Defined.

(** ** runSafetyCheck: the keyword scan over the serialized params *)

Section KeywordScan.

Lemma starts_with_nil (s : string) : starts_with s "" = true.
Proof. destruct s; reflexivity. Qed.

Lemma starts_with_includes (s p : string) : starts_with s p = true -> includes s p = true.
Proof. intros H. destruct s; cbn [includes]; rewrite H; reflexivity. Qed.

Lemma includes_skip (a s p : string) : includes s p = true -> includes (a +:+ s) p = true.
Proof.
  intros H. induction a as [|c a IH]; simpl; [exact H|].
  rewrite IH. apply orb_true_r.
Qed.

Lemma toLowerCase_app (a b : string) :
  toLowerCase (a +:+ b) = toLowerCase a +:+ toLowerCase b.
Proof. induction a as [|c a IH]; simpl; [reflexivity|]. rewrite IH. reflexivity. Qed.

Lemma append_assoc' (a b c : string) : (a +:+ b) +:+ c = a +:+ (b +:+ c).
Proof.
  induction a as [|x a IH]; [reflexivity|].
  change (String x ((a +:+ b) +:+ c) = String x (a +:+ (b +:+ c))).
  rewrite IH. reflexivity.
Qed.

(** A character that lower-cases to a keyword character is written by
    [JSON.stringify] as it is. *)
Lemma keyword_char_unescaped (c : ascii) :
  keyword_char (lower_char c) = true -> escape_char c = String c EmptyString.
Proof.
  destruct c as [b0 b1 b2 b3 b4 b5 b6 b7].
  destruct b0, b1, b2, b3, b4, b5, b6, b7; intros H;
    try reflexivity; vm_compute in H; discriminate H.
Qed.

Lemma starts_with_escape (kw : string) :
  keyword_chars kw = true ->
  forall s rest : string,
  starts_with (toLowerCase s) kw = true ->
  starts_with (toLowerCase (escape s) +:+ rest) kw = true.
Proof.
  induction kw as [|k kw IH]; intros Hkw s rest H; [apply starts_with_nil|].
  simpl in Hkw. apply andb_true_iff in Hkw as [Hk Hkw].
  destruct s as [|c s]; simpl in H; [discriminate|].
  apply andb_true_iff in H as [Hc Hs].
  apply Ascii.eqb_eq in Hc. subst k.
  cbn [escape]. rewrite (keyword_char_unescaped c Hk).
  change (starts_with (String (lower_char c) (toLowerCase (escape s) +:+ rest))
            (String (lower_char c) kw) = true).
  cbn [starts_with].
  rewrite Ascii.eqb_refl. cbn [andb]. apply (IH Hkw). exact Hs.
Qed.

Lemma includes_escape (kw : string) :
  keyword_chars kw = true ->
  forall s rest : string,
  includes (toLowerCase s) kw = true ->
  includes (toLowerCase (escape s) +:+ rest) kw = true.
Proof.
  intros Hkw s. induction s as [|c s IH]; intros rest H.
  - simpl in H. rewrite orb_false_r in H. destruct kw; [|discriminate].
    apply starts_with_includes, starts_with_nil.
  - cbn [toLowerCase includes] in H. apply orb_true_iff in H as [H|H].
    + apply starts_with_includes. apply (starts_with_escape kw Hkw (String c s)). exact H.
    + cbn [escape]. rewrite toLowerCase_app, append_assoc'.
      apply includes_skip, IH, H.
Qed.

(** The text of a quoted string holds every keyword that the string
    holds in any letter case. *)
Lemma includes_quote (kw s : string) (a b : string) :
  keyword_chars kw = true ->
  includes (toLowerCase s) kw = true ->
  includes (toLowerCase (a +:+ quote s +:+ b)) kw = true.
Proof.
  intros Hkw H. unfold quote.
  rewrite toLowerCase_app. apply includes_skip.
  rewrite !append_assoc', toLowerCase_app. apply includes_skip.
  rewrite toLowerCase_app. apply includes_escape; assumption.
Qed.

Lemma append_nil_r' (a : string) : a +:+ "" = a.
Proof.
  induction a as [|x a IH]; [reflexivity|].
  change (String x (a +:+ "") = String x a). rewrite IH. reflexivity.
Qed.

Lemma concat_in (sep x : string) (l : list string) :
  In x l -> exists a b, String.concat sep l = a +:+ x +:+ b.
Proof.
  induction l as [|y l IH]; intros Hin; [contradiction|].
  destruct Hin as [->|Hin].
  - destruct l as [|z l].
    + exists "", "". change (x = x +:+ ""). rewrite append_nil_r'. reflexivity.
    + exists "", (sep +:+ String.concat sep (z :: l)). reflexivity.
  - destruct (IH Hin) as (a & b & Hab). destruct l as [|z l]; [contradiction|].
    exists (y +:+ sep +:+ a), b.
    change (String.concat sep (y :: z :: l)) with (y +:+ sep +:+ String.concat sep (z :: l)).
    rewrite Hab, !append_assoc'. reflexivity.
Qed.

Lemma keywords_plain : forallb keyword_chars DESTRUCTIVE_KEYWORDS = true.
Proof. vm_compute. reflexivity. Qed.

(** A property of the params whose name or string value holds a
    keyword, in any letter case, is a hit. *)
Lemma string_param_hit (fields pf : list (string * value)) (k s kw : string) :
  lookup_field "params" fields = VObj pf ->
  In (k, VStr s) pf ->
  In kw DESTRUCTIVE_KEYWORDS ->
  includes (toLowerCase k) kw = true \/ includes (toLowerCase s) kw = true ->
  In kw (hits (VObj fields)).
Proof.
  intros Hp Hin Hkw Hinc.
  assert (Hplain : keyword_chars kw = true).
  { pose proof keywords_plain as H. rewrite forallb_forall in H. apply H, Hkw. }
  unfold hits. apply filter_In. split; [exact Hkw|].
  unfold params_text. cbn [get_opt]. rewrite Hp. cbn [or_else truthy stringify default].
  set (f := fun kv : string * value =>
              match stringify kv.2 with
              | Some s0 => Some (quote kv.1 +:+ ":" +:+ s0)
              | None => None
              end).
  assert (Hx : In (quote k +:+ ":" +:+ quote s) (omap f pf)).
  { apply list_elem_of_In, list_elem_of_omap. exists (k, VStr s).
    split; [apply list_elem_of_In, Hin|reflexivity]. }
  destruct (concat_in "," _ _ Hx) as (a & b & Hab).
  unfold join. rewrite Hab.
  destruct Hinc as [Hk|Hs].
  - replace ("{" +:+ (a +:+ (quote k +:+ ":" +:+ quote s) +:+ b) +:+ "}")
      with (("{" +:+ a) +:+ quote k +:+ (":" +:+ quote s +:+ b +:+ "}"))
      by (rewrite !append_assoc'; reflexivity).
    apply includes_quote; assumption.
  - replace ("{" +:+ (a +:+ (quote k +:+ ":" +:+ quote s) +:+ b) +:+ "}")
      with (("{" +:+ a +:+ quote k +:+ ":") +:+ quote s +:+ (b +:+ "}"))
      by (rewrite !append_assoc'; reflexivity).
    apply includes_quote; assumption.
Qed.

Lemma steps_violations_hit (steps : list value) :
  forall (j i : nat) (step : value) (kw : string),
  steps !! i = Some step -> In kw (hits step) ->
  In (Violation (j + i + 1) kw) (steps_violations j steps).
Proof.
  induction steps as [|s rest IH]; intros j i step kw Hi Hkw; [discriminate|].
  simpl. apply in_or_app. destruct i as [|i]; simpl in Hi.
  - injection Hi as ->. left. rewrite Nat.add_0_r. apply in_map. exact Hkw.
  - right. replace (j + S i + 1) with (S j + i + 1) by lia. apply (IH (S j) i step); assumption.
Qed.

(** X17.  A step whose params object has a string property whose value, or
    whose name, holds a denylisted keyword in any letter case makes
    [runSafetyCheck] return unsafe, with a violation for that step and
    keyword and the step marked [blocked]: the scan is over the
    serialized params, so it does not tell a harmless text from a
    destructive command. *)
Theorem keyword_in_name_or_value_blocks (plan fields pf : list (string * value))
    (steps : list value) (i : nat) (k s kw : string) :
  lookup_field "steps" plan = VArr steps ->
  Forall (fun step => is_record step = true) steps ->
  steps !! i = Some (VObj fields) ->
  lookup_field "params" fields = VObj pf ->
  In (k, VStr s) pf ->
  In kw DESTRUCTIVE_KEYWORDS ->
  includes (toLowerCase k) kw = true \/ includes (toLowerCase s) kw = true ->
  exists r,
    runSafetyCheck (VObj plan) = Ok r /\
    safe r = false /\
    In (Violation (i + 1) kw) (violations r) /\
    mark_of (splan r) i = VStr "blocked".
Proof.
  intros Hsteps Hrec Hi Hp Hin Hkw Hinc.
  pose proof (string_param_hit fields pf k s kw Hp Hin Hkw Hinc) as Hhit.
  rewrite (runSafetyCheck_spec plan steps Hsteps Hrec).
  eexists. split; [reflexivity|]. cbn [safe violations splan].
  pose proof (steps_violations_hit steps 0 i _ kw Hi Hhit) as Hv.
  split; [|split].
  - destruct (steps_violations 0 steps); [contradiction|reflexivity].
  - exact Hv.
  - rewrite (mark_of_marked plan steps i _ Hi), marked_mark by reflexivity.
    unfold has_hit. destruct (hits (VObj fields)); [contradiction|reflexivity].
Qed.

End KeywordScan.

Lemma keyword_in_name_or_value_blocks_witness :
  exists r,
    runSafetyCheck (VObj [("steps", VArr [VObj search_fields])]) = Ok r /\
    safe r = false /\
    In (Violation 1 "reset") (violations r) /\
    mark_of (splan r) 0 = VStr "blocked".
Proof.
  apply (keyword_in_name_or_value_blocks
           [("steps", VArr [VObj search_fields])] search_fields
           [("target", VStr "Search"); ("text", VStr "How to RESET a router")]
           [VObj search_fields] 0 "text" "How to RESET a router" "reset").
  - reflexivity.
  - repeat constructor.
  - reflexivity.
  - reflexivity.
  - simpl. auto.
  - simpl. auto 10.
  - right. reflexivity.
Defined.

(** ** Executor: the actions of the switch *)

Section SwitchCases.

(** X18.  Of the twelve allowed actions exactly [read_text] has no [case] in
    the executor's [switch]: such a step is logged as an unknown
    action, makes no browser call, and is still reported as completed
    successfully. *)
Theorem read_text_is_the_action_without_case (i : nat) (step : value) (o : step_env) :
  without_case i step o = ["read_text"] /\
  run_action i step (VStr "read_text") o = ([Log (LUnknownAction (VStr "read_text"))], None) /\
  (forall (txid : value) (total : nat) (st : State),
     let evs := snd (run_step o txid total i step (VStr "read_text") st) in
     dispatched evs = [] /\ failed evs = [] /\
     In (ToPopup (PStepComplete i true None)) evs).
Proof.
  split; [|split].
  - unfold without_case, ALLOWED_ACTIONS, run_action. cbn [List.filter is_str String.eqb Ascii.eqb Bool.eqb].
    destruct (truthy _); reflexivity.
  - reflexivity.
  - intros txid total st. unfold run_step.
    change (run_action i step (VStr "read_text") o)
      with ([Log (LUnknownAction (VStr "read_text"))], @None string).
    cbv zeta. destruct (kill_arrives o); simpl;
      (do 2 (split; [reflexivity|])); repeat first [left; reflexivity | right].
Qed.

End SwitchCases.
(** ** Prompt requests and the transaction ledger *)

Section LedgerMore.

Lemma ledger_add_in (id : string) (l : list string) : In id (ledger_add id l).
Proof.
  unfold ledger_add. destruct (Nat.ltb_spec 50 (length (l ++ [id]))) as [Hlt|_].
  - destruct l as [|x l]; [simpl in Hlt; lia|]. simpl. apply in_or_app. right. left. reflexivity.
  - apply in_or_app. right. left. reflexivity.
Qed.

(** X19.  A prompt request that is refused (kill switch), empty or a
    duplicate changes no variable and hands nothing to the chatbot; an
    accepted one was not in the ledger, is in it afterwards and is
    handed over once. *)
Theorem only_accepted_requests_touch_state (uuid platform : string)
    (err : option string) (payload : Payload) (st : State) :
  let out := handlePromptExecution uuid platform err payload st in
  match snd out with
  | Accepted txid =>
      killSwitchActive st = false /\
      ~ In txid (processedTxIds st) /\
      processedTxIds (fst (fst out)) = ledger_add txid (processedTxIds st) /\
      In txid (processedTxIds (fst (fst out))) /\
      injected (snd (fst out)) = [txid]
  | _ => fst (fst out) = st /\ injected (snd (fst out)) = []
  end.
Proof.
  cbv zeta. unfold handlePromptExecution.
  destruct (killSwitchActive st) eqn:Hk; [split; reflexivity|].
  destruct (String.eqb _ ""); [split; reflexivity|].
  destruct (bool_decide _) eqn:Hd; [split; reflexivity|].
  cbn [fst snd processedTxIds with_ledger].
  apply bool_decide_eq_false_1 in Hd.
  split; [reflexivity|]. split.
  { intros Hin. apply Hd, list_elem_of_In, Hin. }
  split; [reflexivity|]. split; [apply ledger_add_in|].
  destruct err; reflexivity.
Qed.

(** X20.  Once a request is accepted its id is in the ledger before the
    prompt is injected: a request with the same id that follows is
    ignored as a duplicate, also when the injection failed. *)
Theorem accepted_id_is_not_taken_again (uuid platform : string) (err : option string)
    (payload : Payload) (st : State) (txid : string) :
  snd (handlePromptExecution uuid platform err payload st) = Accepted txid ->
  txid <> "" ->
  let st' := fst (fst (handlePromptExecution uuid platform err payload st)) in
  forall (uuid' platform' p : string) (err' : option string),
  p <> "" ->
  handlePromptExecution uuid' platform' err' (request txid p) st' =
    (st', [Log (LDuplicate txid)], Duplicate).
Proof.
  intros Hacc Hid. cbv zeta.
  assert (H : killSwitchActive (fst (fst (handlePromptExecution uuid platform err payload st))) = false /\
              txid ∈ processedTxIds (fst (fst (handlePromptExecution uuid platform err payload st)))).
  { revert Hacc. unfold handlePromptExecution.
    destruct (killSwitchActive st) eqn:Hk; [discriminate|].
    destruct (String.eqb _ ""); [discriminate|].
    destruct (bool_decide _); [discriminate|].
    cbn [fst snd]. intros [= <-]. split; [exact Hk|].
    apply list_elem_of_In, ledger_add_in. }
  destruct H as [Hk Hin].
  intros uuid' platform' p err' Hp.
  apply ignore_duplicate; assumption.
Qed.

End LedgerMore.

Lemma accepted_id_is_not_taken_again_witness :
  let st' := fst (fst (handlePromptExecution "u" "chatgpt" (Some "No tab")
                         (request "tx-1" "open the mail") initial)) in
  handlePromptExecution "v" "chatgpt" None (request "tx-1" "open the mail") st' =
    (st', [Log (LDuplicate "tx-1")], Duplicate).
Proof.
  cbv zeta.
  apply (accepted_id_is_not_taken_again "u" "chatgpt" (Some "No tab")
           (request "tx-1" "open the mail") initial "tx-1");
    [reflexivity|discriminate|discriminate].
Defined.

(** ** Transport client: bounds of the reconnect delays *)

Section TransportMore.

Lemma backoff_bounds :
  forallb (fun k => Qle_bool 2000 (backoff k) && Qle_bool (backoff k) 30000
                    && Qle_bool (backoff k) (backoff (k + 1)))
          (seq 1 50) = true.
Proof. vm_compute. reflexivity. Qed.

Lemma backoff_in_range (k : nat) :
  1 <= k <= 50 ->
  (2000 <= backoff k)%Q /\ (backoff k <= 30000)%Q /\ (backoff k <= backoff (k + 1))%Q.
Proof.
  intros Hk. pose proof backoff_bounds as H. rewrite forallb_forall in H.
  specialize (H k). rewrite in_seq in H. specialize (H ltac:(lia)).
  apply andb_true_iff in H as [H H3]. apply andb_true_iff in H as [H1 H2].
  rewrite Qle_bool_iff in H1, H2, H3. auto.
Qed.

Lemma inactive_logs_alarms (matched : gset string) (m : gmap string RuleState) :
  alarms (inactive_logs matched m) = [].
Proof.
  unfold inactive_logs, alarms. generalize (map_to_list m).
  intros l. induction l as [|[k s] l IH]; simpl; [reflexivity|].
  destruct (leaves matched k s); simpl; exact IH.
Qed.

Lemma check_rule_alarms (now : Z) (url category : string) (acc : rule_pass) (r : Rule) :
  alarms (rp_events acc) = [] ->
  alarms (rp_events (check_rule now url category acc r)) = [].
Proof.
  intros H. unfold check_rule.
  destruct (rule_id r) as [id|]; [|exact H].
  destruct (criteria r) as [c|]; [|exact H].
  destruct (String.eqb id ""); [exact H|].
  destruct (rule_matches url category c); [|exact H].
  destruct (rp_state acc !! id) as [s|];
    [destruct (active s); [exact H|destruct (_ <=? _)%Z]|destruct (inherited id)];
    cbn [rp_events]; rewrite alarms_app, H; reflexivity.
Qed.

Lemma foldl_alarms (now : Z) (url category : string) (rules : list Rule) :
  forall acc, alarms (rp_events acc) = [] ->
  alarms (rp_events (foldl (check_rule now url category) acc rules)) = [].
Proof.
  induction rules as [|r rules IH]; intros acc H; simpl; [exact H|].
  apply IH, check_rule_alarms, H.
Qed.

Lemma run_step_alarms (o : step_env) (txid : value) (total i : nat)
    (step action : value) (st : State) :
  alarms (snd (run_step o txid total i step action st)) = [].
Proof.
  unfold run_step, run_action.
  destruct (is_str action "open_url");
    [destruct (truthy _)|
     destruct (is_str action "wait"); [|destruct (includes_value BROWSER_CALLS action)]];
    destruct (kill_arrives o); destruct (throws o); reflexivity.
Qed.

Lemma run_loop_alarms (env : nat -> step_env) (txid : value) (total : nat)
    (steps : list value) :
  forall (i : nat) (st : State),
  alarms (snd (fst (run_loop env txid total i steps st))) = [].
Proof.
  induction steps as [|step rest IH]; intros i st; simpl; [reflexivity|].
  destruct (killSwitchActive st); [reflexivity|].
  destruct (get step "action") as [action|e]; [|reflexivity].
  pose proof (run_step_alarms (env i) txid total i step action st) as H1.
  destruct (run_step (env i) txid total i step action st) as [st1 evs1].
  specialize (IH (S i) st1).
  destruct (run_loop env txid total (S i) rest st1) as [[st2 evs2] r].
  simpl in *. rewrite alarms_app, H1, IH. reflexivity.
Qed.

Lemma handleChatbotResponse_alarms (uuid : string) (env : nat -> step_env)
    (parsed txid : value) (st : State) :
  alarms (snd (fst (handleChatbotResponse uuid env parsed txid st))) = [].
Proof.
  unfold handleChatbotResponse.
  destruct (negb (truthy parsed)); [reflexivity|].
  destruct (set parsed "transaction_id" _) as [stamped|e]; cbn [mbind res_bind Js.bind];
    [|reflexivity].
  destruct (validatePlan uuid stamped) as [v|e]; [|reflexivity].
  destruct (negb (valid v)); [reflexivity|].
  destruct (runSafetyCheck (vplan v)) as [s|e]; [|reflexivity].
  destruct (negb (safe s)); [reflexivity|].
  cbv zeta.
  match goal with
  | |- context [executeBrowserPlan ?e ?t ?l ?x] =>
      pose proof (run_loop_alarms e t (length l) l 0 (entering t l x)) as Hrun;
      unfold executeBrowserPlan; fold (entering t l x);
      destruct (run_loop e t (length l) 0 l (entering t l x)) as [[st1 evs] r]
  end.
  cbn [fst snd] in Hrun.
  destruct (0 <? length (filter _ _)); destruct (0 <? length (filter _ _));
    cbn [fst snd]; rewrite ?alarms_app, ?Hrun; reflexivity.
Qed.

Lemma handleChatbotResponse_attempts (uuid : string) (env : nat -> step_env)
    (parsed txid : value) (st : State) :
  reconnectAttempts (fst (fst (handleChatbotResponse uuid env parsed txid st))) =
    reconnectAttempts st.
Proof.
  destruct (handleChatbotResponse_state uuid env parsed txid st) as [->|(steps & ->)];
    [reflexivity|].
  destruct (executeBrowserPlan_frame env txid steps st) as (_ & _ & _ & H & _). exact H.
Qed.

(** The alarms of one input: none, or the one of [onclose]. *)
Lemma handle_alarms (st : State) (i : input) :
  reconnectAttempts st <= 50 ->
  reconnectAttempts (fst (handle st i)) <= 50 /\
  Forall (fun d => (2000 <= d)%Q /\ (d <= 30000)%Q) (alarms (snd (handle st i))).
Proof.
  intros Hn. destruct i as [| | |u p e pl|rules|now url cat|u env parsed txid].
  - simpl. split; [lia|constructor].
  - cbn [handle]. unfold onclose.
    destruct (Nat.lt_ge_cases (reconnectAttempts st) MAX_RECONNECT_ATTEMPTS) as [Hlt|Hge].
    + rewrite scheduleReconnect_below by exact Hlt. cbn [fst snd app alarms omap reconnectAttempts with_ws].
      unfold MAX_RECONNECT_ATTEMPTS in Hlt. split; [lia|].
      constructor; [|constructor].
      destruct (backoff_in_range (reconnectAttempts st + 1)) as (H1 & H2 & _); [lia|]. auto.
    + rewrite scheduleReconnect_exhausted by exact Hge.
      cbn [fst snd app alarms omap reconnectAttempts with_ws]. split; [exact Hn|constructor].
  - simpl. split; [exact Hn|constructor].
  - cbn [handle]. unfold handlePromptExecution.
    destruct (killSwitchActive st); [split; [exact Hn|constructor]|].
    destruct (String.eqb _ ""); [split; [exact Hn|constructor]|].
    destruct (bool_decide _); [split; [exact Hn|constructor]|].
    split; [exact Hn|]. destruct e; constructor.
  - cbn [handle]. destruct rules as [rules|]; simpl; [|split; [exact Hn|constructor]].
    split; [exact Hn|].
    replace (alarms (map (fun r => Log (LRule r)) rules)) with (@nil Q); [constructor|].
    induction rules; simpl; auto.
  - cbn [handle]. unfold checkRulesAgainstUrl.
    destruct (_ =? 0); [split; [exact Hn|constructor]|].
    cbn [fst snd reconnectAttempts with_rules]. split; [exact Hn|].
    rewrite alarms_app, inactive_logs_alarms, app_nil_r, foldl_alarms by reflexivity.
    constructor.
  - cbn [handle]. rewrite handleChatbotResponse_attempts, handleChatbotResponse_alarms.
    split; [exact Hn|constructor].
Qed.

Lemma run_alarms (ins : list input) :
  forall st : State,
  reconnectAttempts st <= 50 ->
  reconnectAttempts (fst (run st ins)) <= 50 /\
  Forall (fun d => (2000 <= d)%Q /\ (d <= 30000)%Q) (alarms (snd (run st ins))).
Proof.
  induction ins as [|i ins IH]; intros st Hn; simpl; [split; [exact Hn|constructor]|].
  destruct (handle_alarms st i Hn) as [H1 H2].
  destruct (handle st i) as [st1 evs1]. cbn [fst snd] in *.
  destruct (IH st1 H1) as [H3 H4].
  destruct (run st1 ins) as [st2 evs2]. cbn [fst snd] in *.
  split; [exact H3|]. rewrite alarms_app. apply Forall_app. split; assumption.
Qed.

(** X21.  Over every sequence of inputs from the initial state, each
    reconnect alarm is scheduled with a delay between 2000 and 30000 ms
    and the attempt counter never exceeds [MAX_RECONNECT_ATTEMPTS]; and
    in any state at all, an alarm that [scheduleReconnect] creates has
    its delay in that range. *)
Theorem reconnect_delays_stay_in_range (ins : list input) :
  reconnectAttempts (fst (run initial ins)) <= MAX_RECONNECT_ATTEMPTS /\
  Forall (fun d => (2000 <= d)%Q /\ (d <= 30000)%Q) (alarms (snd (run initial ins))) /\
  (forall st : State,
     Forall (fun d => (2000 <= d)%Q /\ (d <= 30000)%Q) (alarms (snd (scheduleReconnect st)))).
Proof.
  destruct (run_alarms ins initial) as [H1 H2]; [simpl; lia|].
  split; [exact H1|]. split; [exact H2|].
  intros st.
  destruct (Nat.lt_ge_cases (reconnectAttempts st) MAX_RECONNECT_ATTEMPTS) as [Hlt|Hge].
  - rewrite scheduleReconnect_below by exact Hlt. cbn [snd alarms omap].
    unfold MAX_RECONNECT_ATTEMPTS in Hlt.
    destruct (backoff_in_range (reconnectAttempts st + 1)) as (Ha & Hb & _); [lia|].
    constructor; [split; assumption|constructor].
  - rewrite scheduleReconnect_exhausted by exact Hge. constructor.
Qed.

(** X22.  In a streak of socket closes after a successful open at most
    [MAX_RECONNECT_ATTEMPTS] alarms are scheduled, and each delay is at
    least the one before. *)
Theorem reconnect_delays_never_decrease (st : State) (n j : nat) (d d' : Q) :
  let evs := alarms (snd (run (fst (onopen st)) (replicate n WsClose))) in
  length evs <= MAX_RECONNECT_ATTEMPTS /\
  (evs !! j = Some d -> evs !! (S j) = Some d' -> (d <= d')%Q).
Proof.
  cbv zeta.
  destruct (closes_from n (fst (onopen st))) as [_ Ha]; [simpl; lia|].
  change (reconnectAttempts (fst (onopen st))) with 0 in Ha.
  cbn [Nat.add] in Ha. rewrite Nat.sub_0_r in Ha.
  set (evs := alarms _) in *. clearbody evs. subst evs.
  rewrite length_map, length_seq. split; [unfold MAX_RECONNECT_ATTEMPTS; lia|].
  change (map backoff (seq 1 (Nat.min n 50))) with (backoff <$> seq 1 (Nat.min n 50)).
  rewrite !list_lookup_fmap. intros Hj Hj'.
  destruct (seq 1 (Nat.min n 50) !! j) as [k|] eqn:Hk; [|discriminate].
  destruct (seq 1 (Nat.min n 50) !! S j) as [k'|] eqn:Hk'; [|discriminate].
  apply lookup_seq in Hk as [-> Hlt]. apply lookup_seq in Hk' as [-> Hlt'].
  simpl in Hj, Hj'. injection Hj as <-. injection Hj' as <-.
  destruct (backoff_in_range (S j)) as (_ & _ & H); [lia|].
  replace (S j + 1) with (S (S j)) in H by lia. exact H.
Qed.

End TransportMore.
(** ** URL monitor: categories *)

Section Categories.

Lemma append_cons (c : ascii) (a b : string) : String c a +:+ b = String c (a +:+ b).
Proof. reflexivity. Qed.

Lemma append_nil_l (b : string) : "" +:+ b = b.
Proof. reflexivity. Qed.

Lemma ends_with_spec (s p : string) :
  ends_with s p = true <-> exists a, s = a +:+ p.
Proof.
  induction s as [|c s IH]; cbn [ends_with].
  - rewrite orb_false_r. split.
    + intros H. apply String.eqb_eq in H. subst p. exists "". reflexivity.
    + intros (a & Ha). destruct a; [rewrite append_nil_l in Ha|rewrite append_cons in Ha];
        [subst p; reflexivity|discriminate].
  - rewrite orb_true_iff, IH. split.
    + intros [H|(a & ->)].
      * apply String.eqb_eq in H. subst p. exists "". reflexivity.
      * exists (String c a). reflexivity.
    + intros (a & Ha). destruct a as [|x a];
        [rewrite append_nil_l in Ha|rewrite append_cons in Ha].
      * left. subst p. apply String.eqb_refl.
      * right. injection Ha as -> ->. exists a. reflexivity.
Qed.

(** A domain matches a hostname when, with a dot put before both, it is
    a suffix of it. *)
Lemma domain_matches_dotted (h d : string) :
  domain_matches h d = ends_with ("." +:+ h) ("." +:+ d).
Proof.
  unfold domain_matches.
  change ("." +:+ h) with (String "." h). change ("." +:+ d) with (String "." d).
  cbn [ends_with String.eqb]. rewrite Ascii.eqb_refl. reflexivity.
Qed.

(** Two suffixes of one string: one is a suffix of the other. *)
Lemma suffixes_comparable (a : string) :
  forall b p q : string,
  a +:+ p = b +:+ q -> ends_with p q = true \/ ends_with q p = true.
Proof.
  induction a as [|x a IH]; intros b p q H.
  - left. apply ends_with_spec. exists b. exact H.
  - destruct b as [|y b].
    + right. apply ends_with_spec. exists (String x a). symmetry. exact H.
    + change (String x (a +:+ p) = String y (b +:+ q)) in H.
      injection H as _ H. apply (IH b p q H).
Qed.

Lemma categories_are_apart : categories_apart = true.
Proof. vm_compute. reflexivity. Qed.

(** A hostname matches domains of one category only. *)
Lemma one_category (h : string) (e e' : string * list string) (d d' : string) :
  In e URL_CATEGORIES -> In d (snd e) -> domain_matches h d = true ->
  In e' URL_CATEGORIES -> In d' (snd e') -> domain_matches h d' = true ->
  fst e = fst e'.
Proof.
  intros He Hd Hm He' Hd' Hm'.
  pose proof categories_are_apart as H. unfold categories_apart in H.
  rewrite forallb_forall in H. specialize (H e He).
  rewrite forallb_forall in H. specialize (H d Hd).
  rewrite forallb_forall in H. specialize (H e' He').
  apply orb_true_iff in H as [H|H]; [apply String.eqb_eq, H|].
  rewrite forallb_forall in H. specialize (H d' Hd').
  apply andb_true_iff in H as [H1 H2].
  apply negb_true_iff in H1, H2.
  rewrite domain_matches_dotted in Hm, Hm'.
  apply ends_with_spec in Hm as (a & Ha). apply ends_with_spec in Hm' as (b & Hb).
  rewrite Ha in Hb.
  destruct (suffixes_comparable a b _ _ Hb) as [Hc|Hc]; congruence.
Qed.

Lemma strip_www_spec (h : string) :
  strip_www h = h \/
  exists rest, h = String "w" (String "w" (String "w" (String "." rest))) /\
               strip_www h = rest.
Proof.
  destruct h as [|c0 h]; [left; reflexivity|].
  destruct c0 as [[] [] [] [] [] [] [] []]; try (left; reflexivity).
  destruct h as [|c1 h]; [left; reflexivity|].
  destruct c1 as [[] [] [] [] [] [] [] []]; try (left; reflexivity).
  destruct h as [|c2 h]; [left; reflexivity|].
  destruct c2 as [[] [] [] [] [] [] [] []]; try (left; reflexivity).
  destruct h as [|c3 h]; [left; reflexivity|].
  destruct c3 as [[] [] [] [] [] [] [] []]; try (left; reflexivity).
  right. exists h. split; reflexivity.
Qed.

(** Removing a leading [www.] does not change which domains match,
    for a domain that does not start with it. *)
Lemma strip_www_matches (h d : string) :
  strip_www d = d ->
  domain_matches (strip_www h) d = domain_matches h d.
Proof.
  intros Hd.
  destruct (strip_www_spec h) as [->|(rest & -> & ->)]; [reflexivity|].
  rewrite !domain_matches_dotted.
  change ("." +:+ String "w" (String "w" (String "w" (String "." rest))))
    with (String "." (String "w" (String "w" (String "w" (String "." rest))))).
  change ("." +:+ d) with (String "." d). change ("." +:+ rest) with (String "." rest).
  cbn [ends_with].
  assert (F1 : String.eqb (String "." (String "w" (String "w" (String "w" (String "." rest)))))
                 (String "." d) = false).
  { apply String.eqb_neq. intros [= E]. subst d.
    cbn [strip_www] in Hd. apply (f_equal String.length) in Hd. simpl in Hd. lia. }
  assert (F2 : forall x, String.eqb (String "w" x) (String "." d) = false).
  { intros x. apply String.eqb_neq. discriminate. }
  rewrite F1, !F2. reflexivity.
Qed.

Lemma domains_keep_www :
  forallb (fun e => forallb (fun d => String.eqb (strip_www d) d) (snd e)) URL_CATEGORIES = true.
Proof. vm_compute. reflexivity. Qed.

Lemma category_names :
  forallb (fun e => negb (String.eqb (fst e) "other")) URL_CATEGORIES = true.
Proof. vm_compute. reflexivity. Qed.

Lemma categorizeHost_spec (h c : string) :
  categorizeHost h = c /\ c <> "other" <->
  exists e d, In e URL_CATEGORIES /\ fst e = c /\ In d (snd e) /\ domain_matches h d = true.
Proof.
  assert (Hstrip : forall e d, In e URL_CATEGORIES -> In d (snd e) ->
            domain_matches (strip_www h) d = domain_matches h d).
  { intros e d He Hd. apply strip_www_matches.
    pose proof domains_keep_www as H. rewrite forallb_forall in H. specialize (H e He).
    rewrite forallb_forall in H. apply String.eqb_eq, H, Hd. }
  unfold categorizeHost. cbv zeta.
  destruct (List.find _ URL_CATEGORIES) as [e0|] eqn:Hfind.
  - apply find_some in Hfind as [He0 Hex].
    apply existsb_exists in Hex as (d0 & Hd0 & Hm0).
    rewrite (Hstrip e0 d0 He0 Hd0) in Hm0. split.
    + intros [<- _]. exists e0, d0. auto.
    + intros (e & d & He & <- & Hd & Hm). split.
      * apply (one_category h e0 e d0 d); assumption.
      * pose proof category_names as H. rewrite forallb_forall in H.
        specialize (H e He). apply negb_true_iff in H.
        intros Heq. rewrite Heq in H. discriminate.
  - split.
    + intros [<- Hne]. contradiction.
    + intros (e & d & He & _ & Hd & Hm). exfalso.
      pose proof (find_none _ _ Hfind e He) as Hnone. cbv beta in Hnone.
      assert (Hex : existsb (domain_matches (strip_www h)) (snd e) = true).
      { apply existsb_exists. exists d. split; [exact Hd|].
        rewrite (Hstrip e d He Hd). exact Hm. }
      congruence.
Qed.

(** X23.  [categorizeUrl] gives a hostname the category [c] other than
    [other] exactly when the hostname is a listed domain of [c] or a
    subdomain of one.  So the order of the categories and the removal
    of a leading [www.] make no difference: no hostname falls under two
    categories. *)
Theorem categorizeHost_by_domain (h c : string) :
  categorizeHost h = c /\ c <> "other" <->
  exists e d, In e URL_CATEGORIES /\ fst e = c /\ In d (snd e) /\ domain_matches h d = true.
Proof. apply categorizeHost_spec. Qed.

Lemma listed_domain_category (e : string * list string) (d sub : string) :
  In e URL_CATEGORIES -> In d (snd e) ->
  categorizeUrl (Some d) = fst e /\
  categorizeUrl (Some (sub +:+ "." +:+ d)) = fst e.
Proof.
  intros He Hd. split.
  - apply (categorizeHost_spec d (fst e)). exists e, d.
    repeat split; try assumption. unfold domain_matches. rewrite String.eqb_refl. reflexivity.
  - apply (categorizeHost_spec (sub +:+ "." +:+ d) (fst e)). exists e, d.
    repeat split; try assumption. unfold domain_matches.
    apply orb_true_iff. right. apply ends_with_spec. exists sub. reflexivity.
Qed.

(** X24.  Every listed domain and every subdomain of it get the category
    under which the domain is listed, and a URL that cannot be parsed
    gets [other]. *)
Theorem subdomains_share_the_category (e : string * list string) (d sub : string) :
  In e URL_CATEGORIES -> In d (snd e) ->
  categorizeUrl (Some d) = fst e /\
  categorizeUrl (Some (sub +:+ "." +:+ d)) = fst e /\
  categorizeUrl None = "other".
Proof.
  intros He Hd. destruct (listed_domain_category e d sub He Hd) as [H1 H2].
  split; [exact H1|]. split; [exact H2|reflexivity].
Qed.

End Categories.

Lemma subdomains_share_the_category_witness :
  categorizeUrl (Some "youtube.com") = "social" /\
  categorizeUrl (Some ("music" +:+ "." +:+ "youtube.com")) = "social" /\
  categorizeUrl None = "other".
Proof.
  apply (subdomains_share_the_category
           ("social",
            [ "youtube.com"; "instagram.com"; "twitter.com"; "x.com";
              "facebook.com"; "reddit.com"; "tiktok.com"; "linkedin.com" ])
           "youtube.com" "music").
  - simpl. auto.
  - simpl. auto.
Defined.

(** ** URL monitor: one report per URL *)

Section UrlChange.

(** X25.  Whatever a call of [handleUrlChange] did with a URL, a call with
    the same URL right after it does nothing: no trigger is sent, no
    rule is checked, no variable changes, also when the first call
    failed on a URL that cannot be parsed. *)
Theorem url_is_reported_once (now now' : Z) (url : string) (host host' : option string)
    (m : Monitor) :
  let m1 := fst (fst (handleUrlChange now url host m)) in
  handleUrlChange now' url host' m1 = (m1, [], None).
Proof.
  cbv zeta.
  assert (Hg : ignored url (fst (fst (handleUrlChange now url host m))) = true).
  { unfold handleUrlChange. destruct (ignored url m) eqn:Hi; [exact Hi|].
    assert (Hlast : forall m', lastReportedUrl m' = url -> ignored url m' = true).
    { intros m' Hm. unfold ignored. rewrite Hm, String.eqb_refl, orb_true_r. reflexivity. }
    apply Hlast. destruct host; [|reflexivity].
    destruct (checkRulesAgainstUrl _ _ _ _). reflexivity. }
  unfold handleUrlChange at 1. rewrite Hg. reflexivity.
Qed.

End UrlChange.
(** ** URL monitor: from a URL change to a rule *)

Section UrlRules.

Lemma url_fired_rules (a : list url_event) (evs : list event) :
  url_fired a = [] -> url_fired (a ++ map RuleEvent evs) = fired evs.
Proof.
  unfold url_fired. intros Ha. rewrite omap_app, fired_app, Ha. cbn [app].
  f_equal. induction evs as [|e evs IH]; [reflexivity|].
  change (e :: omap (fun e0 : url_event => match e0 with
                                            | RuleEvent x => Some x
                                            | _ => None
                                            end) (map RuleEvent evs) = e :: evs).
  rewrite IH. reflexivity.
Qed.

(** The rule check under one rule on a category, for a URL of that
    category. *)
Lemma single_category_rule (now : Z) (url c id : string) (st : State) :
  id <> "" -> inherited id = false ->
  registeredRules st = [category_rule id c] ->
  let out := checkRulesAgainstUrl now url c st in
  registeredRules (fst out) = [category_rule id c] /\
  match triggeredRulesState st !! id with
  | None =>
      fired (snd out) = [id] /\
      triggeredRulesState (fst out) !! id = Some {| active := true; lastTriggered := now |}
  | Some s =>
      active s = true ->
      fired (snd out) = [] /\ triggeredRulesState (fst out) !! id = Some s
  end.
Proof.
  intros Hid Hinh Hrules. cbv zeta.
  assert (Hne : String.eqb id "" = false) by (apply String.eqb_neq, Hid).
  assert (Hin : id ∈ ({[id]} ∪ ∅ : gset string)).
  { apply elem_of_union. left. apply elem_of_singleton. reflexivity. }
  unfold checkRulesAgainstUrl. rewrite Hrules. cbn [length Nat.eqb foldl].
  unfold check_rule, category_rule. cbn [rule_id criteria]. rewrite Hne.
  unfold rule_matches. cbn [ctype cvalue].
  change (String.eqb "category" "category") with true. cbv iota.
  rewrite String.eqb_refl.
  cbn [rp_state rp_matched rp_events fst snd registeredRules triggeredRulesState with_rules].
  split; [reflexivity|].
  destruct (triggeredRulesState st !! id) as [s|] eqn:Hs.
  - intros Hact. rewrite Hact.
    cbn [rp_state rp_matched rp_events fst snd triggeredRulesState with_rules app].
    rewrite fired_inactive_logs. split; [reflexivity|].
    unfold mark_inactive. rewrite map_lookup_imap, Hs. cbn [mbind option_bind].
    unfold leaves. rewrite (bool_decide_eq_true_2 _ Hin). reflexivity.
  - rewrite Hinh.
    cbn [rp_state rp_matched rp_events fst snd triggeredRulesState with_rules app].
    rewrite fired_app, fired_inactive_logs. split; [reflexivity|].
    unfold mark_inactive. rewrite map_lookup_imap, lookup_insert_eq. cbn [mbind option_bind].
    unfold leaves. rewrite (bool_decide_eq_true_2 _ Hin). reflexivity.
Qed.

(** X26.  With one rule on a category registered and not yet triggered,
    its id not the name of a member of [Object.prototype], a change to
    a URL on a subdomain of a domain listed under that category sends
    the [url_trigger] with that category and fires the rule once; the
    next URL change within the category, at any time, fires nothing. *)
Theorem category_rule_fires_on_entry (e : string * list string) (d sub id : string)
    (now now' : Z) (url url' : string) (host' : option string) (m : Monitor) :
  In e URL_CATEGORIES -> In d (snd e) -> id <> "" -> inherited id = false ->
  registeredRules (worker m) = [category_rule id (fst e)] ->
  triggeredRulesState (worker m) !! id = None ->
  ignored url m = false ->
  categorizeUrl host' = fst e ->
  let out := handleUrlChange now url (Some (sub +:+ "." +:+ d)) m in
  let out' := handleUrlChange now' url' host' (fst (fst out)) in
  In (UrlToDesktop url (sub +:+ "." +:+ d) (fst e)) (snd (fst out)) /\
  url_fired (snd (fst out)) = [id] /\
  url_fired (snd (fst out')) = [].
Proof.
  intros He Hd Hid Hinh Hrules Hstate Hign Hcat. cbv zeta.
  destruct (listed_domain_category e d sub He Hd) as (_ & Hsub).
  pose proof (single_category_rule now url (fst e) id (worker m) Hid Hinh Hrules) as H1.
  cbv zeta in H1. rewrite Hstate in H1.
  assert (Hout : handleUrlChange now url (Some (sub +:+ "." +:+ d)) m =
                 (let '(st, evs) := checkRulesAgainstUrl now url (fst e) (worker m) in
                  ({| lastReportedUrl := url; worker := st |},
                   [ UrlToDesktop url (sub +:+ "." +:+ d) (fst e);
                     UrlToPopup url (sub +:+ "." +:+ d) (fst e);
                     UrlLog (sub +:+ "." +:+ d) (fst e) ] ++ map RuleEvent evs,
                   @None exn))).
  { unfold handleUrlChange. rewrite Hign, Hsub. reflexivity. }
  rewrite Hout. clear Hout.
  destruct (checkRulesAgainstUrl now url (fst e) (worker m)) as [st1 evs1].
  cbn [fst snd] in *. destruct H1 as (Hr1 & Hf1 & Hs1).
  split; [left; reflexivity|]. split.
  - match goal with
    | |- url_fired (?a ++ map RuleEvent ?b) = _ => rewrite (url_fired_rules a b eq_refl)
    end. exact Hf1.
  - unfold handleUrlChange. destruct (ignored url' _); [reflexivity|].
    destruct host' as [h'|]; [|reflexivity].
    rewrite Hcat. cbn [worker].
    pose proof (single_category_rule now' url' (fst e) id st1 Hid Hinh Hr1) as H2.
    cbv zeta in H2. rewrite Hs1 in H2. destruct H2 as (_ & H2). specialize (H2 eq_refl).
    destruct (checkRulesAgainstUrl now' url' (fst e) st1) as [st2 evs2].
    cbn [fst snd] in *.
    match goal with
    | |- url_fired (?a ++ map RuleEvent ?b) = _ => rewrite (url_fired_rules a b eq_refl)
    end. exact (proj1 H2).
Qed.

End UrlRules.

Lemma category_rule_fires_on_entry_witness :
  let m := {| lastReportedUrl := "";
              worker := with_rules [category_rule "r1" "social"] ∅ initial |} in
  let out := handleUrlChange 0 "https://music.youtube.com/" (Some ("music" +:+ "." +:+ "youtube.com")) m in
  let out' := handleUrlChange 5 "https://x.com/home" (Some "x.com") (fst (fst out)) in
  In (UrlToDesktop "https://music.youtube.com/" ("music" +:+ "." +:+ "youtube.com") "social")
     (snd (fst out)) /\
  url_fired (snd (fst out)) = ["r1"] /\
  url_fired (snd (fst out')) = [].
Proof.
  apply (category_rule_fires_on_entry
           ("social",
            [ "youtube.com"; "instagram.com"; "twitter.com"; "x.com";
              "facebook.com"; "reddit.com"; "tiktok.com"; "linkedin.com" ])
           "youtube.com" "music" "r1" 0 5 "https://music.youtube.com/" "https://x.com/home"
           (Some "x.com")
           {| lastReportedUrl := "";
              worker := with_rules [category_rule "r1" "social"] ∅ initial |}).
  - simpl. auto.
  - simpl. auto.
  - discriminate.
  - reflexivity.
  - reflexivity.
  - reflexivity.
  - reflexivity.
  - reflexivity.
Defined.
(** ** extractJSON *)

Section ExtractProperties.

Variable parse : string -> option value.

Lemma starts_with_app (p rest : string) : starts_with (p +:+ rest) p = true.
Proof.
  induction p as [|c p IH]; [apply starts_with_nil|].
  rewrite append_cons. cbn [starts_with]. rewrite Ascii.eqb_refl. exact IH.
Qed.

Lemma drop_chars_app (p rest : string) : drop_chars (String.length p) (p +:+ rest) = rest.
Proof.
  induction p as [|c p IH]; [destruct rest; reflexivity|].
  rewrite append_cons. cbn [String.length drop_chars]. exact IH.
Qed.

(** The first occurrence of a pattern whose first character does not
    occur before it. *)
Lemma split_on_fresh (c : ascii) (p pre rest : string) :
  has_char c pre = false ->
  split_on (String c p) (pre +:+ String c p +:+ rest) = Some (pre, rest).
Proof.
  induction pre as [|x pre IH]; intros Hc.
  - rewrite append_nil_l.
    pose proof (starts_with_app (String c p) rest) as Hs.
    pose proof (drop_chars_app (String c p) rest) as Hd.
    rewrite append_cons in *. cbn [split_on]. rewrite Hs, Hd. reflexivity.
  - cbn [has_char] in Hc. apply orb_false_iff in Hc as [Hx Hc].
    rewrite append_cons. cbn [split_on starts_with]. rewrite Hx. cbn [andb].
    rewrite (IH Hc). reflexivity.
Qed.

Lemma split_on_none (c : ascii) (p s : string) :
  has_char c s = false -> split_on (String c p) s = None.
Proof.
  induction s as [|x s IH]; intros Hc; [reflexivity|].
  cbn [has_char] in Hc. apply orb_false_iff in Hc as [Hx Hc].
  cbn [split_on starts_with]. rewrite Hx. cbn [andb]. rewrite (IH Hc). reflexivity.
Qed.

Lemma split_on_rest (c : ascii) (p : string) :
  forall s a b : string,
  split_on p s = Some (a, b) -> has_char c s = false -> has_char c b = false.
Proof.
  assert (Hdrop : forall n s, has_char c s = false -> has_char c (drop_chars n s) = false).
  { induction n as [|n IHn]; intros s Hs; [destruct s; exact Hs|].
    destruct s as [|x s]; [exact Hs|]. cbn [drop_chars]. apply IHn.
    cbn [has_char] in Hs. apply orb_false_iff in Hs as [_ Hs]. exact Hs. }
  induction s as [|x s IH]; intros a b H Hc.
  - cbn [split_on] in H. destruct (starts_with "" p); [|discriminate].
    injection H as _ <-. apply Hdrop, Hc.
  - cbn [split_on] in H. destruct (starts_with (String x s) p).
    + injection H as _ <-. apply Hdrop, Hc.
    + destruct (split_on p s) as [[a' b']|] eqn:Hs; [|discriminate].
      injection H as _ <-. apply (IH a' b' eq_refl).
      cbn [has_char] in Hc. apply orb_false_iff in Hc as [_ Hc]. exact Hc.
Qed.

Lemma upto_last_brace_none (s : string) :
  has_char "}" s = false -> upto_last_brace s = None.
Proof.
  induction s as [|x s IH]; intros Hc; [reflexivity|].
  cbn [has_char] in Hc. apply orb_false_iff in Hc as [Hx Hc].
  cbn [upto_last_brace]. rewrite (IH Hc).
  rewrite Ascii.eqb_sym, Hx. reflexivity.
Qed.

Lemma upto_last_brace_app (mid post : string) :
  has_char "}" post = false ->
  upto_last_brace (mid +:+ "}" +:+ post) = Some (mid +:+ "}").
Proof.
  intros Hp. induction mid as [|x mid IH].
  - rewrite append_nil_l.
    change ("}" +:+ post) with (String "}" post). cbn [upto_last_brace].
    rewrite (upto_last_brace_none post Hp). reflexivity.
  - change (String x mid +:+ "}" +:+ post) with (String x (mid +:+ "}" +:+ post)).
    cbn [upto_last_brace]. rewrite IH. reflexivity.
Qed.

Lemma has_char_app (c : ascii) (a b : string) :
  has_char c (a +:+ b) = has_char c a || has_char c b.
Proof.
  induction a as [|x a IH]; [reflexivity|].
  rewrite append_cons. cbn [has_char]. rewrite IH. apply orb_assoc.
Qed.

Lemma nonempty_app (a b : string) : b <> "" -> String.eqb (a +:+ b) "" = false.
Proof.
  intros Hb. apply String.eqb_neq. destruct a; [exact Hb|discriminate].
Qed.

(** X27.  When the response holds a fenced block, labelled [json] or not,
    with no backtick before it or inside it, and the trimmed text of
    the block parses, [extractJSON] returns that value whatever
    surrounds the block, braces included. *)
Theorem extractJSON_reads_the_fenced_block (pre body post : string) (v : value) :
  has_char "`" pre = false ->
  has_char "`" body = false ->
  parse (trim body) = Some v ->
  extractJSON parse (pre +:+ "```" +:+ "json" +:+ body +:+ "```" +:+ post) = v /\
  (starts_with body "j" = false ->
   extractJSON parse (pre +:+ "```" +:+ body +:+ "```" +:+ post) = v).
Proof.
  intros Hpre Hbody Hparse.
  assert (Hsplit : split_on "```" (body +:+ "```" +:+ post) = Some (body, post)).
  { apply (split_on_fresh "`" "``" body post Hbody). }
  split.
  - unfold extractJSON. rewrite nonempty_app by discriminate.
    unfold fence_candidate.
    rewrite (split_on_fresh "`" "``" pre _ Hpre).
    unfold skip_label. rewrite (starts_with_app "json").
    rewrite (drop_chars_app "json"). rewrite Hsplit.
    cbn [mbind option_bind]. rewrite Hparse. reflexivity.
  - intros Hj. unfold extractJSON. rewrite nonempty_app by discriminate.
    unfold fence_candidate.
    rewrite (split_on_fresh "`" "``" pre _ Hpre).
    unfold skip_label.
    assert (Hno : starts_with (body +:+ "```" +:+ post) "json" = false).
    { destruct body as [|c body]; [reflexivity|].
      rewrite append_cons. cbn [starts_with] in *.
      destruct (Ascii.eqb "j" c); [|reflexivity].
      cbn [andb] in Hj. rewrite ?starts_with_nil in Hj. discriminate Hj. }
    rewrite Hno, Hsplit. cbn [mbind option_bind]. rewrite Hparse. reflexivity.
Qed.

(** X28.  Without any backtick in the response, [extractJSON] parses the text
    from the first opening brace to the last closing brace and returns
    the value, or [null] when that text does not parse. *)
Theorem extractJSON_falls_back_to_braces (pre mid post : string) :
  has_char "`" (pre +:+ "{" +:+ mid +:+ "}" +:+ post) = false ->
  has_char "{" pre = false ->
  has_char "}" post = false ->
  extractJSON parse (pre +:+ "{" +:+ mid +:+ "}" +:+ post) =
    default VNull (parse ("{" +:+ mid +:+ "}")).
Proof.
  intros Htick Hpre Hpost.
  unfold extractJSON. rewrite nonempty_app by discriminate.
  unfold fence_candidate. rewrite (split_on_none "`" "``" _ Htick).
  cbn [mbind option_bind].
  unfold brace_candidate.
  rewrite (split_on_fresh "{" "" pre _ Hpre). cbv beta iota.
  rewrite (upto_last_brace_app mid post Hpost).
  cbn [mbind option_bind]. destruct (parse _); reflexivity.
Qed.

(** X29.  A response with no backtick and with no opening or no closing
    brace, the empty one included, gives [null], and
    [handleChatbotResponse] then reports the parse failure and leaves
    the state as it was. *)
Theorem extractJSON_finds_nothing (text : string) (uuid : string)
    (env : nat -> step_env) (txid : value) (st : State) :
  has_char "`" text = false ->
  has_char "{" text = false \/ has_char "}" text = false ->
  extractJSON parse text = VNull /\
  fst (handleChatbotResponse uuid env (extractJSON parse text) txid st) =
    (st, chatbot_intro txid ++
           [ Log LCouldNotExtract;
             ToDesktop (ExecutionStatus txid (StatusError LCouldNotExtract));
             ToPopup (PExecutionError LCouldNotExtract) ]).
Proof.
  intros Htick Hbrace.
  assert (Hnull : extractJSON parse text = VNull).
  { unfold extractJSON. destruct (String.eqb text ""); [reflexivity|].
    unfold fence_candidate. rewrite (split_on_none "`" "``" _ Htick).
    cbn [mbind option_bind]. unfold brace_candidate.
    destruct Hbrace as [Ho|Hc].
    - rewrite (split_on_none "{" "" _ Ho). reflexivity.
    - destruct (split_on "{" text) as [[a b]|] eqn:Hs; [|reflexivity].
      rewrite (upto_last_brace_none b); [reflexivity|].
      apply (split_on_rest "}" "{" text a b Hs Hc). }
  split; [exact Hnull|]. rewrite Hnull. reflexivity.
Qed.

End ExtractProperties.

Lemma extractJSON_reads_the_fenced_block_witness :
  extractJSON (parse_only "{}" (VObj [])) ("Plan: { " +:+ "```" +:+ "json" +:+ " {} " +:+ "```" +:+ " done }") = VObj [].
Proof.
  apply (extractJSON_reads_the_fenced_block (parse_only "{}" (VObj []))
           "Plan: { " " {} " " done }" (VObj [])); reflexivity.
Defined.

Lemma extractJSON_falls_back_to_braces_witness :
  extractJSON (parse_only "{}" (VObj [])) ("Plan: " +:+ "{" +:+ "" +:+ "}" +:+ " done") = VObj [].
Proof.
  apply (extractJSON_falls_back_to_braces (parse_only "{}" (VObj []))
           "Plan: " "" " done"); reflexivity.
Defined.

Lemma extractJSON_finds_nothing_witness :
  extractJSON (parse_only "{}" (VObj [])) "I cannot help with that." = VNull.
Proof.
  apply (extractJSON_finds_nothing (parse_only "{}" (VObj [])) "I cannot help with that."
           "u" quiet VUndef initial); [reflexivity|left; reflexivity].
Defined.

(** ** Runs of the executor that overlap *)
Section OverlappingRuns.

Context (others : Overlap.writes) (env : nat -> step_env) (transactionId : value).

Lemma overwrite_frame (w : option (option Execution)) (st : State) :
  killSwitchActive (Overlap.overwrite w st) = killSwitchActive st /\
  with_execution None (Overlap.overwrite w st) = with_execution None st /\
  currentExecution (Overlap.overwrite w st) =
    match w with Some e => e | None => currentExecution st end.
Proof. destruct w; repeat split. Qed.

(** Every way a run among other runs ends. *)
Lemma overlap_run_loop_outcomes (total : nat) (steps : list value) :
  Forall (fun s => non_null s = true) steps ->
  forall (i : nat) (st : State),
  total = i + length steps ->
  let out := Overlap.run_loop others env transactionId total i steps st in
  let evs := snd (fst out) in
  exists m,
    m <= length steps /\
    attempted evs = seq i m /\
    Forall (fun j => i <= j < i + m) (dispatched evs) /\
    currentExecution (fst (fst out)) = None /\
    (snd out = RunCompleted /\ m = length steps /\
       completed evs = [total] /\ killed evs = []
     \/
     snd out = RunKilled (i + m) /\ m < length steps /\
       completed evs = [] /\ killed evs = [(i + m + 1, total)] /\
       killSwitchActive (fst (fst out)) = true
     \/
     snd out = RunCrashed (i + m) Overlap.null_execution /\ m < length steps /\
       completed evs = [] /\ killed evs = [] /\
       match m with
       | 0 => currentExecution st = None
       | S m' => others (i + m') = Some None
       end).
Proof.
  induction 1 as [|step rest Hs _ IH]; intros i st Ht; simpl.
  - exists 0. split; [lia|]. split; [reflexivity|]. split; [constructor|].
    split; [reflexivity|]. left. repeat split.
  - destruct (killSwitchActive st) eqn:Hk; simpl.
    + exists 0. split; [lia|]. split; [reflexivity|]. split; [constructor|].
      split; [reflexivity|].
      right. left. rewrite Nat.add_0_r. repeat split; try lia. exact Hk.
    + destruct (currentExecution st) as [e|] eqn:Hcur; simpl.
      * rewrite (get_non_null _ _ Hs).
        destruct (run_step_trace transactionId total (env i) i step
                    (get_opt step "action") st) as (Ha & Hc & Hki & Hd).
        destruct (run_step_state transactionId total (env i) i step
                    (get_opt step "action") st) as (_ & Hce & _).
        rewrite Hcur in Hce.
        destruct (run_step (env i) transactionId total i step (get_opt step "action") st)
          as [st1 evs1]. simpl in Ha, Hc, Hki, Hd, Hce.
        destruct (overwrite_frame (others i) st1) as (_ & _ & Hw).
        destruct (IH (S i) (Overlap.overwrite (others i) st1))
          as (m & Hm & Hatt & Hdis & Hend & Hcase); [simpl in Ht; lia|].
        destruct (Overlap.run_loop others env transactionId total (S i) rest
                    (Overlap.overwrite (others i) st1)) as [[st2 evs2] r].
        simpl in Hatt, Hdis, Hend, Hcase. cbn [fst snd]. exists (S m).
        rewrite attempted_app, dispatched_app, completed_app, killed_app, Ha, Hc, Hki, Hatt.
        cbn [app seq length]. split; [lia|]. split; [reflexivity|]. split.
        { apply Forall_app. split.
          - eapply Forall_impl; [exact Hd|]. simpl. intros j ->. lia.
          - eapply Forall_impl; [exact Hdis|]. simpl. intros j Hj. lia. }
        split; [exact Hend|].
        destruct Hcase as [(Hr & Hmm & Hco & Hkl)
                          |[(Hr & Hmm & Hco & Hkl & Hks)|(Hr & Hmm & Hco & Hkl & Hwhy)]].
        -- left. repeat split; [exact Hr|lia|exact Hco|exact Hkl].
        -- right. left. replace (i + S m) with (S i + m) by lia.
           repeat split; [exact Hr|lia|exact Hco|exact Hkl|exact Hks].
        -- right. right. replace (i + S m) with (S i + m) by lia.
           split; [exact Hr|]. split; [lia|]. split; [exact Hco|]. split; [exact Hkl|].
           destruct m as [|m'].
           ++ rewrite Hw in Hwhy. rewrite Nat.add_0_r.
              destruct (others i) as [[x|]|] eqn:Ho.
              ** discriminate Hwhy.
              ** reflexivity.
              ** rewrite Hce in Hwhy. discriminate Hwhy.
           ++ replace (i + S m') with (S i + m') by lia. exact Hwhy.
      * exists 0. split; [lia|]. split; [reflexivity|]. split; [constructor|].
        split; [exact Hcur|]. right. right. rewrite Nat.add_0_r.
        split; [reflexivity|]. split; [lia|]. repeat split.
Qed.

(** X4.  Whatever the browser calls throw, whenever a kill switch arrives
    and whatever other runs of the executor write to [currentExecution]
    meanwhile, a run of [executeBrowserPlan] over steps that are not
    [null] starts the steps [0 .. m-1] in order for some [m], makes
    browser calls for those steps only, and leaves [currentExecution]
    [null].  It ends in one of three ways: completed, with one
    [completed] message carrying the number of steps; killed at step
    [m + 1] with one [killed] message and the kill switch set; or on the
    [TypeError] of [currentExecution.currentStep = m], with no terminal
    message at all, which takes another run to have ended during step
    [m - 1].  When no other run ends during the steps, the run sends
    exactly one terminal message. *)
Theorem executor_run_outcomes (steps : list value) (st : State) :
  Forall (fun s => non_null s = true) steps ->
  let out := Overlap.executeBrowserPlan others env transactionId steps st in
  let evs := snd (fst out) in
  (exists m,
     m <= length steps /\
     attempted evs = seq 0 m /\
     Forall (fun j => j < m) (dispatched evs) /\
     currentExecution (fst (fst out)) = None /\
     (snd out = RunCompleted /\ m = length steps /\
        completed evs = [length steps] /\ killed evs = []
      \/
      snd out = RunKilled m /\ m < length steps /\
        completed evs = [] /\ killed evs = [(m + 1, length steps)] /\
        killSwitchActive (fst (fst out)) = true
      \/
      snd out = RunCrashed m Overlap.null_execution /\ 0 < m < length steps /\
        completed evs = [] /\ killed evs = [] /\
        others (m - 1) = Some None)) /\
  (never_cleared others (length steps) ->
   length (completed evs) + length (killed evs) = 1).
Proof.
  intros Hnn. cbv zeta. unfold Overlap.executeBrowserPlan.
  destruct (overlap_run_loop_outcomes (length steps) steps Hnn 0
              (with_execution
                 (Some {| exec_transactionId := transactionId;
                          exec_steps := steps; currentStep := 0 |}) st) eq_refl)
    as (m & Hm & Hatt & Hdis & Hend & Hcase).
  cbn [Nat.add] in Hcase. split.
  - exists m. split; [exact Hm|]. split; [exact Hatt|]. split.
    { eapply Forall_impl; [exact Hdis|]. simpl. intros j Hj. lia. }
    split; [exact Hend|].
    destruct Hcase as [H|[H|(Hr & Hlt & Hco & Hkl & Hwhy)]];
      [left; exact H|right; left; exact H|].
    right; right. destruct m as [|m']; [discriminate Hwhy|].
    split; [exact Hr|]. split; [lia|]. split; [exact Hco|]. split; [exact Hkl|].
    replace (S m' - 1) with m' by lia. exact Hwhy.
  - intros Hnever.
    destruct Hcase as [(_ & _ & Hco & Hkl)
                      |[(_ & _ & Hco & Hkl & _)|(_ & Hlt & _ & _ & Hwhy)]].
    + rewrite Hco, Hkl. reflexivity.
    + rewrite Hco, Hkl. reflexivity.
    + destruct m as [|m']; [discriminate Hwhy|].
      exfalso. apply (Hnever m'); [lia|exact Hwhy].
Qed.

(** One iteration reads [currentExecution] only to update it. *)
Lemma run_step_alike (o : step_env) (total i : nat) (step action : value)
    (st st' : State) :
  with_execution None st = with_execution None st' ->
  snd (run_step o transactionId total i step action st) =
    snd (run_step o transactionId total i step action st') /\
  with_execution None (fst (run_step o transactionId total i step action st)) =
    with_execution None (fst (run_step o transactionId total i step action st')).
Proof.
  intros H. unfold run_step. destruct (run_action i step action o) as [calls err].
  destruct st, st'. cbn in H. injection H as -> -> -> -> -> ->.
  destruct (kill_arrives o); split; reflexivity.
Qed.

(** While no other run ends during a step, the loop goes as in a run
    that nothing overlaps. *)
Lemma undisturbed_run_loop (total : nat) (steps : list value) :
  Forall (fun s => non_null s = true) steps ->
  forall (i : nat) (st st' : State),
  (forall j, i <= j < i + length steps -> others j <> Some None) ->
  is_Some (currentExecution st) ->
  with_execution None st = with_execution None st' ->
  Overlap.run_loop others env transactionId total i steps st =
    run_loop env transactionId total i steps st'.
Proof.
  induction 1 as [|step rest Hs _ IH]; intros i st st' Hno Hcur Heq; simpl.
  - rewrite Heq. reflexivity.
  - assert (Hk : killSwitchActive st = killSwitchActive st').
    { change (killSwitchActive (with_execution None st) =
              killSwitchActive (with_execution None st')). rewrite Heq. reflexivity. }
    rewrite Hk. destruct (killSwitchActive st').
    + rewrite Heq. reflexivity.
    + destruct Hcur as [e Hcur]. rewrite Hcur, (get_non_null _ _ Hs).
      destruct (run_step_alike (env i) total i step (get_opt step "action") st st' Heq)
        as [Hev Hst].
      destruct (run_step_state transactionId total (env i) i step
                  (get_opt step "action") st) as (_ & Hce & _).
      rewrite Hcur in Hce.
      destruct (run_step (env i) transactionId total i step (get_opt step "action") st)
        as [st1 evs1].
      destruct (run_step (env i) transactionId total i step (get_opt step "action") st')
        as [st1' evs1'].
      simpl in Hev, Hst, Hce. subst evs1'.
      destruct (overwrite_frame (others i) st1) as (_ & Hw & Hwc).
      rewrite (IH (S i) (Overlap.overwrite (others i) st1) st1').
      * reflexivity.
      * intros j Hj. apply Hno. simpl. lia.
      * rewrite Hwc. destruct (others i) as [[x|]|] eqn:Ho.
        -- eauto.
        -- exfalso. apply (Hno i); [simpl; lia|exact Ho].
        -- rewrite Hce. eauto.
      * rewrite Hw. exact Hst.
Qed.

Lemma undisturbed_executor (steps : list value) (st : State) :
  Forall (fun s => non_null s = true) steps ->
  never_cleared others (length steps) ->
  Overlap.executeBrowserPlan others env transactionId steps st =
    executeBrowserPlan env transactionId steps st.
Proof.
  intros Hnn Hno. unfold Overlap.executeBrowserPlan, executeBrowserPlan.
  apply undisturbed_run_loop.
  - exact Hnn.
  - intros j Hj. apply Hno. lia.
  - simpl. eauto.
  - reflexivity.
Qed.

Lemma undisturbed_pipeline (uuid : string) (parsed : value) (st : State) :
  never_cleared others MAX_STEPS ->
  Overlap.handleChatbotResponse others uuid env parsed transactionId st =
    handleChatbotResponse uuid env parsed transactionId st.
Proof.
  intros Hno. unfold Overlap.handleChatbotResponse, handleChatbotResponse.
  destruct (negb (truthy parsed)); [reflexivity|].
  destruct (set parsed "transaction_id"
              (or_else transactionId (get_opt parsed "transaction_id")))
    as [stamped|e]; cbn [mbind res_bind Js.bind]; [|reflexivity].
  destruct (validatePlan uuid stamped) as [v|e] eqn:Hv; [|reflexivity].
  destruct (valid v) eqn:Hvalid; cbn [negb]; [|reflexivity].
  destruct (validated_shape uuid stamped v Hv Hvalid)
    as (fields & steps & Hplan & Hsteps & Hwf & Hlen).
  assert (Hrec : Forall (fun s => is_record s = true) steps).
  { eapply Forall_impl; [exact Hwf|]. intros s. apply well_formed_record. }
  rewrite Hplan, (runSafetyCheck_spec fields steps Hsteps Hrec).
  cbn [safe violations splan].
  destruct (length (steps_violations 0 steps) =? 0); cbn [negb]; [|reflexivity].
  cbn [get_opt]. rewrite lookup_update_same.
  rewrite filter_all.
  2:{ apply Forall_forall. intros s Hin.
      change (map marked steps) with (marked <$> steps) in Hin.
      apply list_elem_of_fmap in Hin as (s0 & -> & Hs0).
      rewrite Forall_forall in Hwf. exact (well_formed_browser s0 (Hwf s0 Hs0)). }
  destruct (0 <? length (map marked steps)); [|reflexivity].
  rewrite undisturbed_executor; [reflexivity|apply marked_non_null; exact Hwf|].
  intros j Hj. apply Hno. rewrite length_map in Hj. lia.
Qed.

(** In a run during which no other run ends, over non-null steps and
    with the kill switch off throughout, a step that throws does not
    end the run. *)
Lemma undisturbed_run_survives_failing_steps (steps : list value) (st : State) :
  Forall (fun s => non_null s = true) steps ->
  killSwitchActive st = false ->
  (forall j, j < length steps -> kill_arrives (env j) = false) ->
  never_cleared others (length steps) ->
  let total := length steps in
  let result := Overlap.executeBrowserPlan others env transactionId steps st in
  let trace := snd (fst result) in
  snd result = RunCompleted /\
  attempted trace = seq 0 total /\
  failed trace = failing env 0 steps /\
  (forall (k : nat) (step : value) (msg : string),
     steps !! k = Some step ->
     step_error env k step = Some msg ->
     In (Log (LStepFailed (k + 1) msg)) trace /\
     In (ToPopup (PStepComplete k false (Some msg))) trace) /\
  completed trace = [total] /\
  killed trace = [] /\
  In (ToDesktop (ExecutionResult transactionId total)) trace /\
  currentExecution (fst (fst result)) = None.
Proof.
  intros Hnn Hk Hquiet Hno. cbv zeta. rewrite (undisturbed_executor steps st Hnn Hno).
  exact (failing_step_does_not_abort env transactionId steps st Hnn Hk Hquiet).
Qed.

(** X16.  When the plan is accepted and safe, the kill switch is off and none
    arrives, and no other run of the executor ends during the steps,
    [handleChatbotResponse] starts every step of the plan in order and
    reports the run as completed with all of them: the executor does
    not look at [safety_check], so a step that kept a mark [blocked] it
    came in with is run like the others. *)
Theorem safe_plan_runs_every_step (uuid : string) (parsed stamped : value)
    (st : State) (v : validation) (s : safety) :
  stamp parsed transactionId = Ok stamped ->
  validatePlan uuid stamped = Ok v ->
  valid v = true ->
  runSafetyCheck (vplan v) = Ok s ->
  safe s = true ->
  killSwitchActive st = false ->
  (forall j, kill_arrives (env j) = false) ->
  never_cleared others MAX_STEPS ->
  let out := Overlap.handleChatbotResponse others uuid env parsed transactionId st in
  snd out = Ran RunCompleted /\
  attempted (snd (fst out)) = seq 0 (length (steps_of (splan s))) /\
  completed (snd (fst out)) = [length (steps_of (splan s))] /\
  (forall i, i < length (steps_of (splan s)) ->
     mark_of (splan s) i = VStr "blocked" -> In i (attempted (snd (fst out)))).
Proof.
  intros Hs Hv Hvalid Hr Hsafe Hk Henv Hno. cbv zeta.
  rewrite (undisturbed_pipeline uuid parsed st Hno).
  exact (safe_plan_runs_alone uuid env parsed transactionId stamped st v s
           Hs Hv Hvalid Hr Hsafe Hk Henv).
Qed.

End OverlappingRuns.

Lemma executor_run_outcomes_witness :
  let out :=
    Overlap.executeBrowserPlan (ends_during 0) quiet (VStr "tx-1") sample_steps initial in
  attempted (snd (fst out)) = [0] /\
  snd out = RunCrashed 1 Overlap.null_execution /\
  completed (snd (fst out)) = [] /\ killed (snd (fst out)) = [].
Proof.
  cbv zeta.
  destruct (executor_run_outcomes (ends_during 0) quiet (VStr "tx-1") sample_steps initial)
    as [(m & Hm & Hatt & _ & _ & [(Hr & _)|[(Hr & _)|(Hr & Hlt & Hco & Hkl & _)]]) _].
  - repeat constructor.
  - vm_compute in Hr. discriminate Hr.
  - vm_compute in Hr. discriminate Hr.
  - assert (m = 1) as -> by (vm_compute in Hr; congruence).
    repeat split; assumption.
Defined.

Lemma safe_plan_runs_every_step_witness :
  let out :=
    Overlap.handleChatbotResponse (starts_during 0) "u" failing_second
      preblocked_plan VUndef initial in
  snd out = Ran RunCompleted /\
  attempted (snd (fst out)) = [0] /\
  completed (snd (fst out)) = [1].
Proof.
  destruct (safe_plan_runs_every_step (starts_during 0) failing_second VUndef "u"
              preblocked_plan _ initial _ _
              eq_refl eq_refl eq_refl eq_refl eq_refl eq_refl (fun j => eq_refl))
    as (H1 & H2 & H3 & _).
  - intros j _. destruct j; discriminate.
  - split; [exact H1|]. split; [exact H2|exact H3].
Defined.
